(** * deps.py: the third-party dependency installer

    A shallow embedding of [third_party/deps.py]: the freshness record
    (hash file) protocol, the CMake build orchestration, the manual copy
    rule engine and the library loop of [main].

    The Python code works on the file system, starts subprocesses and logs
    to the console.  The embedding threads an explicit state (file system,
    emitted events, the memoised hashes of the library object) through a
    state-and-exception monad; what the outside world decides (the output
    of git, what a cmake subprocess does, which lock files other processes
    hold, the MD5 digest) is read from an environment record. *)

From stdpp Require Import gmap strings list fin_maps sorting.
From Stdlib Require Import Ascii String DecimalString Decimal DecimalNat.

Open Scope string_scope.
Open Scope list_scope.

(** ** Strings as Python uses them *)

Module Str.

(** [ch in s] *)
Fixpoint mem (ch : ascii) (s : string) : bool :=
  match s with
  | EmptyString => false
  | String c r => Ascii.eqb c ch || mem ch r
  end.

(** [s.split(sep)] for a one-character separator. *)
Fixpoint split (sep : ascii) (s : string) : list string :=
  match s with
  | EmptyString => [EmptyString]
  | String c r =>
      if Ascii.eqb c sep then EmptyString :: split sep r
      else match split sep r with
           | x :: xs => String c x :: xs
           | [] => [String c EmptyString]
           end
  end.

(** [sep.join(l)] *)
Fixpoint join (sep : string) (l : list string) : string :=
  match l with
  | [] => EmptyString
  | [x] => x
  | x :: xs => x +:+ sep +:+ join sep xs
  end.

(** [s.startswith(p)] *)
Fixpoint startswith (p s : string) : bool :=
  match p, s with
  | EmptyString, _ => true
  | String a p', String b s' => Ascii.eqb a b && startswith p' s'
  | String _ _, EmptyString => false
  end.

Definition rev (s : string) : string :=
  string_of_list_ascii (List.rev (list_ascii_of_string s)).

(** Characters removed by [str.strip()] with no argument: the ASCII
    characters for which [str.isspace()] holds. *)
Definition is_space (c : ascii) : bool :=
  let n := nat_of_ascii c in
  Nat.eqb n 32 || (Nat.leb 9 n && Nat.leb n 13) || (Nat.leb 28 n && Nat.leb n 31).

Fixpoint lstrip_by (f : ascii -> bool) (s : string) : string :=
  match s with
  | EmptyString => EmptyString
  | String c r => if f c then lstrip_by f r else s
  end.

Definition rstrip_by (f : ascii -> bool) (s : string) : string :=
  rev (lstrip_by f (rev s)).

(** [s.strip()] *)
Definition strip (s : string) : string :=
  rstrip_by is_space (lstrip_by is_space s).

Definition nl : ascii := "010"%char.
Definition cr : ascii := "013"%char.

(** [s.rstrip("\n")] *)
Definition rstrip_nl (s : string) : string := rstrip_by (Ascii.eqb nl) s.

End Str.

(** ** Paths: [pathlib.PurePosixPath]

    A path is the tuple of its [parts]; an absolute path starts with the
    root part ["/"] (or ["//"]).  The empty tuple is [Path(".")]. *)

Definition path := list string.

Module Path.

Definition is_root (part : string) : bool :=
  String.eqb part "/" || String.eqb part "//".

(** [posixpath.splitroot]: the root of a path string. *)
Definition root_of (s : string) : option string :=
  match s with
  | String "/" (String "/" (String "/" _)) => Some "/"
  | String "/" (String "/" _) => Some "//"
  | String "/" _ => Some "/"
  | _ => None
  end.

Definition keep_part (x : string) : bool :=
  negb (String.eqb x "") && negb (String.eqb x ".").

(** [Path(s).parts] *)
Definition parse (s : string) : path :=
  let rel := List.filter keep_part (Str.split "/" s) in
  match root_of s with
  | Some r => r :: rel
  | None => rel
  end.

(** [p / q] for a path [q]: an absolute right operand replaces the left. *)
Definition join (p q : path) : path :=
  match q with
  | r :: _ => if is_root r then q else p ++ q
  | [] => p
  end.

(** [p / s] for a string [s]. *)
Definition join_str (p : path) (s : string) : path := join p (parse s).

(** [str(p)] *)
Definition to_str (p : path) : string :=
  match p with
  | [] => "."
  | r :: rest => if is_root r then r +:+ Str.join "/" rest else Str.join "/" p
  end.

(** [p.name] *)
Definition name (p : path) : string :=
  match List.rev p with
  | [] => ""
  | x :: _ => if is_root x then "" else x
  end.

(** [p.parent] *)
Definition parent (p : path) : path :=
  match p with
  | [r] => if is_root r then p else []
  | _ => removelast p
  end.

(** [p.relative_to(other)]: [None] stands for the [ValueError]. *)
Fixpoint relative_to (p other : path) : option path :=
  match other, p with
  | [], _ => Some p
  | o :: other', x :: p' => if String.eqb o x then relative_to p' other' else None
  | _ :: _, [] => None
  end.

End Path.

(** ** [ManualLibrary._SplitPattern] *)

Definition wildcard_chars : list ascii := ["*"; "?"; "["]%char.

(** [any(ch in part for ch in "*?[")] *)
Definition has_wildcard (part : string) : bool :=
  existsb (fun ch => Str.mem ch part) wildcard_chars.

(** The loop over [enumerate(parts)]: [seen] are the parts before index
    [i], in order. *)
Fixpoint split_parts (seen rest : list string) : path * string :=
  match rest with
  | [] => (seen, "")
  | part :: rest' =>
      if has_wildcard part then (seen, Str.join "/" rest)
      else split_parts (seen ++ [part]) rest'
  end.

Definition _SplitPattern (pattern : string) : path * string :=
  split_parts [] (Path.parse pattern).

(** ** The file system

    A finite map from paths to nodes.  The current directory [[]] and the
    root are directories that always exist.  Symbolic links, permissions
    and [..] segments are not modelled: a path names one node, and paths
    with different parts name different nodes.  An absolute and a relative
    path are not related to each other either: the position of the current
    directory is not part of the model. *)

Inductive node :=
| NDir
| NFile (content : string).

#[global] Instance node_eq_dec : EqDecision node.
Proof. solve_decision. Defined.

Abbreviation fs := (gmap path node).

(** The [OSError] subclasses the modelled operations raise. *)
Inductive oserror :=
| FileNotFoundError
| FileExistsError
| IsADirectoryError
| NotADirectoryError
| ShutilError.

(** Python exceptions.  [ValueError], [IndexError] and
    [NotImplementedError] are [Exception]s that are neither an [OSError]
    nor a [CalledProcessError]; [SystemExit], raised by [sys.exit], is not
    an [Exception]. *)
Inductive exn :=
| OSError (kind : oserror) (p : path)
| CalledProcessError (cmd : list string)
| ValueError (p : path)
| IndexError
| NotImplementedError
| SystemExit (code : nat).

Module FS.

Definition is_anchor (p : path) : bool :=
  match p with
  | [] => true
  | [r] => Path.is_root r
  | _ => false
  end.

Definition lookup (f : fs) (p : path) : option node :=
  if is_anchor p then Some NDir else f !! p.

(** [p.exists()] *)
Definition exists_ (f : fs) (p : path) : bool :=
  match lookup f p with Some _ => true | None => false end.

(** [p.is_dir()] *)
Definition is_dir (f : fs) (p : path) : bool :=
  match lookup f p with Some NDir => true | _ => false end.

(** [p.is_file()] *)
Definition is_file (f : fs) (p : path) : bool :=
  match lookup f p with Some (NFile _) => true | _ => false end.

(** The error of an operation that needs [p]'s parent to be a directory,
    if it is not one. *)
Definition parent_error (f : fs) (p : path) : option exn :=
  match lookup f (Path.parent p) with
  | Some NDir => None
  | Some (NFile _) => Some (OSError NotADirectoryError p)
  | None => Some (OSError FileNotFoundError p)
  end.

(** [os.makedirs(p, exist_ok=True)] and [p.mkdir(parents=True,
    exist_ok=True)]: walk down from the anchor, creating what is missing.
    [above] is the prefix already known to be a directory. *)
Fixpoint makedirs_from (f : fs) (above below : path) : exn + fs :=
  match below with
  | [] => inr f
  | x :: below' =>
      let q := above ++ [x] in
      match lookup f q with
      | Some NDir => makedirs_from f q below'
      | Some (NFile _) =>
          inl (OSError (match below' with [] => FileExistsError | _ => NotADirectoryError end)
                       (q ++ below'))
      | None => makedirs_from (<[q := NDir]> f) q below'
      end
  end.

Definition makedirs (f : fs) (p : path) : exn + fs := makedirs_from f [] p.

(** [p.mkdir(parents=True)]: as [makedirs], but an existing [p] is an error. *)
Definition mkdir_parents (f : fs) (p : path) : exn + fs :=
  if exists_ f p then inl (OSError FileExistsError p) else makedirs f p.

(** Reading a whole file opened with [open("r")].  The content of a
    file is its text as decoded: a file whose bytes cannot be decoded
    (a [UnicodeDecodeError], which is no [OSError]) is not modelled. *)
Definition read (f : fs) (p : path) : exn + string :=
  match lookup f p with
  | Some (NFile c) => inr c
  | Some NDir => inl (OSError IsADirectoryError p)
  | None => inl (OSError FileNotFoundError p)
  end.

(** Replacing the content of a file opened with [open("w")]. *)
Definition write (f : fs) (p : path) (content : string) : exn + fs :=
  match lookup f p with
  | Some NDir => inl (OSError IsADirectoryError p)
  | Some (NFile _) => inr (<[p := NFile content]> f)
  | None =>
      match parent_error f p with
      | Some e => inl e
      | None => inr (<[p := NFile content]> f)
      end
  end.

(** [p.unlink()] *)
Definition unlink (f : fs) (p : path) : exn + fs :=
  match lookup f p with
  | Some (NFile _) => inr (delete p f)
  | Some NDir => inl (OSError IsADirectoryError p)
  | None => inl (OSError FileNotFoundError p)
  end.

(** The nodes strictly below [p], with their paths relative to [p]. *)
Definition below (f : fs) (p : path) : list (path * node) :=
  omap (fun kv => match Path.relative_to kv.1 p with
                  | Some [] => None
                  | Some rel => Some (rel, kv.2)
                  | None => None
                  end) (map_to_list f).

(** Removing [p] and everything below it. *)
Definition remove_tree (f : fs) (p : path) : fs :=
  filter (fun kv => ¬ p `prefix_of` kv.1) f.

(** [shutil.rmtree(p)] *)
Definition rmtree (f : fs) (p : path) : exn + fs :=
  match lookup f p with
  | Some NDir => inr (remove_tree f p)
  | Some (NFile _) => inl (OSError NotADirectoryError p)
  | None => inl (OSError FileNotFoundError p)
  end.

(** The names [os.listdir(p)] returns, in a fixed order. *)
Definition listdir (f : fs) (p : path) : list string :=
  omap (fun kv => match kv.1 with [x] => Some x | _ => None end) (below f p).

(** [shutil.copy2(src, dst)]: into [dst] when that is a directory. *)
Definition copy2 (f : fs) (src dst : path) : exn + fs :=
  let dst' := if is_dir f dst then dst ++ [Path.name src] else dst in
  match read f src with
  | inl e => inl e
  | inr c => write f dst' c
  end.

(** Parents before children. *)
Definition shallower (a b : path * node) : Prop :=
  List.length a.1 <= List.length b.1.

#[global] Instance shallower_dec : RelDecision shallower.
Proof. intros a b. unfold shallower. apply _. Defined.

(** One entry of the tree walk of [copytree]: a directory is created at
    the destination, a file is copied there with [copy2].  An [OSError] is
    collected and the walk goes on. *)
Definition copy_entry (src dst : path) (acc : bool * fs) (e : path * node) : bool * fs :=
  let '(failed, f) := acc in
  let r := match e.2 with
           | NDir => makedirs f (dst ++ e.1)
           | NFile _ => copy2 f (src ++ e.1) (dst ++ e.1)
           end in
  match r with
  | inl _ => (true, f)
  | inr f' => (failed, f')
  end.

(** [shutil.copytree(src, dst, dirs_exist_ok=True)]: the entries below
    [src] as they are when the call starts. *)
Definition copytree (f : fs) (src dst : path) : (exn * fs) + fs :=
  match lookup f src with
  | None => inl (OSError FileNotFoundError src, f)
  | Some (NFile _) => inl (OSError NotADirectoryError src, f)
  | Some NDir =>
      match makedirs f dst with
      | inl e => inl (e, f)
      | inr f1 =>
          let entries := merge_sort shallower (below f src) in
          let '(failed, f2) := foldl (copy_entry src dst) (false, f1) entries in
          if failed then inl (OSError ShutilError src, f2) else inr f2
      end
  end.

End FS.

(** ** [fnmatch] and [glob.glob(..., recursive=True)] *)

Module Glob.

Inductive tok :=
| TStar
| TAny
| TClass (negated : bool) (body : list ascii)
| TLit (c : ascii).

(** The characters up to the first ["]"], and what follows it. *)
Fixpoint until_close (s : list ascii) : option (list ascii * list ascii) :=
  match s with
  | [] => None
  | c :: r =>
      if Ascii.eqb c "]" then Some ([], r)
      else match until_close r with
           | Some (body, r') => Some (c :: body, r')
           | None => None
           end
  end.

(** What follows a ["["]: an optional ["!"], then a body whose first
    character may be ["]"], then the closing ["]"]. *)
Definition class_of (s : list ascii) : option (bool * list ascii * list ascii) :=
  let '(neg, s1) := match s with
                    | c :: r => if Ascii.eqb c "!" then (true, r) else (false, s)
                    | [] => (false, s)
                    end in
  match s1 with
  | c :: r =>
      if Ascii.eqb c "]" then
        match until_close r with
        | Some (body, r') => Some (neg, c :: body, r')
        | None => None
        end
      else
        match until_close s1 with
        | Some (body, r') => Some (neg, body, r')
        | None => None
        end
  | [] => None
  end.

(** [fnmatch.translate]; every step consumes a character, so the length
    of the pattern is enough fuel. *)
Fixpoint tokens (fuel : nat) (pat : list ascii) : list tok :=
  match fuel, pat with
  | S fuel', c :: r =>
      if Ascii.eqb c "*" then TStar :: tokens fuel' r
      else if Ascii.eqb c "?" then TAny :: tokens fuel' r
      else if Ascii.eqb c "[" then
        match class_of r with
        | Some (neg, body, r') => TClass neg body :: tokens fuel' r'
        | None => TLit c :: tokens fuel' r
        end
      else TLit c :: tokens fuel' r
  | _, _ => []
  end.

Definition ascii_le (a b : ascii) : bool := Nat.leb (nat_of_ascii a) (nat_of_ascii b).

(** Membership in the body of a character class: [lo-hi] is a range, any
    other character stands for itself. *)
Fixpoint in_class (body : list ascii) (c : ascii) : bool :=
  match body with
  | [] => false
  | lo :: r =>
      match r with
      | dash :: hi :: r' =>
          if Ascii.eqb dash "-" then (ascii_le lo c && ascii_le c hi) || in_class r' c
          else Ascii.eqb lo c || in_class r c
      | _ => Ascii.eqb lo c || in_class r c
      end
  end.

Fixpoint match_tokens (ts : list tok) (s : list ascii) : bool :=
  match ts with
  | [] => match s with [] => true | _ => false end
  | TStar :: ts' =>
      (fix star (s : list ascii) : bool :=
         match_tokens ts' s ||
         match s with
         | [] => false
         | _ :: s' => star s'
         end) s
  | TAny :: ts' =>
      match s with
      | _ :: s' => match_tokens ts' s'
      | [] => false
      end
  | TClass neg body :: ts' =>
      match s with
      | c :: s' => xorb neg (in_class body c) && match_tokens ts' s'
      | [] => false
      end
  | TLit c :: ts' =>
      match s with
      | c' :: s' => Ascii.eqb c c' && match_tokens ts' s'
      | [] => false
      end
  end.

(** [fnmatch.fnmatch(name, pat)] on a POSIX system. *)
Definition fnmatch (name pat : string) : bool :=
  let p := list_ascii_of_string pat in
  match_tokens (tokens (List.length p) p) (list_ascii_of_string name).

(** [glob.has_magic] *)
Definition has_magic (s : string) : bool := has_wildcard s.

(** [glob._ishidden] *)
Definition is_hidden (name : string) : bool :=
  match name with
  | String c _ => Ascii.eqb c "."
  | EmptyString => false
  end.

Definition node_is_dir (n : node) : bool :=
  match n with NDir => true | NFile _ => false end.

(** [glob._glob0]: a literal segment. *)
Definition glob0 (f : fs) (dir : path) (seg : string) : list path :=
  if FS.exists_ f (dir ++ [seg]) then [dir ++ [seg]] else [].

(** [glob._glob1]: a segment with wildcards, matched against the entries
    of [dir]; hidden entries only when the pattern itself starts with a
    dot. *)
Definition glob1 (f : fs) (dir : path) (seg : string) (dironly : bool) : list path :=
  if FS.is_dir f dir then
    omap (fun name =>
            if (negb dironly || FS.is_dir f (dir ++ [name]))
               && (is_hidden seg || negb (is_hidden name))
               && fnmatch name seg
            then Some (dir ++ [name]) else None)
         (FS.listdir f dir)
  else [].

(** [glob._glob2]: the segment ["**"]: [dir] itself and everything below
    it that is reached through names that are not hidden. *)
Definition glob2 (f : fs) (dir : path) (dironly : bool) : list path :=
  if FS.is_dir f dir then
    dir :: omap (fun e : path * node =>
                   if forallb (fun x => negb (is_hidden x)) e.1
                      && (negb dironly || node_is_dir e.2)
                   then Some (dir ++ e.1) else None)
                (FS.below f dir)
  else [].

(** The segments from the first one with a wildcard on, expanded from
    left to right; every segment but the last selects directories only. *)
Fixpoint expand (f : fs) (dirs : list path) (segs : list string) : list path :=
  match segs with
  | [] => dirs
  | seg :: rest =>
      let dironly := match rest with [] => false | _ => true end in
      let step dir :=
        if String.eqb seg "**" then glob2 f dir dironly
        else if has_magic seg then glob1 f dir seg dironly
        else glob0 f dir seg in
      expand f (flat_map step dirs) rest
  end.

Fixpoint literal_prefix (seen rest : list string) : path * list string :=
  match rest with
  | [] => (seen, [])
  | seg :: rest' =>
      if has_magic seg then (seen, rest)
      else literal_prefix (seen ++ [seg]) rest'
  end.

(** [[Path(q) for q in glob(str(pattern), recursive=True)]].  For the
    pattern ["**"] alone [glob] drops its first result, the empty string. *)
Definition glob (f : fs) (pattern : path) : list path :=
  if existsb has_magic pattern then
    let '(lit, segs) := literal_prefix [] pattern in
    let found := expand f [lit] segs in
    match pattern with
    | [seg] => if String.eqb seg "**" then List.tl found else found
    | _ => found
    end
  else if FS.exists_ f pattern then [pattern] else [].

End Glob.

(** ** Text files: universal newlines *)

Module Lines.

(** Reading in text mode turns ["\r\n"] and ["\r"] into ["\n"]. *)
Fixpoint universal (s : string) : string :=
  match s with
  | EmptyString => EmptyString
  | String c r =>
      if Ascii.eqb c Str.cr then
        match r with
        | String c' r' =>
            if Ascii.eqb c' Str.nl then String Str.nl (universal r')
            else String Str.nl (universal r)
        | EmptyString => String Str.nl EmptyString
        end
      else String c (universal r)
  end.

(** Cutting after every ["\n"]; the newline stays with its line. *)
Fixpoint cut (s : string) : list string :=
  match s with
  | EmptyString => []
  | String c r =>
      if Ascii.eqb c Str.nl then String c EmptyString :: cut r
      else match cut r with
           | x :: xs => String c x :: xs
           | [] => [String c EmptyString]
           end
  end.

(** [f.readlines()] and the iteration over a file opened with [open("r")]. *)
Definition readlines (content : string) : list string := cut (universal content).

(** [f.writelines(lines)] *)
Definition writelines (lines : list string) : string := Str.join "" lines.

(** [while len(lines) < n: lines.append("\n")] *)
Definition pad (lines : list string) (n : nat) : list string :=
  lines ++ replicate (n - List.length lines) (String Str.nl EmptyString).

End Lines.

(** ** Events, state and the monad of the program *)

Inductive LogType := Info | Success | Warning | Error.

(** The messages passed to [log], with the values their f-strings
    interpolate. *)
Inductive message :=
| MsgUpToDate (lib_name : string)
| MsgInstalling (lib_name : string)
| MsgInstalled (lib_name : string)
| MsgGitHashFailed (source_dir : path) (e : exn)
| MsgCompiling (lib_name : string)
| MsgBuilt (lib_name : string) (config : option string)
| MsgStageFailed (stage : string)
| MsgPatternBaseNotFound (glob_root : path)
| MsgExcludeNotNeeded (exclude_pattern : string)
| MsgRelativePathFailed (full_path : path)
| MsgSourceNotFound (source_dir : path)
| MsgProcessFailed (lib_name : string) (e : exn)
| MsgNothingToDo
| MsgAllInstalled.

(** What the program does to the outside world, in the order it does it.
    An event records the call, whether or not it succeeds. *)
Inductive event :=
| Log (ty : LogType) (msg : message)
| GitRevParse (dir : path)
| Exec (cmd : list string) (cwd : path) (ok : bool)
| Mkdir (p : path)
| Rmtree (p : path)
| Unlink (p : path)
| WriteFile (p : path) (content : string)
| Copy2 (src dst : path)
| CopyTree (src dst : path).

(** The module globals set by [main] from the command line. *)
Record Config := {
  SOURCES_ROOT : path;
  INSTALL_ROOT : path;
  CACHE_ROOT : option path;
  HEADER_SUBDIR : path;
  CMAKE : string;
  CMAKE_GLOBAL_ARGS : list string
}.

(** What the program cannot decide itself. *)
Record Env := {
  (** standard output of [git -C dir rev-parse HEAD]; [None] when git
      exits with a non-zero status *)
  git_rev_parse : path -> option string;
  (** a cmake subprocess started in [cwd]: whether it exits with status
      zero, and the file system it leaves *)
  run_process : list string -> path -> fs -> bool * fs;
  (** the lock files on which other processes hold a lock *)
  locked_elsewhere : list path;
  (** [hashlib.md5(s.encode()).hexdigest()] *)
  md5_hexdigest : string -> string
}.

(** The file system, the events so far, and the two memoised fields of
    the library object in use ([self.git_hash], [self.build_hash]). *)
Record State := {
  st_fs : fs;
  st_events : list event;
  git_hash : option string;
  build_hash : option string
}.

(** The outcome of a run: a value, an exception, or no outcome at all
    (the [while True] loop of the lock search, cut off; the last part of
    the file shows that this does not happen). *)
Inductive result (A : Type) :=
| Ok (a : A)
| Raise (e : exn)
| Diverge.
Arguments Ok {A} a.
Arguments Raise {A} e.
Arguments Diverge {A}.

(** Programs over a state [Σ]: the effects made before an exception
    stay. *)
Definition Prog (Σ A : Type) : Type := Σ -> result A * Σ.

Abbreviation M := (Prog State).

Definition ret {Σ A} (a : A) : Prog Σ A := fun s => (Ok a, s).

Definition raise {Σ A} (e : exn) : Prog Σ A := fun s => (Raise e, s).

Definition bind {Σ A B} (m : Prog Σ A) (k : A -> Prog Σ B) : Prog Σ B :=
  fun s =>
    match m s with
    | (Ok a, s') => k a s'
    | (Raise e, s') => (Raise e, s')
    | (Diverge, s') => (Diverge, s')
    end.

Declare Scope prog_scope.
Delimit Scope prog_scope with prog.
Notation "x <- m ;; k" := (bind m (fun x => k))
  (at level 100, m at next level, right associativity) : prog_scope.
Notation "m ;;; k" := (bind m (fun _ => k))
  (at level 100, right associativity) : prog_scope.
Open Scope prog_scope.

(** [try: m except <handles>: handler] *)
Definition try_except {Σ A} (m : Prog Σ A) (handles : exn -> bool)
    (handler : exn -> Prog Σ A) : Prog Σ A :=
  fun s =>
    match m s with
    | (Raise e, s') => if handles e then handler e s' else (Raise e, s')
    | r => r
    end.

(** [try: m finally: cleanup]; an exception of [cleanup] replaces the
    outcome of [m]. *)
Definition try_finally {Σ A} (m : Prog Σ A) (cleanup : Prog Σ unit) : Prog Σ A :=
  fun s =>
    match m s with
    | (Diverge, s') => (Diverge, s')
    | (r, s') =>
        match cleanup s' with
        | (Ok _, s'') => (r, s'')
        | (Raise e, s'') => (Raise e, s'')
        | (Diverge, s'') => (Diverge, s'')
        end
    end.

(** A method with local variables [Λ]: programs over the pair of the
    locals and the state. *)
Definition lift {Λ A} (m : M A) : Prog (Λ * State) A :=
  fun ls => let '(r, s') := m ls.2 in (r, (ls.1, s')).

Definition get_locals {Λ} : Prog (Λ * State) Λ := fun ls => (Ok ls.1, ls).

Definition set_locals {Λ} (upd : Λ -> Λ) : Prog (Λ * State) unit :=
  fun ls => (Ok tt, (upd ls.1, ls.2)).

Definition is_CalledProcessError (e : exn) : bool :=
  match e with CalledProcessError _ => true | _ => false end.

Definition is_OSError (e : exn) : bool :=
  match e with OSError _ _ => true | _ => false end.

Definition is_ValueError (e : exn) : bool :=
  match e with ValueError _ => true | _ => false end.

(** [except Exception] *)
Definition is_Exception (e : exn) : bool :=
  match e with SystemExit _ => false | _ => true end.

Definition get_fs : M fs := fun s => (Ok (st_fs s), s).

Definition set_fs (f : fs) : M unit :=
  fun s => (Ok tt, {| st_fs := f; st_events := st_events s;
                      git_hash := git_hash s; build_hash := build_hash s |}).

Definition emit (e : event) : M unit :=
  fun s => (Ok tt, {| st_fs := st_fs s; st_events := st_events s ++ [e];
                      git_hash := git_hash s; build_hash := build_hash s |}).

(** [log(message, log_type)]: every call in the file leaves [log_level]
    at its default, [LogLevel.Normal], which [CURRENT_LOG_LEVEL] never
    exceeds, so the message is always printed. *)
Definition log (msg : message) (ty : LogType) : M unit := emit (Log ty msg).

(** A file-system operation that fails without changing anything. *)
Definition fs_op (op : fs -> exn + fs) : M unit :=
  f <- get_fs ;;
  match op f with
  | inl e => raise e
  | inr f' => set_fs f'
  end.

Definition mkdir_parents_exist_ok (p : path) : M unit :=
  emit (Mkdir p) ;;; fs_op (fun f => FS.makedirs f p).

Definition mkdir_parents (p : path) : M unit :=
  emit (Mkdir p) ;;; fs_op (fun f => FS.mkdir_parents f p).

Definition rmtree (p : path) : M unit :=
  emit (Rmtree p) ;;; fs_op (fun f => FS.rmtree f p).

Definition unlink (p : path) : M unit :=
  emit (Unlink p) ;;; fs_op (fun f => FS.unlink f p).

Definition copy2 (src dst : path) : M unit :=
  emit (Copy2 src dst) ;;; fs_op (fun f => FS.copy2 f src dst).

Definition copytree (src dst : path) : M unit :=
  emit (CopyTree src dst) ;;;
  f <- get_fs ;;
  match FS.copytree f src dst with
  | inl (e, f') => set_fs f' ;;; raise e
  | inr f' => set_fs f'
  end.

Definition path_exists (p : path) : M bool := f <- get_fs ;; ret (FS.exists_ f p).

Definition read_file (p : path) : M string :=
  f <- get_fs ;;
  match FS.read f p with
  | inl e => raise e
  | inr c => ret c
  end.

Definition write_file (p : path) (content : string) : M unit :=
  emit (WriteFile p content) ;;; fs_op (fun f => FS.write f p content).

(** [for x in l: body(x)] *)
Fixpoint for_each {Σ A} (l : list A) (body : A -> Prog Σ unit) : Prog Σ unit :=
  match l with
  | [] => ret tt
  | x :: l' => body x ;;; for_each l' body
  end.

(** ** The library classes *)

(** The variants [main] creates.  A [HeaderLibrary] is a
    [ManualLibrary] built by [HeaderLibrary_init]; the base class
    [InstallingLibrary] itself is never instantiated. *)
Inductive LibKind :=
| CMakeLibrary (build_dir : path) (extra_args : list string) (build_debug : bool)
| ManualLibrary (rules : list (string * string * string)).

Record Library := {
  source_dir_base : path;
  install_dir_base : path;
  kind : LibKind
}.

(** [InstallingLibrary.WriteLineAt] and [ReadLineAt] are static and use
    no global. *)

Definition set_line (lines : list string) (n : nat) (line : string) : exn + list string :=
  match n with
  | S i => inr (<[i := line]> lines)
  | 0 =>
      (* [lines[-1] = ...] *)
      match lines with
      | [] => inl IndexError
      | _ => inr (<[List.length lines - 1 := line]> lines)
      end
  end.

Definition WriteLineAt (p : path) (n : nat) (text : string) : M unit :=
  mkdir_parents_exist_ok (Path.parent p) ;;;
  present <- path_exists p ;;
  lines <- (if present then c <- read_file p ;; ret (Lines.readlines c)
            else ret []) ;;
  let lines := Lines.pad lines n in
  match set_line lines n (Str.rstrip_nl text +:+ String Str.nl EmptyString) with
  | inl e => raise e
  | inr lines' => write_file p (Lines.writelines lines')
  end.

Definition ReadLineAt (p : path) (n : nat) : M (option string) :=
  present <- path_exists p ;;
  if negb present then ret None
  else
    c <- read_file p ;;
    ret (match n with
         | S i => Str.rstrip_nl <$> (Lines.readlines c !! i)
         | 0 => None
         end).

Definition set_git_hash (h : option string) : M unit :=
  fun s => (Ok tt, {| st_fs := st_fs s; st_events := st_events s;
                      git_hash := h; build_hash := build_hash s |}).

Definition set_build_hash (h : option string) : M unit :=
  fun s => (Ok tt, {| st_fs := st_fs s; st_events := st_events s;
                      git_hash := git_hash s; build_hash := h |}).

Definition get_state {Σ} : Prog Σ Σ := fun s => (Ok s, s).

(** [subprocess.run(cmd, cwd=cwd, check=True)] *)
Definition subprocess_run (env : Env) (cmd : list string) (cwd : path) : M unit :=
  f <- get_fs ;;
  let '(ok, f') := run_process env cmd cwd f in
  emit (Exec cmd cwd ok) ;;;
  set_fs f' ;;;
  if ok then ret tt else raise (CalledProcessError cmd).

(** The local variables of [CMakeLibrary.BuildAndInstall] that change
    while it runs. *)
Record locals := {
  l_build_dir : path;
  l_n : nat;
  l_lock : bool;
  l_stage : string;
  l_needToCleanupInstall : bool
}.

Definition set_stage (stage : string) : Prog (locals * State) unit :=
  set_locals (fun l => {| l_build_dir := l_build_dir l; l_n := l_n l; l_lock := l_lock l;
                          l_stage := stage;
                          l_needToCleanupInstall := l_needToCleanupInstall l |}).

Definition set_lock (lock : bool) : Prog (locals * State) unit :=
  set_locals (fun l => {| l_build_dir := l_build_dir l; l_n := l_n l; l_lock := lock;
                          l_stage := l_stage l;
                          l_needToCleanupInstall := l_needToCleanupInstall l |}).

Definition set_build_dir (n : nat) (d : path) : Prog (locals * State) unit :=
  set_locals (fun l => {| l_build_dir := d; l_n := n; l_lock := l_lock l;
                          l_stage := l_stage l;
                          l_needToCleanupInstall := l_needToCleanupInstall l |}).

Definition set_needToCleanupInstall (b : bool) : Prog (locals * State) unit :=
  set_locals (fun l => {| l_build_dir := l_build_dir l; l_n := l_n l; l_lock := l_lock l;
                          l_stage := l_stage l;
                          l_needToCleanupInstall := b |}).

(** [f"{n}"] *)
Definition str_of_nat (n : nat) : string := NilEmpty.string_of_uint (Nat.to_uint n).

Definition multi_config_generators : list string :=
  ["Ninja Multi-Config"; "FASTBuild"; "Xcode"].

Section Program.

Variable cfg : Config.
Variable env : Env.

Definition lib_name (l : Library) : string := Path.name (source_dir_base l).
Definition source_dir (l : Library) : path := Path.join (SOURCES_ROOT cfg) (source_dir_base l).
Definition install_dir (l : Library) : path := Path.join (INSTALL_ROOT cfg) (install_dir_base l).

(** [HeaderLibrary.__init__] *)
Definition HeaderLibrary_init (source_dir_base install_dir_base : path) (paths : list string)
    : Library :=
  {| source_dir_base := source_dir_base;
     install_dir_base := HEADER_SUBDIR cfg;
     kind := ManualLibrary (List.map (fun p => (p, Path.to_str install_dir_base, "")) paths) |}.

(** *** The freshness record *)

Definition git_cmd (l : Library) : list string :=
  ["git"; "-C"; Path.to_str (source_dir l); "rev-parse"; "HEAD"].

Definition GetGitHash (l : Library) : M string :=
  s <- get_state ;;
  match git_hash s with
  | Some h => ret h
  | None =>
      emit (GitRevParse (source_dir l)) ;;;
      match git_rev_parse env (source_dir l) with
      | Some stdout =>
          let h := Str.strip stdout in
          set_git_hash (Some h) ;;; ret h
      | None => raise (CalledProcessError (git_cmd l))
      end
  end.

Definition CheckGitHash (l : Library) (hash_file : path) : M bool :=
  try_except
    (h <- GetGitHash l ;;
     line <- ReadLineAt hash_file 1 ;;
     ret (bool_decide (Some h = line)))
    is_CalledProcessError
    (fun e => log (MsgGitHashFailed (source_dir l) e) Error ;;; ret false).

(** [InstallingLibrary.IsHashRelevant] *)
Definition base_IsHashRelevant (l : Library) (hash_file : path) : M bool :=
  present <- path_exists hash_file ;;
  if present then CheckGitHash l hash_file else ret false.

(** [InstallingLibrary.WriteHash] *)
Definition base_WriteHash (l : Library) (hash_file : path) : M unit :=
  h <- GetGitHash l ;;
  WriteLineAt hash_file 1 h.

Definition GetBuildHash (extra_args : list string) : M string :=
  s <- get_state ;;
  match build_hash s with
  | Some h => ret h
  | None =>
      let data_str := Str.join "|" extra_args in
      let h := md5_hexdigest env data_str in
      set_build_hash (Some h) ;;; ret h
  end.

Definition CheckBuildHash (l : Library) (extra_args : list string) (hash_file : path) : M bool :=
  try_except
    (h <- GetBuildHash extra_args ;;
     line <- ReadLineAt hash_file 2 ;;
     ret (bool_decide (Some h = line)))
    is_CalledProcessError
    (fun e => log (MsgGitHashFailed (source_dir l) e) Error ;;; ret false).

Definition IsHashRelevant (l : Library) (hash_file : path) : M bool :=
  match kind l with
  | CMakeLibrary _ extra_args _ =>
      b <- base_IsHashRelevant l hash_file ;;
      if b then CheckBuildHash l extra_args hash_file else ret false
  | ManualLibrary _ => base_IsHashRelevant l hash_file
  end.

Definition WriteHash (l : Library) (hash_file : path) : M unit :=
  match kind l with
  | CMakeLibrary _ extra_args _ =>
      base_WriteHash l hash_file ;;;
      h <- GetBuildHash extra_args ;;
      WriteLineAt hash_file 2 h
  | ManualLibrary _ => base_WriteHash l hash_file
  end.

Definition hash_file_of (l : Library) : path :=
  Path.join_str
    (match CACHE_ROOT cfg with
     | Some cache_root => Path.join cache_root (install_dir_base l)
     | None => install_dir l
     end)
    ("hash_" +:+ lib_name l +:+ ".txt").

(** *** [CMakeLibrary] *)

(** [_AcquireLock]: whether the lock was obtained (a file object) or not
    ([None]).  Opening the lock file for writing creates or empties it. *)
Definition _AcquireLock (lock_file : path) : M bool :=
  mkdir_parents_exist_ok (Path.parent lock_file) ;;;
  write_file lock_file "" ;;;
  ret (negb (bool_decide (lock_file ∈ locked_elsewhere env))).

(** The last value a [CMAKE_GENERATOR:] line assigns, as the loop over
    the lines of [CMakeCache.txt] computes it. *)
Fixpoint scan_generator (lines : list string) (generator : string) : exn + string :=
  match lines with
  | [] => inr generator
  | line :: rest =>
      if Str.startswith "CMAKE_GENERATOR:" line then
        match Str.split "=" line !! 1 with
        | Some v => scan_generator rest (Str.strip v)
        | None => inl IndexError
        end
      else scan_generator rest generator
  end.

Definition IsGeneratorMultiConfig (build_dir : path) : M bool :=
  try_except
    (c <- read_file (Path.join_str build_dir "CMakeCache.txt") ;;
     match scan_generator (Lines.readlines c) "" with
     | inl e => raise e
     | inr generator =>
         ret (Str.startswith "Visual Studio" generator
              || bool_decide (generator ∈ multi_config_generators))
     end)
    is_OSError
    (fun _ => ret false).

(** The body of the purge loop: everything in the build directory but
    the lock file goes. *)
Definition purge_item (build_dir : path) (name : string) : M unit :=
  let item := build_dir ++ [name] in
  if String.eqb name (Path.name (Path.join_str build_dir ".lock")) then ret tt
  else
    f <- get_fs ;;
    if FS.is_dir f item then rmtree item else unlink item.

(** [for item in build_dir.iterdir()] *)
Definition iterdir (d : path) : M (list string) :=
  f <- get_fs ;;
  match FS.lookup f d with
  | Some NDir => ret (FS.listdir f d)
  | Some (NFile _) => raise (OSError NotADirectoryError d)
  | None => raise (OSError FileNotFoundError d)
  end.

(** The [while True] loop that looks for a build directory nobody has
    locked: [build], [build-1], [build-2], ... *)
Fixpoint lock_loop (l : Library) (build_dir : path) (fuel : nat) : Prog (locals * State) unit :=
  match fuel with
  | 0 => fun ls => (Diverge, ls)
  | S fuel' =>
      loc <- get_locals ;;
      let lock_file := Path.join_str (l_build_dir loc) ".lock" in
      lock <- lift (_AcquireLock lock_file) ;;
      set_lock lock ;;;
      if lock then
        names <- lift (iterdir (l_build_dir loc)) ;;
        lift (for_each names (purge_item (l_build_dir loc)))
      else
        let n := S (l_n loc) in
        set_build_dir n
          (Path.join_str (source_dir l) (Path.to_str build_dir +:+ "-" +:+ str_of_nat n)) ;;;
        lock_loop l build_dir fuel'
  end.

(** The body of [for config in configs]. *)
Definition build_config (l : Library) (configs : list string) (isMulti : bool)
    (config : string) : Prog (locals * State) unit :=
  loc <- get_locals ;;
  let build_dir := l_build_dir loc in
  build_cmd <-
    (if isMulti then
       ret [CMAKE cfg; "--build"; "."; "--config"; config; "--parallel"]
     else
       let cmake_cmd := [CMAKE cfg; "-DCMAKE_BUILD_TYPE=" +:+ config; ".."] in
       set_stage "reconfigure" ;;;
       lift (subprocess_run env cmake_cmd build_dir) ;;;
       ret [CMAKE cfg; "--build"; "."; "--parallel"]) ;;
  set_stage "build" ;;;
  lift (subprocess_run env build_cmd build_dir) ;;;
  lift (log (MsgBuilt (lib_name l)
               (if Nat.ltb 1 (List.length configs) then Some config else None))
            Success) ;;;
  set_stage "cleanup install folder" ;;;
  loc <- get_locals ;;
  (if l_needToCleanupInstall loc then
     present <- lift (path_exists (install_dir l)) ;;
     (if present then lift (rmtree (install_dir l)) else ret tt) ;;;
     lift (mkdir_parents (install_dir l)) ;;;
     set_needToCleanupInstall false
   else ret tt) ;;;
  set_stage "install" ;;;
  if isMulti then
    lift (subprocess_run env [CMAKE cfg; "--install"; "."; "--config"; config] build_dir)
  else
    lift (subprocess_run env [CMAKE cfg; "--install"; "."] build_dir).

(** The [try] block.  The lock search gets as many rounds as it can
    need: one for [build], and one more than there are locks held
    elsewhere for the pairwise different [build-1], [build-2], ... *)
Definition cmake_try (l : Library) (build_dir : path) (extra_args : list string)
    (build_debug : bool) : Prog (locals * State) unit :=
  lock_loop l build_dir (S (S (List.length (locked_elsewhere env)))) ;;;
  set_stage "configure" ;;;
  let cmake_cmd :=
    [CMAKE cfg; "..";
     "-DCMAKE_INSTALL_PREFIX=" +:+ Path.to_str (install_dir l);
     "-DCMAKE_PREFIX_PATH=" +:+ Path.to_str (INSTALL_ROOT cfg)]
    ++ extra_args ++ CMAKE_GLOBAL_ARGS cfg in
  let configs := if build_debug then ["Release"; "Debug"] else ["Release"] in
  let cmake_cmd := if build_debug then cmake_cmd ++ ["-DCMAKE_DEBUG_POSTFIX=d"] else cmake_cmd in
  loc <- get_locals ;;
  lift (subprocess_run env cmake_cmd (l_build_dir loc)) ;;;
  isMulti <- lift (IsGeneratorMultiConfig (l_build_dir loc)) ;;
  set_needToCleanupInstall true ;;;
  for_each configs (build_config l configs isMulti).

(** Running a method body with its local variables. *)
Definition with_locals {Λ A} (init : Λ) (m : Prog (Λ * State) A) : M A :=
  fun s => let '(r, ls) := m (init, s) in (r, ls.2).

Definition CMake_BuildAndInstall (l : Library) (build_dir : path) (extra_args : list string)
    (build_debug : bool) : M unit :=
  log (MsgCompiling (lib_name l)) Info ;;;
  with_locals
    {| l_build_dir := Path.join (source_dir l) build_dir;
       l_n := 0;
       l_lock := false;
       l_stage := "acquire lock file";
       l_needToCleanupInstall := false |}
    (try_finally
       (try_except (cmake_try l build_dir extra_args build_debug)
          is_Exception
          (fun e =>
             loc <- get_locals ;;
             lift (log (MsgStageFailed (l_stage loc)) Error) ;;;
             raise e))
       (loc <- get_locals ;;
        (* [lock.close()] has no effect on what is modelled *)
        lift (rmtree (l_build_dir loc)))).

(** *** [ManualLibrary] *)

(** The body of [for full_path in to_copy]. *)
Definition copy_match (l : Library) (glob_root : path) (dst_subdir : string)
    (full_path : path) : M unit :=
  match Path.relative_to full_path glob_root with
  | None => log (MsgRelativePathFailed full_path) Warning
  | Some rel_path =>
      let target := Path.join (Path.join_str (install_dir l) dst_subdir) rel_path in
      f <- get_fs ;;
      if FS.is_dir f full_path then copytree full_path target
      else
        mkdir_parents_exist_ok (Path.parent target) ;;;
        copy2 full_path target
  end.

(** [exclude_matches]: empty unless an exclude pattern is given and the
    path [ex_root], the pattern taken as a name, exists. *)
Definition exclude_matches (l : Library) (f : fs) (pattern exclude_pattern : string)
    : list path :=
  let '(fixed_prefix, sub_pattern) := _SplitPattern pattern in
  if String.eqb exclude_pattern "" then []
  else
    let ex_root := Path.join_str (Path.join (source_dir l) fixed_prefix) exclude_pattern in
    if FS.exists_ f ex_root then remove_dups (Glob.glob f ex_root) else [].

(** The paths a rule copies: the set difference [matches -
    exclude_matches], listed in the order [glob] found them. *)
Definition to_copy (l : Library) (f : fs) (pattern exclude_pattern : string) : list path :=
  let '(fixed_prefix, sub_pattern) := _SplitPattern pattern in
  let glob_root := Path.join (source_dir l) fixed_prefix in
  let matches := remove_dups (Glob.glob f (Path.join_str glob_root sub_pattern)) in
  list_difference matches (exclude_matches l f pattern exclude_pattern).

(** The body of [for pattern, dst_subdir, exclude_pattern in self.rules]. *)
Definition apply_rule (l : Library) (rule : string * string * string) : M unit :=
  let '(pattern, dst_subdir, exclude_pattern) := rule in
  let '(fixed_prefix, sub_pattern) := _SplitPattern pattern in
  let glob_root := Path.join (source_dir l) fixed_prefix in
  f <- get_fs ;;
  if negb (FS.exists_ f glob_root) then
    log (MsgPatternBaseNotFound glob_root) Warning
  else if FS.is_file f glob_root then
    (if negb (String.eqb exclude_pattern "")
     then log (MsgExcludeNotNeeded exclude_pattern) Warning
     else ret tt) ;;;
    let target :=
      Path.join_str (Path.join_str (install_dir l) dst_subdir) (Path.name glob_root) in
    mkdir_parents_exist_ok (Path.parent target) ;;;
    copy2 glob_root target
  else
    for_each (to_copy l f pattern exclude_pattern) (copy_match l glob_root dst_subdir).

Definition Manual_BuildAndInstall (l : Library) (rules : list (string * string * string))
    : M unit :=
  for_each rules (apply_rule l).

(** *** The common lifecycle *)

Definition BuildAndInstall (l : Library) : M unit :=
  match kind l with
  | CMakeLibrary build_dir extra_args build_debug =>
      CMake_BuildAndInstall l build_dir extra_args build_debug
  | ManualLibrary rules => Manual_BuildAndInstall l rules
  end.

Definition InstallLibrary (l : Library) : M unit :=
  let hash_file := hash_file_of l in
  relevant <- IsHashRelevant l hash_file ;;
  if relevant then log (MsgUpToDate (lib_name l)) Info
  else
    present <- path_exists (install_dir l) ;;
    (if negb present then mkdir_parents (install_dir l) else ret tt) ;;;
    log (MsgInstalling (lib_name l)) Info ;;;
    BuildAndInstall l ;;;
    WriteHash l hash_file ;;;
    log (MsgInstalled (lib_name l)) Success.

(** *** The library loop of [main] *)

(** A library object is new when the loop reaches it: nothing memoised. *)
Definition fresh_object : M unit :=
  set_git_hash None ;;; set_build_hash None.

(** The body of [for library in libraries]. *)
Definition process_library (library : Library) : M unit :=
  fresh_object ;;;
  present <- path_exists (source_dir library) ;;
  if negb present then log (MsgSourceNotFound (source_dir library)) Warning
  else
    try_except (InstallLibrary library)
      is_Exception
      (fun e =>
         log (MsgProcessFailed (lib_name library) e) Error ;;;
         raise (SystemExit 1)).

(** [main] from the loop over the libraries on.  [Ok] is the normal end
    of the process (exit status 0), [Raise (SystemExit 1)] is
    [sys.exit(1)]. *)
Definition main_libraries (libraries : list Library) : M unit :=
  for_each libraries process_library ;;;
  match libraries with
  | [] => log MsgNothingToDo Info
  | _ => log MsgAllInstalled Success
  end.

End Program.

(** ** The command line

    [main] cuts [sys.argv[1:]] into the global arguments and one group
    of arguments per command, with [itertools.groupby] and the key
    function [groupargs]. *)

(** [COMMAND_NAMES]: the names of the commands [register_commands]
    lists. *)
Definition COMMAND_NAMES : list string :=
  ["add-cmake-lib"; "add-header-lib"; "add-manual-lib"].

(** The dictionary [state] of [groupargs]: a default argument, created
    once and shared by all calls. *)
Record GroupState := {
  g_cmd : option string;
  g_count : nat
}.

(** [groupargs]: the key of [arg], and the state it leaves. *)
Definition groupargs (arg : string) (known_commands : list string) (state : GroupState)
    : (nat * option string) * GroupState :=
  let state :=
    if bool_decide (arg ∈ known_commands) then
      {| g_cmd := Some arg; g_count := S (g_count state) |}
    else
      match g_cmd state with
      | None => {| g_cmd := Some "global"; g_count := 0 |}
      | Some _ => state
      end in
  ((g_count state, g_cmd state), state).

(** The elements with their keys: [itertools.groupby] calls the key
    function once for every element, in order. *)
Fixpoint keyed {A K Σ} (key : A -> Σ -> K * Σ) (l : list A) (state : Σ) : list (K * A) :=
  match l with
  | [] => []
  | a :: l' => let '(k, state') := key a state in (k, a) :: keyed key l' state'
  end.

(** [itertools.groupby]: the runs of elements with equal keys, each with
    its key. *)
Fixpoint groupby {K A} `{EqDecision K} (l : list (K * A)) : list (K * list A) :=
  match l with
  | [] => []
  | (k, a) :: l' =>
      match groupby l' with
      | (k', g) :: groups =>
          if decide (k = k') then (k, a :: g) :: groups else (k, [a]) :: (k', g) :: groups
      | [] => [(k, [a])]
      end
  end.

(** [command_groups] of [main], for the arguments [argv] after the name
    of the script. *)
Definition command_groups (argv : list string) : list ((nat * option string) * list string) :=
  groupby (keyed (fun arg => groupargs arg COMMAND_NAMES) argv
             {| g_cmd := None; g_count := 0 |}).

(** The global arguments, and the groups left for the loop over the
    commands: the first group is taken off when its key says
    ['global']. *)
Definition global_group_args (groups : list ((nat * option string) * list string))
    : list string * list ((nat * option string) * list string) :=
  match groups with
  | ((_, cmd), args_list) :: rest =>
      if bool_decide (cmd = Some "global") then (args_list, rest) else ([], groups)
  | [] => ([], [])
  end.

(** *** [ManualCommand._CreateLibrary]

    [rules] is what argparse leaves of the arguments of [add-manual-lib]
    after [--src] and [--install].  The parser of one rule is a
    parameter: [parse_rule args] is what [rule_parser.parse_args(args)]
    returns, the values of [--src], [--dst] and [--ex], or the exception
    it raises; argparse leaves by [SystemExit] when it rejects the
    arguments. *)

(** [[i for i, x in enumerate(rule_args_list) if x == 'rule']] *)
Definition rule_indices (rule_args_list : list string) : list nat :=
  (List.filter (fun ix => String.eqb ix.2 "rule") (imap pair rule_args_list)).*1.

(** [l[start:end_]], for indices counted from the start of the list. *)
Definition slice {A} (l : list A) (start end_ : nat) : list A :=
  take (end_ - start) (drop start l).

(** [rule_args] in round [i] of the loop. *)
Definition rule_args (rule_args_list : list string) (rule_indices : list nat) (i : nat)
    : list string :=
  let start := default 0 (rule_indices !! i) + 1 in
  let end_ := default (List.length rule_args_list) (rule_indices !! (i + 1)) in
  slice rule_args_list start end_.

(** The loop over the rules: an [Exception] of the parser becomes a
    [ValueError] that tells the arguments of the rule. *)
Fixpoint parse_rules (parse_rule : list string -> exn + (string * string * option string))
    (rules_args : list (list string)) : exn + list (string * string * string) :=
  match rules_args with
  | [] => inr []
  | rule_args :: rest =>
      match parse_rule rule_args with
      | inl e => inl (if is_Exception e then ValueError rule_args else e)
      | inr (src, dst, ex) =>
          match parse_rules parse_rule rest with
          | inl e => inl e
          | inr rules => inr ((src, dst, default "" ex) :: rules)
          end
      end
  end.

Definition Manual_CreateLibrary
    (parse_rule : list string -> exn + (string * string * option string))
    (src install : string) (rule_args_list : list string) : exn + Library :=
  let rule_indices := rule_indices rule_args_list in
  if bool_decide (rule_indices = []) || negb (bool_decide (head rule_args_list = Some "rule"))
  then inl (ValueError [])
  else
    match parse_rules parse_rule
            (rule_args rule_args_list rule_indices <$> seq 0 (List.length rule_indices)) with
    | inl e => inl e
    | inr rules =>
        inr {| source_dir_base := Path.parse src;
               install_dir_base := Path.parse install;
               kind := ManualLibrary rules |}
    end.

(** ** Sample inputs

    Concrete configurations, environments and file systems on which the
    program is run below. *)

Module Sample.

Definition config : Config :=
  {| SOURCES_ROOT := ["third_party"; "src"];
     INSTALL_ROOT := ["third_party"; "bin"];
     CACHE_ROOT := None;
     HEADER_SUBDIR := ["header-only"];
     CMAKE := "cmake";
     CMAKE_GLOBAL_ARGS := [] |}.

(** As [config], with [--cache-dir=caches]. *)
Definition config_cache : Config :=
  {| SOURCES_ROOT := ["third_party"; "src"];
     INSTALL_ROOT := ["third_party"; "bin"];
     CACHE_ROOT := Some ["caches"];
     HEADER_SUBDIR := ["header-only"];
     CMAKE := "cmake";
     CMAKE_GLOBAL_ARGS := [] |}.

Definition line (s : string) : string := s +:+ String Str.nl EmptyString.

(** git prints a revision, every subprocess succeeds and changes nothing,
    nobody else holds a lock; the digest is a stand-in that keeps its
    argument. *)
Definition env_ok : Env :=
  {| git_rev_parse := fun _ => Some (line "4f2a9c1");
     run_process := fun _ _ f => (true, f);
     locked_elsewhere := [];
     md5_hexdigest := fun s => "md5:" +:+ s |}.

(** As [env_ok], but git fails: the sources are not under version control. *)
Definition env_no_git : Env :=
  {| git_rev_parse := fun _ => None;
     run_process := fun _ _ f => (true, f);
     locked_elsewhere := [];
     md5_hexdigest := fun s => "md5:" +:+ s |}.

(** As [env_ok], but [cmake --install] fails. *)
Definition env_install_fails : Env :=
  {| git_rev_parse := fun _ => Some (line "4f2a9c1");
     run_process := fun cmd _ f =>
       (match cmd !! 1 with
        | Some arg => negb (String.eqb arg "--install")
        | None => true
        end, f);
     locked_elsewhere := [];
     md5_hexdigest := fun s => "md5:" +:+ s |}.


Definition start (f : fs) : State :=
  {| st_fs := f; st_events := []; git_hash := None; build_hash := None |}.

Definition src : path := ["third_party"; "src"].
Definition bin : path := ["third_party"; "bin"].

(** The Steamworks SDK of the usage example. *)
Definition steam_fs : fs :=
  list_to_map
    [(["third_party"], NDir);
     (src, NDir);
     (src ++ ["SteamworksSDK"], NDir);
     (src ++ ["SteamworksSDK"; "redistributable_bin"], NDir);
     (src ++ ["SteamworksSDK"; "redistributable_bin"; "steam_api.dll"], NFile "dll32");
     (src ++ ["SteamworksSDK"; "redistributable_bin"; "win64"], NDir);
     (src ++ ["SteamworksSDK"; "redistributable_bin"; "win64"; "steam_api64.dll"], NFile "dll64");
     (src ++ ["SteamworksSDK"; "redistributable_bin"; "win64"; "steam_api64.lib"], NFile "lib64");
     (src ++ ["SteamworksSDK"; "public"], NDir);
     (src ++ ["SteamworksSDK"; "public"; "steam"], NDir);
     (src ++ ["SteamworksSDK"; "public"; "steam"; "steam_api.h"], NFile "api");
     (src ++ ["SteamworksSDK"; "public"; "steam"; "lib"], NDir);
     (src ++ ["SteamworksSDK"; "public"; "steam"; "lib"; "sdkencryptedappticket.lib"], NFile "ticket")].

Definition steam_dlls : Library :=
  {| source_dir_base := ["SteamworksSDK"];
     install_dir_base := ["SteamworksSDK"];
     kind := ManualLibrary [("redistributable_bin/**/*.dll", "bin", "")] |}.

(** [rule --src=public/steam --dst=include --ex='*.h'] *)
Definition steam_dir : Library :=
  {| source_dir_base := ["SteamworksSDK"];
     install_dir_base := ["SteamworksSDK"];
     kind := ManualLibrary [("public/steam", "include", "*.h")] |}.

(** A library with the headers [a.h], [b.h] and [sub/c.h]. *)
Definition headers_fs : fs :=
  list_to_map
    [(["third_party"], NDir);
     (src, NDir);
     (src ++ ["lib"], NDir);
     (src ++ ["lib"; "a.h"], NFile "A");
     (src ++ ["lib"; "b.h"], NFile "B");
     (src ++ ["lib"; "sub"], NDir);
     (src ++ ["lib"; "sub"; "c.h"], NFile "C")].

Definition headers (exclude_pattern : string) : Library :=
  {| source_dir_base := ["lib"];
     install_dir_base := ["lib"];
     kind := ManualLibrary [("**/*.h", "include", exclude_pattern)] |}.

(** As [env_ok], but git fails in the directory [dir] only. *)
Definition env_no_git_in (dir : path) : Env :=
  {| git_rev_parse := fun d => if bool_decide (d = dir) then None else Some (line "4f2a9c1");
     run_process := fun _ _ f => (true, f);
     locked_elsewhere := [];
     md5_hexdigest := fun s => "md5:" +:+ s |}.

(** Both sample libraries side by side. *)
Definition both_fs : fs := headers_fs ∪ steam_fs.

(** The header library, installed earlier at revision [old]: the record
    [hash_lib.txt] and a file [stale.h] are in its install directory. *)
Definition installed_fs : fs :=
  list_to_map
    [(bin, NDir);
     (bin ++ ["lib"], NDir);
     (bin ++ ["lib"; "hash_lib.txt"], NFile (line "old"));
     (bin ++ ["lib"; "stale.h"], NFile "S")] ∪ headers_fs.

(** The header library with a directory where its record should be. *)
Definition record_is_dir_fs : fs :=
  list_to_map
    [(bin, NDir);
     (bin ++ ["lib"], NDir);
     (bin ++ ["lib"; "hash_lib.txt"], NDir)] ∪ headers_fs.

(** The install directory of the sample libraries. *)
Definition bin_lib : path := ["third_party"; "bin"; "lib"].

Definition cmake_lib (extra_args : list string) (build_debug : bool) : Library :=
  {| source_dir_base := ["lib"];
     install_dir_base := ["lib"];
     kind := CMakeLibrary ["build"] extra_args build_debug |}.

(** As [installed_fs], with the record of the earlier install in the cache
    directory [caches]. *)
Definition cached_fs : fs :=
  list_to_map
    [(["caches"], NDir);
     (["caches"; "lib"], NDir);
     (["caches"; "lib"; "hash_lib.txt"], NFile (line "old" +:+ line "md5:"))] ∪ installed_fs.

(** Two header-only libraries in directories of the same name:
    [a/include] with [x.h] and [b/include] with [y.h]. *)
Definition two_headers_fs : fs :=
  list_to_map
    [(["third_party"], NDir);
     (src, NDir);
     (src ++ ["a"], NDir);
     (src ++ ["a"; "include"], NDir);
     (src ++ ["a"; "include"; "x.h"], NFile "X");
     (src ++ ["b"], NDir);
     (src ++ ["b"; "include"], NDir);
     (src ++ ["b"; "include"; "y.h"], NFile "Y")].




End Sample.

(** * Specification vocabulary *)

(** ** Invariants of a run *)

(** [always I m]: a run of [m] that starts in a state satisfying [I] ends
    in one, whatever its outcome. *)
Definition always {Σ A} (I : Σ -> Prop) (m : Prog Σ A) : Prop :=
  forall s r s', I s -> m s = (r, s') -> I s'.

(** An invariant of the state, seen from a method with local variables. *)
Definition lifted {Λ} (I : State -> Prop) : Λ * State -> Prop := fun ls => I ls.2.

(** What an invariant has to survive: a new event, a change of the file
    system, a change of the memoised hashes. *)
Class EmitStable (I : State -> Prop) : Prop :=
  emit_stable : forall e, always I (emit e).

Class FsStable (I : State -> Prop) : Prop :=
  fs_stable : forall f, always I (set_fs f).

Class MemoStable (I : State -> Prop) : Prop :=
  memo_stable : (forall h, always I (set_git_hash h)) /\ (forall h, always I (set_build_hash h)).

(** The events so far stay: programs only append. *)
Definition emitted (E : list event) (s : State) : Prop := E `prefix_of` st_events s.

(** The memoised hashes stay. *)
Definition memo_is (g b : option string) (s : State) : Prop :=
  git_hash s = g /\ build_hash s = b.

(** The file system stays. *)
Definition fs_is (f : fs) (s : State) : Prop := st_fs s = f.

(** The events of [s'] extend those of [s]. *)
Definition events_grow (s s' : State) : Prop := st_events s `prefix_of` st_events s'.

(** [returns m]: a run of [m] has an outcome, a value or an exception. *)
Definition returns {Σ A} (m : Prog Σ A) : Prop := forall s, (m s).1 <> Diverge.

(** ** States and freshness records *)

(** What [ReadLineAt] returns, as a function of the file system. *)
Definition read_line_at (f : fs) (p : path) (n : nat) : result (option string) :=
  if FS.exists_ f p then
    match FS.read f p with
    | inl e => Raise e
    | inr c =>
        Ok (match n with
            | S i => Str.rstrip_nl <$> (Lines.readlines c !! i)
            | 0 => None
            end)
    end
  else Ok None.

(** Adding events to a state. *)
Definition with_events (s : State) (new : list event) : State :=
  {| st_fs := st_fs s; st_events := st_events s ++ new;
     git_hash := git_hash s; build_hash := build_hash s |}.

(** Setting [self.git_hash]. *)
Definition with_git_hash (s : State) (h : option string) : State :=
  {| st_fs := st_fs s; st_events := st_events s; git_hash := h; build_hash := build_hash s |}.

(** Setting [self.build_hash]. *)
Definition with_build_hash (s : State) (h : option string) : State :=
  {| st_fs := st_fs s; st_events := st_events s; git_hash := git_hash s; build_hash := h |}.

(** An object as [main] hands it to [InstallLibrary]: nothing memoised. *)
Definition fresh (s : State) : State := with_build_hash (with_git_hash s None) None.

(** A string that is one line: no line feed and no carriage return. *)
Definition single_line (t : string) : Prop :=
  Str.mem Str.nl t = false /\ Str.mem Str.cr t = false.

(** [t] as a line of a file. *)
Definition terminated (t : string) : string := t +:+ String Str.nl EmptyString.

(** The build identity of a library, if it has one. *)
Definition build_identity (env : Env) (l : Library) : option string :=
  match kind l with
  | CMakeLibrary _ extra_args _ => Some (md5_hexdigest env (Str.join "|" extra_args))
  | ManualLibrary _ => None
  end.

(** The record holds the identities of the library: line 1 is the
    revision git prints, and line 2, for a CMake library, the build
    identity. *)
Definition record_matches (cfg : Config) (env : Env) (l : Library) (f : fs) : Prop :=
  exists stdout,
    git_rev_parse env (source_dir cfg l) = Some stdout /\
    read_line_at f (hash_file_of cfg l) 1 = Ok (Some (Str.strip stdout)) /\
    forall h, build_identity env l = Some h ->
              read_line_at f (hash_file_of cfg l) 2 = Ok (Some h).

(** What is memoised is what git and the digest give. *)
Definition memo_ok (cfg : Config) (env : Env) (l : Library) (s : State) : Prop :=
  (forall h, git_hash s = Some h ->
     exists stdout, git_rev_parse env (source_dir cfg l) = Some stdout /\ h = Str.strip stdout) /\
  (forall h, build_hash s = Some h -> build_identity env l = Some h).

(** The statements of [InstallLibrary] before the call of
    [BuildAndInstall]; the value is the answer of the freshness check. *)
Definition before_build (cfg : Config) (env : Env) (l : Library) : M bool :=
  relevant <- IsHashRelevant cfg env l (hash_file_of cfg l) ;;
  if relevant then ret true
  else
    present <- path_exists (install_dir cfg l) ;;
    (if negb present then mkdir_parents (install_dir cfg l) else ret tt) ;;;
    log (MsgInstalling (lib_name l)) Info ;;;
    ret false.

(** The statements of [InstallLibrary] after the call. *)
Definition after_build (cfg : Config) (env : Env) (l : Library) : M unit :=
  WriteHash cfg env l (hash_file_of cfg l) ;;;
  log (MsgInstalled (lib_name l)) Success.

(** ** Build identities *)

(** An argument without the separator of [GetBuildHash]. *)
Definition no_bar (arg : string) : Prop := Str.mem "|" arg = false.

(** What [join] puts after the first element. *)
Definition join_tail (l : list string) : string :=
  match l with
  | [] => ""
  | _ => "|" +:+ Str.join "|" l
  end.

(** ** The install directory during a CMake build *)

(** [cmake --build ...] *)
Definition is_build_cmd (cmd : list string) : bool :=
  match cmd !! 1 with Some arg => String.eqb arg "--build" | None => false end.

(** [cmake --install ...] *)
Definition is_install_cmd (cmd : list string) : bool :=
  match cmd !! 1 with Some arg => String.eqb arg "--install" | None => false end.

(** [shutil.rmtree(install_dir)] *)
Definition wipes (inst : path) (e : event) : bool :=
  match e with Rmtree p => bool_decide (p = inst) | _ => false end.

(** [install_dir.mkdir(parents=True)] *)
Definition recreates (inst : path) (e : event) : bool :=
  match e with Mkdir p => bool_decide (p = inst) | _ => false end.

(** A build step that succeeded. *)
Definition builds (e : event) : bool :=
  match e with Exec cmd _ ok => is_build_cmd cmd && ok | _ => false end.

(** An install step, successful or not. *)
Definition installs (e : event) : bool :=
  match e with Exec cmd _ _ => is_install_cmd cmd | _ => false end.

(** Where a CMake build is, as far as the install directory goes. *)
Inductive phase :=
| NotBuilt   (* no build step has succeeded *)
| Built      (* a build step has succeeded, the install directory is as it was *)
| Wiped      (* the install directory has been removed *)
| Cleaned.   (* the install directory has been made anew *)

(** The monitor: the install directory is removed only in phase
    [Built], made only in phase [Built] or [Wiped], and an install step
    runs only in phase [Cleaned]; anything else is refused. *)
Definition step (inst : path) (ph : phase) (e : event) : option phase :=
  if installs e then match ph with Cleaned => Some Cleaned | _ => None end
  else if wipes inst e then match ph with Built => Some Wiped | _ => None end
  else if recreates inst e then match ph with Built | Wiped => Some Cleaned | _ => None end
  else if builds e then Some (match ph with NotBuilt => Built | _ => ph end)
  else Some ph.



(** How many events of [T] satisfy [f]. *)
Definition count (f : event -> bool) (T : list event) : nat :=
  List.length (List.filter f T).


(** The build directory the lock search tries after [n] failures:
    [build], [build-1], [build-2], ... *)
Definition candidate (cfg : Config) (l : Library) (build_dir : path) (n : nat) : path :=
  match n with
  | 0 => Path.join (source_dir cfg l) build_dir
  | S _ => Path.join_str (source_dir cfg l) (Path.to_str build_dir +:+ "-" +:+ str_of_nat n)
  end.





(** ** Kinds of events *)

(** A call of [git rev-parse]. *)
Definition is_git (e : event) : bool :=
  match e with GitRevParse _ => true | _ => false end.

Definition notgit (e : event) : bool := negb (is_git e).

(** What a manual install does: it logs, makes directories and copies. *)
Definition is_copying (e : event) : bool :=
  match e with
  | Log _ _ | Mkdir _ | Copy2 _ _ | CopyTree _ _ => true
  | _ => false
  end.

(** Since [E], only events of the kind [P]. *)
Definition only (P : event -> bool) (E : list event) (s : State) : Prop :=
  exists T, st_events s = E ++ T /\ Forall (fun e => P e = true) T.

(** An invariant that survives the events of the kind [P]. *)
Class EmitStableOn (P : event -> bool) (I : State -> Prop) : Prop :=
  emit_stable_on : forall e, P e = true -> always I (emit e).

(** The entry at [p] is [n]. *)
Definition entry_is (p : path) (n : node) (s : State) : Prop := st_fs s !! p = Some n.

(** Since [E], git was asked at most once, and if it was, its answer is
    memoised. *)
Definition git_once (E : list event) (s : State) : Prop :=
  exists T, st_events s = E ++ T /\ count is_git T <= 1 /\
            (count is_git T = 1 -> git_hash s <> None).

(** A directory or a file. *)
Definition is_dir_node (n : node) : bool :=
  match n with NDir => true | NFile _ => false end.

(** At [p] there is a directory ([d] true) or a file ([d] false). *)
Definition kind_at (p : path) (d : bool) (s : State) : Prop :=
  exists n, st_fs s !! p = Some n /\ is_dir_node n = d.

(** What is in [f] is in [f'], a directory as a directory and a file as
    a file. *)
Definition keeps_kinds (f f' : fs) : Prop :=
  forall p n, f !! p = Some n -> exists n', f' !! p = Some n' /\ is_dir_node n' = is_dir_node n.

(** An invariant of the state together with a fact about the local
    variables of a method. *)
Definition paired {Λ} (L : Λ -> Prop) (I : State -> Prop) : Λ * State -> Prop :=
  fun ls => L ls.1 /\ I ls.2.

(** The build directory in use is one of the candidates of the lock
    search. *)
Definition in_candidate (cfg : Config) (l : Library) (build_dir : path) (loc : locals) : Prop :=
  exists k, l_build_dir loc = candidate cfg l build_dir k.

(** The outcome of a run that a failed subprocess, git or cmake, ended. *)
Definition process_failed {A} (r : result A) : Prop :=
  exists cmd, r = Raise (CalledProcessError cmd).

(** A subprocess. *)
Definition is_exec (e : event) : bool :=
  match e with Exec _ _ _ => true | _ => false end.

(** Subprocesses run in [d], and only when [allowed]. *)
Definition runs_in (d : path) (allowed : bool) (e : event) : bool :=
  match e with
  | Exec _ cwd _ => allowed && bool_decide (cwd = d)
  | _ => true
  end.

(** Where the search for a build directory stands: the directory in use
    is the candidate the counter [n] tells, the lock files of the
    candidates before it are held elsewhere, its own is not if the lock
    was obtained, and since [E] subprocesses have run in it only, and
    only with the lock. *)
Definition lock_search (cfg : Config) (env : Env) (l : Library) (build_dir : path)
    (E : list event) (ls : locals * State) : Prop :=
  l_build_dir ls.1 = candidate cfg l build_dir (l_n ls.1) /\
  (forall j, j < l_n ls.1 ->
     Path.join_str (candidate cfg l build_dir j) ".lock" ∈ locked_elsewhere env) /\
  (l_lock ls.1 = true ->
     Path.join_str (l_build_dir ls.1) ".lock" ∉ locked_elsewhere env) /\
  only (runs_in (l_build_dir ls.1) (l_lock ls.1)) E ls.2.

(** A line of [CMakeCache.txt] that names the generator. *)
Definition generator_line (line : string) : bool :=
  Str.startswith "CMAKE_GENERATOR:" line.

(** A generator that builds several configurations in one build tree. *)
Definition is_multi (generator : string) : bool :=
  Str.startswith "Visual Studio" generator
  || bool_decide (generator ∈ multi_config_generators).

(** The lines of the file at [p]; none when it cannot be read. *)
Definition lines_of (f : fs) (p : path) : list string :=
  match FS.read f p with
  | inr c => Lines.readlines c
  | inl _ => []
  end.

(** A line with its line feed. *)
Definition ends_line (x : string) : Prop := exists u, x = terminated u.

(** An argument that is the name of a command. *)
Definition is_command (arg : string) : Prop := arg ∈ COMMAND_NAMES.

(** A group of the loop over the commands as it should be: the name of a
    command, which is the name in the key, and then arguments that are
    not names of commands. *)
Definition command_line (group : (nat * option string) * list string) : Prop :=
  exists name rest,
    group.2 = name :: rest /\ group.1.2 = Some name /\
    is_command name /\ Forall (fun arg => ~ is_command arg) rest.

(** The positions of ['rule'] in a list that starts at position [k]. *)
Definition rule_indices_from (k : nat) (l : list string) : list nat :=
  (List.filter (fun ix => String.eqb ix.2 "rule") (imap (fun i x => (k + i, x)) l)).*1.

(** The pairs of an index and the one after it; the last with [len]. *)
Definition consecutive (idx : list nat) (len : nat) : list (nat * nat) :=
  zip idx (tail idx ++ [len]).

(** ** Paths without [..]

    The file system is looked up part by part, and a part [..] is a name
    like any other, as it is for [pathlib], which does not resolve it; the
    operating system does.  For two paths without such a part that are both
    relative or both absolute from the same root, one is at or below the
    other exactly when its parts begin with the parts of the other. *)
Definition plain (p : path) : Prop := Forall (fun part => part <> "..") p.

(** [p.root]: the root of an absolute path. *)
Definition root (p : path) : option string :=
  match p with
  | r :: _ => if Path.is_root r then Some r else None
  | [] => None
  end.

(** Two paths whose parts tell where one is with respect to the other:
    both without [..], and both relative or both absolute from the same
    root. *)
Definition comparable (p q : path) : Prop :=
  plain p /\ plain q /\ root p = root q.


(** The copies among the events [T] do not go to [p] or to a directory
    that [p] is in. *)
Definition copies_clear_of (p : path) (T : list event) : Prop :=
  forall src dst,
    Copy2 src dst ∈ T \/ CopyTree src dst ∈ T ->
    comparable dst p /\ ~ dst `prefix_of` p.

(** What a failed build may have made of the entry [o] at a path: nothing,
    or it is gone, or a directory, or an empty file. *)
Definition disused (o o' : option node) : Prop :=
  o' = o \/ o' = None \/ o' = Some NDir \/ o' = Some (NFile "").

(** Since the events [E], and as long as no copy went to [p], the entry
    at [p] is what a failed build may have made of [o]. *)
Definition disused_since (p : path) (o : option node) (E : list event) (s : State) : Prop :=
  exists T, st_events s = E ++ T /\
            (copies_clear_of p T -> disused o (st_fs s !! p)).


(** * Properties *)

(** ** Invariants of programs

    [always I m]: a run of [m] that starts in a state satisfying [I] ends
    in one, whatever its outcome. *)

Section Always.

Context {Σ : Type} (I : Σ -> Prop).

Lemma always_ret {A} (a : A) : always I (ret a).
Proof. intros s r s' HI [= <- <-]. exact HI. Qed.

Lemma always_raise {A} (e : exn) : always I (@raise Σ A e).
Proof. intros s r s' HI [= <- <-]. exact HI. Qed.

Lemma always_get_state : always I (@get_state Σ).
Proof. intros s r s' HI [= <- <-]. exact HI. Qed.

Lemma always_bind {A B} (m : Prog Σ A) (k : A -> Prog Σ B) :
  always I m -> (forall a, always I (k a)) -> always I (bind m k).
Proof.
  intros Hm Hk s r s' HI. unfold bind.
  destruct (m s) as [[a|e|] s1] eqn:E; intros H.
  - eapply Hk; [eapply Hm; eauto | exact H].
  - injection H as <- <-. eapply Hm; eauto.
  - injection H as <- <-. eapply Hm; eauto.
Qed.

Lemma always_try_except {A} (m : Prog Σ A) handles (handler : exn -> Prog Σ A) :
  always I m -> (forall e, always I (handler e)) -> always I (try_except m handles handler).
Proof.
  intros Hm Hh s r s' HI. unfold try_except.
  destruct (m s) as [[a|e|] s1] eqn:E; intros H.
  - injection H as <- <-. eapply Hm; eauto.
  - destruct (handles e).
    + eapply Hh; [eapply Hm; eauto | exact H].
    + injection H as <- <-. eapply Hm; eauto.
  - injection H as <- <-. eapply Hm; eauto.
Qed.

Lemma always_try_finally {A} (m : Prog Σ A) (cleanup : Prog Σ unit) :
  always I m -> always I cleanup -> always I (try_finally m cleanup).
Proof.
  intros Hm Hc s r s' HI. unfold try_finally.
  destruct (m s) as [r1 s1] eqn:E.
  assert (I s1) as HI1 by (eapply Hm; eauto).
  destruct r1 as [a|e|].
  - destruct (cleanup s1) as [[[]|e'|] s2] eqn:E2; intros [= <- <-]; eapply Hc; eauto.
  - destruct (cleanup s1) as [[[]|e'|] s2] eqn:E2; intros [= <- <-]; eapply Hc; eauto.
  - intros [= <- <-]. exact HI1.
Qed.

Lemma always_for_each {A} (l : list A) (body : A -> Prog Σ unit) :
  (forall x, always I (body x)) -> always I (for_each l body).
Proof.
  intros Hb. induction l as [|x l IH]; simpl.
  - apply always_ret.
  - apply always_bind; [apply Hb | intros _; exact IH].
Qed.

End Always.

Lemma always_lift {Λ A} (I : State -> Prop) (m : M A) :
  always I m -> always (@lifted Λ I) (lift m).
Proof.
  intros Hm [loc s] r [loc' s'] HI. unfold lift, lifted in *. simpl in *.
  destruct (m s) as [r1 s1] eqn:E. intros [= <- <- <-]. eapply Hm; eauto.
Qed.

Lemma always_get_locals {Λ} (I : Λ * State -> Prop) : always I (@get_locals Λ).
Proof. intros s r s' HI [= <- <-]. exact HI. Qed.

Lemma always_set_locals {Λ} (I : State -> Prop) (upd : Λ -> Λ) :
  always (lifted I) (set_locals upd).
Proof. intros [loc s] r [loc' s'] HI [= <- <- <-]. exact HI. Qed.

Lemma always_with_locals {Λ A} (I : State -> Prop) (init : Λ) (m : Prog (Λ * State) A) :
  always (lifted I) m -> always I (with_locals init m).
Proof.
  intros Hm s r s' HI. unfold with_locals.
  destruct (m (init, s)) as [r1 [loc1 s1]] eqn:E. intros [= <- <-].
  apply (Hm (init, s) r1 (loc1, s1) HI E).
Qed.

#[global] Instance emitted_emit E : EmitStable (emitted E).
Proof.
  intros e s r s' HI [= <- <-]. unfold emitted in *. simpl.
  by apply prefix_app_r.
Qed.

#[global] Instance emitted_fs E : FsStable (emitted E).
Proof. intros f s r s' HI [= <- <-]. exact HI. Qed.

#[global] Instance emitted_memo E : MemoStable (emitted E).
Proof. split; intros h s r s' HI [= <- <-]; exact HI. Qed.

#[global] Instance memo_is_emit g b : EmitStable (memo_is g b).
Proof. intros e s r s' HI [= <- <-]. exact HI. Qed.

#[global] Instance memo_is_fs g b : FsStable (memo_is g b).
Proof. intros f s r s' HI [= <- <-]. exact HI. Qed.

#[global] Instance fs_is_emit f : EmitStable (fs_is f).
Proof. intros e s r s' HI [= <- <-]. exact HI. Qed.

#[global] Instance fs_is_memo f : MemoStable (fs_is f).
Proof. split; intros h s r s' HI [= <- <-]; exact HI. Qed.

Ltac always_step :=
  lazymatch goal with
  | |- always _ (bind _ _) => apply always_bind; [|intros ?]
  | |- always _ (ret _) => apply always_ret
  | |- always _ (raise _) => apply always_raise
  | |- always _ get_state => apply always_get_state
  | |- always _ get_locals => apply always_get_locals
  | |- always _ (set_locals _) => apply always_set_locals
  | |- always _ (set_stage _) => apply always_set_locals
  | |- always _ (set_lock _) => apply always_set_locals
  | |- always _ (set_build_dir _ _) => apply always_set_locals
  | |- always _ (set_needToCleanupInstall _) => apply always_set_locals
  | |- always _ (try_except _ _ _) => apply always_try_except; [|intros ?]
  | |- always _ (try_finally _ _) => apply always_try_finally
  | |- always _ (for_each _ _) => apply always_for_each; intros ?
  | |- always _ (lift _) => apply always_lift
  | |- always _ (with_locals _ _) => apply always_with_locals
  | |- always _ (emit _) => apply emit_stable
  | |- always _ (set_fs _) => apply fs_stable
  | |- always _ (set_git_hash _) => apply memo_stable
  | |- always _ (set_build_hash _) => apply memo_stable
  | |- always _ (match ?x with _ => _ end) => destruct x
  end.

Ltac always_auto := repeat always_step; eauto with always typeclass_instances.

Create HintDb always.

Section Stable.

Context (I : State -> Prop).

Lemma always_get_fs : always I get_fs.
Proof. intros s r s' HI [= <- <-]. exact HI. Qed.

Lemma always_log `{!EmitStable I} msg ty : always I (log msg ty).
Proof. apply emit_stable. Qed.

Lemma always_path_exists p : always I (path_exists p).
Proof. unfold path_exists. always_auto. apply always_get_fs. Qed.

Lemma always_read_file p : always I (read_file p).
Proof. unfold read_file. always_auto. apply always_get_fs. Qed.

Lemma always_fs_op `{!FsStable I} op : always I (fs_op op).
Proof. unfold fs_op. always_auto. apply always_get_fs. Qed.

End Stable.

#[export] Hint Resolve always_get_fs always_log always_path_exists always_read_file
  always_fs_op : always.

Section StableOps.

Context (I : State -> Prop) `{!EmitStable I, !FsStable I}.

Lemma always_mkdir_parents_exist_ok p : always I (mkdir_parents_exist_ok p).
Proof. unfold mkdir_parents_exist_ok. always_auto. Qed.

Lemma always_mkdir_parents p : always I (mkdir_parents p).
Proof. unfold mkdir_parents. always_auto. Qed.

Lemma always_rmtree p : always I (rmtree p).
Proof. unfold rmtree. always_auto. Qed.

Lemma always_unlink p : always I (unlink p).
Proof. unfold unlink. always_auto. Qed.

Lemma always_copy2 src dst : always I (copy2 src dst).
Proof. unfold copy2. always_auto. Qed.

Lemma always_copytree src dst : always I (copytree src dst).
Proof. unfold copytree. always_auto. Qed.

Lemma always_write_file p c : always I (write_file p c).
Proof. unfold write_file. always_auto. Qed.

Hint Resolve always_mkdir_parents_exist_ok always_mkdir_parents always_rmtree always_unlink
  always_copy2 always_copytree always_write_file : always.

Lemma always_WriteLineAt p n text : always I (WriteLineAt p n text).
Proof. unfold WriteLineAt. always_auto. Qed.

Lemma always_ReadLineAt p n : always I (ReadLineAt p n).
Proof. unfold ReadLineAt. always_auto. Qed.

Lemma always_subprocess_run env cmd cwd : always I (subprocess_run env cmd cwd).
Proof. unfold subprocess_run. always_auto. Qed.

Hint Resolve always_WriteLineAt always_ReadLineAt always_subprocess_run : always.

Variable cfg : Config.
Variable env : Env.

Lemma always_AcquireLock lock_file : always I (_AcquireLock env lock_file).
Proof. unfold _AcquireLock. always_auto. Qed.

Lemma always_IsGeneratorMultiConfig d : always I (IsGeneratorMultiConfig d).
Proof. unfold IsGeneratorMultiConfig. always_auto. Qed.

Lemma always_purge_item d name : always I (purge_item d name).
Proof. unfold purge_item. always_auto. Qed.

Lemma always_iterdir d : always I (iterdir d).
Proof. unfold iterdir. always_auto. Qed.

Hint Resolve always_AcquireLock always_IsGeneratorMultiConfig always_purge_item
  always_iterdir : always.

Lemma always_lock_loop l build_dir fuel :
  always (lifted I) (lock_loop cfg env l build_dir fuel).
Proof.
  induction fuel as [|fuel IH]; simpl.
  - intros s r s' HI [= <- <-]. exact HI.
  - always_auto.
Qed.

Lemma always_build_config l configs isMulti config :
  always (lifted I) (build_config cfg env l configs isMulti config).
Proof. unfold build_config. always_auto. Qed.

Hint Resolve always_lock_loop always_build_config : always.

Lemma always_cmake_try l build_dir extra_args build_debug :
  always (lifted I) (cmake_try cfg env l build_dir extra_args build_debug).
Proof. unfold cmake_try. always_auto. Qed.

Hint Resolve always_cmake_try : always.

Lemma always_CMake_BuildAndInstall l build_dir extra_args build_debug :
  always I (CMake_BuildAndInstall cfg env l build_dir extra_args build_debug).
Proof. unfold CMake_BuildAndInstall. always_auto. Qed.

Lemma always_copy_match l glob_root dst_subdir full_path :
  always I (copy_match cfg l glob_root dst_subdir full_path).
Proof. unfold copy_match. always_auto. Qed.

Hint Resolve always_copy_match : always.

Lemma always_apply_rule l rule : always I (apply_rule cfg l rule).
Proof. unfold apply_rule. always_auto. Qed.

Hint Resolve always_apply_rule always_CMake_BuildAndInstall : always.

Lemma always_Manual_BuildAndInstall l rules : always I (Manual_BuildAndInstall cfg l rules).
Proof. unfold Manual_BuildAndInstall. always_auto. Qed.

Hint Resolve always_Manual_BuildAndInstall : always.

Lemma always_BuildAndInstall l : always I (BuildAndInstall cfg env l).
Proof. unfold BuildAndInstall. always_auto. Qed.

Context `{!MemoStable I}.

Lemma always_GetGitHash l : always I (GetGitHash cfg env l).
Proof. unfold GetGitHash. always_auto. Qed.

Lemma always_GetBuildHash extra_args : always I (GetBuildHash env extra_args).
Proof. unfold GetBuildHash. always_auto. Qed.

Hint Resolve always_GetGitHash always_GetBuildHash always_BuildAndInstall : always.

Lemma always_IsHashRelevant l hash_file : always I (IsHashRelevant cfg env l hash_file).
Proof.
  unfold IsHashRelevant, base_IsHashRelevant, CheckGitHash, CheckBuildHash. always_auto.
Qed.

Lemma always_WriteHash l hash_file : always I (WriteHash cfg env l hash_file).
Proof. unfold WriteHash, base_WriteHash. always_auto. Qed.

Hint Resolve always_IsHashRelevant always_WriteHash : always.

Lemma always_InstallLibrary l : always I (InstallLibrary cfg env l).
Proof. unfold InstallLibrary. always_auto. Qed.

Hint Resolve always_InstallLibrary : always.

Lemma always_process_library l : always I (process_library cfg env l).
Proof. unfold process_library, fresh_object. always_auto. Qed.

Hint Resolve always_process_library : always.

Lemma always_main_libraries libs : always I (main_libraries cfg env libs).
Proof. unfold main_libraries. always_auto. Qed.

End StableOps.

#[export] Hint Resolve always_mkdir_parents_exist_ok always_mkdir_parents always_rmtree
  always_unlink always_copy2 always_copytree always_write_file always_WriteLineAt
  always_ReadLineAt always_subprocess_run always_AcquireLock always_IsGeneratorMultiConfig
  always_purge_item always_iterdir always_lock_loop always_build_config always_cmake_try
  always_CMake_BuildAndInstall always_copy_match always_apply_rule
  always_Manual_BuildAndInstall always_BuildAndInstall always_GetGitHash always_GetBuildHash
  always_IsHashRelevant always_WriteHash always_InstallLibrary always_process_library
  always_main_libraries : always.

(** A run is the pair of its outcome and its final state. *)
Lemma run_eq {Σ A} (x : result A * Σ) (r : result A) : x.1 = r -> x = (r, x.2).
Proof. destruct x. simpl. by intros ->. Qed.

(** ** Loops *)

(** A loop that ends normally ran its body, normally, on every element;
    [R] is any preorder on states along which the body moves. *)
Lemma for_each_Ok_inv {Σ A} (R : Σ -> Σ -> Prop) `{!PreOrder R}
    (l : list A) (body : A -> Prog Σ unit) :
  (forall y s r s', body y s = (r, s') -> R s s') ->
  forall s s' x,
    for_each l body s = (Ok tt, s') -> x ∈ l ->
    exists s1 s2, R s s1 /\ body x s1 = (Ok tt, s2) /\ R s2 s'.
Proof.
  intros Hbody. induction l as [|y l IH]; intros s s' x Hrun Hx.
  - by apply elem_of_nil in Hx.
  - simpl in Hrun. unfold bind in Hrun.
    destruct (body y s) as [[[]|e|] s1] eqn:E; try discriminate.
    assert (R s1 s') as Hrest.
    { clear -Hbody Hrun PreOrder0. revert s1 Hrun.
      induction l as [|z l IHl]; intros s1 Hrun; simpl in Hrun.
      - injection Hrun as <-. reflexivity.
      - unfold bind in Hrun. destruct (body z s1) as [[[]|e|] s2] eqn:E2; try discriminate.
        etrans; [eapply Hbody; eauto | eauto]. }
    apply elem_of_cons in Hx as [->|Hx].
    + exists s, s1. split; [reflexivity | split; [exact E | exact Hrest]].
    + destruct (IH s1 s' x Hrun Hx) as (s2 & s3 & H1 & H2 & H3).
      exists s2, s3. split; [|split; auto].
      etrans; [eapply Hbody; eauto | exact H1].
Qed.

#[global] Instance events_grow_preorder : PreOrder events_grow.
Proof.
  split.
  - intros s. unfold events_grow. reflexivity.
  - intros s1 s2 s3. unfold events_grow. apply transitivity.
Qed.

Lemma always_events_grow {A} (m : M A) :
  (forall E, always (emitted E) m) -> forall s r s', m s = (r, s') -> events_grow s s'.
Proof. intros H s r s' Hrun. apply (H (st_events s) s r s'); [unfold emitted; reflexivity | exact Hrun]. Qed.

Lemma emitted_elem E e s : emitted E s -> e ∈ E -> e ∈ st_events s.
Proof. intros [k ->] He. apply elem_of_app. by left. Qed.

(** ** Pattern splitting *)

Lemma split_parts_spec seen rest :
  exists pre post,
    rest = pre ++ post /\
    (split_parts seen rest).1 = seen ++ pre /\
    Forall (fun part => has_wildcard part = false) pre /\
    match post with [] => True | part :: _ => has_wildcard part = true end /\
    (split_parts seen rest).2 = Str.join "/" post.
Proof.
  revert seen. induction rest as [|part rest IH]; intros seen.
  - exists [], []. simpl. by rewrite app_nil_r.
  - simpl. destruct (has_wildcard part) eqn:W.
    + exists [], (part :: rest). simpl. by rewrite app_nil_r, W.
    + destruct (IH (seen ++ [part])) as (pre & post & -> & Hfix & Hall & Hpost & Hsub).
      exists (part :: pre), post. rewrite <- app_assoc in Hfix. simpl in *.
      repeat split; auto.
Qed.

(** ** What a copy puts where *)

Lemma makedirs_from_lookup f above below f' k :
  FS.makedirs_from f above below = inr f' ->
  f' !! k = f !! k \/ (f !! k = None /\ f' !! k = Some NDir).
Proof.
  revert f above. induction below as [|x below IH]; intros f above; simpl.
  - intros [= <-]. by left.
  - destruct (FS.lookup f (above ++ [x])) as [[|c]|] eqn:L.
    + apply IH.
    + discriminate.
    + intros H. destruct (IH _ _ H) as [Hk|[Hk1 Hk2]].
      * destruct (decide (above ++ [x] = k)) as [<-|Hne].
        -- right. rewrite Hk, lookup_insert_eq. split; [|done].
           unfold FS.lookup in L. by destruct (FS.is_anchor (above ++ [x])).
        -- left. by rewrite Hk, lookup_insert_ne.
      * destruct (decide (above ++ [x] = k)) as [<-|Hne].
        -- by rewrite lookup_insert_eq in Hk1.
        -- right. by rewrite lookup_insert_ne in Hk1.
Qed.

Lemma makedirs_keeps f p f' k n :
  FS.makedirs f p = inr f' -> f !! k = Some n -> f' !! k = Some n.
Proof.
  intros H Hk. destruct (makedirs_from_lookup _ _ _ _ k H) as [->|[Hn _]]; congruence.
Qed.

Lemma lookup_keeps f f' k n :
  (forall m, f !! k = Some m -> f' !! k = Some m) ->
  FS.lookup f k = Some n -> FS.lookup f' k = Some n.
Proof. unfold FS.lookup. destruct (FS.is_anchor k); auto. Qed.

Lemma emit_then {A} e (m : M A) s r s' :
  (forall E, always (emitted E) m) ->
  (emit e ;;; m) s = (r, s') -> e ∈ st_events s'.
Proof.
  intros Hm. unfold bind, emit. intros Hrun.
  eapply (emitted_elem (st_events s ++ [e])); [|apply elem_of_app; right; by apply list_elem_of_singleton].
  eapply Hm; [|exact Hrun]. unfold emitted. simpl. reflexivity.
Qed.

(** A match that is processed normally was handed to [copy2] or to
    [copytree], with the install directory, the destination
    sub-directory and the match's path below the fixed prefix as
    destination. *)
Lemma copy_match_event cfg l glob_root dst_subdir full_path rel s s' :
  Path.relative_to full_path glob_root = Some rel ->
  copy_match cfg l glob_root dst_subdir full_path s = (Ok tt, s') ->
  let target := Path.join (Path.join_str (install_dir cfg l) dst_subdir) rel in
  Copy2 full_path target ∈ st_events s' \/ CopyTree full_path target ∈ st_events s'.
Proof.
  intros Hrel. unfold copy_match. rewrite Hrel. unfold bind at 1. unfold get_fs.
  destruct (FS.is_dir (st_fs s) full_path); intros Hrun.
  - right. unfold copytree in Hrun. eapply emit_then; [|exact Hrun].
    intros E. always_auto.
  - left. unfold bind at 1 in Hrun.
    destruct (mkdir_parents_exist_ok _ s) as [[[]|e|] s1] eqn:E1; try discriminate.
    unfold copy2 in Hrun. eapply emit_then; [|exact Hrun].
    intros E. always_auto.
Qed.

(** A directory made by [makedirs] lies on the way to its argument. *)
Lemma makedirs_from_new f above below f' k :
  FS.makedirs_from f above below = inr f' -> f !! k = None -> f' !! k = Some NDir ->
  exists pre, k = above ++ pre /\ pre `prefix_of` below /\ pre <> [].
Proof.
  revert f above. induction below as [|x below IH]; intros f above; simpl.
  - intros [= <-] Ha Hb. congruence.
  - destruct (FS.lookup f (above ++ [x])) as [[|c']|] eqn:L; [| discriminate |].
    + intros Hm Ha Hb. destruct (IH _ _ Hm Ha Hb) as (pre & -> & Hp & Hne).
      exists (x :: pre). rewrite <- app_assoc. simpl. split; [done|].
      split; [by apply prefix_cons|done].
    + intros Hm Ha Hb. destruct (decide (above ++ [x] = k)) as [<-|Hk].
      * exists [x]. split; [done|]. split; [|done].
        apply (prefix_cons x [] below), prefix_nil.
      * assert ((<[above ++ [x] := NDir]> f) !! k = None) as Ha'
          by by rewrite lookup_insert_ne.
        destruct (IH _ _ Hm Ha' Hb) as (pre & -> & Hp & Hne).
        exists (x :: pre). rewrite <- app_assoc. simpl. split; [done|].
        split; [by apply prefix_cons|done].
Qed.

Lemma length_removelast {A} (l : list A) :
  List.length (removelast l) = List.length l - 1.
Proof.
  induction l as [|x [|y l] IH]; [done..|].
  change (removelast (x :: y :: l)) with (x :: removelast (y :: l)).
  simpl in *. rewrite IH. lia.
Qed.

Lemma parent_shorter p :
  FS.is_anchor p = false -> List.length (Path.parent p) < List.length p.
Proof.
  destruct p as [|a [|b t]]; simpl; [done| |].
  - intros ->. simpl. lia.
  - intros _. change (List.length (removelast (a :: b :: t)) < S (S (List.length t))).
    rewrite length_removelast. simpl. lia.
Qed.

(** [makedirs] of the parent leaves what is at [p], or not there, alone. *)
Lemma makedirs_parent_lookup f p f' :
  FS.makedirs f (Path.parent p) = inr f' -> FS.lookup f' p = FS.lookup f p.
Proof.
  intros H. unfold FS.lookup. destruct (FS.is_anchor p) eqn:Anc; [done|].
  destruct (makedirs_from_lookup _ _ _ _ p H) as [->|[H1 H2]]; [done|].
  exfalso. destruct (makedirs_from_new _ _ _ _ _ H H1 H2) as (pre & Hk & Hp & _).
  simpl in Hk. subst pre. apply prefix_length in Hp.
  pose proof (parent_shorter p Anc). lia.
Qed.

(** A file that [copy_match] copies normally is at its destination
    afterwards, unless the destination was a directory. *)
Lemma copy_match_file cfg l glob_root dst_subdir full_path rel c s s' :
  Path.relative_to full_path glob_root = Some rel ->
  FS.lookup (st_fs s) full_path = Some (NFile c) ->
  let target := Path.join (Path.join_str (install_dir cfg l) dst_subdir) rel in
  FS.is_dir (st_fs s) target = false ->
  copy_match cfg l glob_root dst_subdir full_path s = (Ok tt, s') ->
  st_fs s' !! target = Some (NFile c).
Proof.
  intros Hrel Hfile target Hnd. unfold copy_match. rewrite Hrel. fold target.
  unfold bind at 1. unfold get_fs.
  assert (FS.is_dir (st_fs s) full_path = false) as -> by (unfold FS.is_dir; by rewrite Hfile).
  unfold mkdir_parents_exist_ok, copy2, fs_op, bind, emit, get_fs, set_fs. simpl.
  destruct (FS.makedirs (st_fs s) (Path.parent target)) as [e|f1] eqn:E1; [discriminate|].
  simpl.
  assert (FS.is_dir f1 target = false) as Hnd1.
  { unfold FS.is_dir in *. by rewrite (makedirs_parent_lookup _ _ _ E1). }
  unfold FS.copy2. rewrite Hnd1.
  assert (FS.read f1 full_path = inr c) as ->.
  { unfold FS.read. rewrite (lookup_keeps (st_fs s) f1 full_path (NFile c)); [done| |exact Hfile].
    intros m Hm. eapply makedirs_keeps; eauto. }
  unfold FS.write.
  destruct (FS.lookup f1 target) as [[|c0]|] eqn:L.
  - unfold FS.is_dir in Hnd1. by rewrite L in Hnd1.
  - simpl. intros [= <-]. simpl. apply lookup_insert_eq.
  - destruct (FS.parent_error f1 target); [discriminate|].
    simpl. intros [= <-]. simpl. apply lookup_insert_eq.
Qed.

Lemma apply_rule_glob cfg l pattern dst_subdir exclude_pattern s :
  let glob_root := Path.join (source_dir cfg l) (_SplitPattern pattern).1 in
  FS.is_dir (st_fs s) glob_root = true ->
  apply_rule cfg l (pattern, dst_subdir, exclude_pattern) s =
  for_each (to_copy cfg l (st_fs s) pattern exclude_pattern)
    (copy_match cfg l glob_root dst_subdir) s.
Proof.
  intros glob_root Hdir. unfold apply_rule, to_copy. subst glob_root.
  destruct (_SplitPattern pattern) as [fixed sub]. simpl in *.
  unfold bind at 1. unfold get_fs.
  unfold FS.is_dir in Hdir. unfold FS.exists_, FS.is_file.
  destruct (FS.lookup (st_fs s) (Path.join (source_dir cfg l) fixed)) as [[|c]|];
    try discriminate.
  reflexivity.
Qed.

(** C8: [_SplitPattern] cuts the parts of the pattern before the first
    part that has a wildcard character: the fixed prefix is the longest
    leading run of parts without one, the sub-pattern is the rest joined
    by slashes; ["redistributable_bin/**/*.dll"] gives
    [redistributable_bin] and ["**/*.dll"].  A rule over a directory
    hands every path it copies to [copy2] or [copytree] with the
    destination [install_dir / dst_subdir / rel], [rel] being the path of
    the match below the fixed-prefix directory, and a file so copied is
    there afterwards; the match
    [redistributable_bin/win64/steam_api64.dll] of the sample lands at
    [bin/win64/steam_api64.dll] of the install directory. *)
Theorem C8_split_pattern_and_destination cfg l pattern dst_subdir exclude_pattern :
  let fixed := (_SplitPattern pattern).1 in
  let sub := (_SplitPattern pattern).2 in
  let glob_root := Path.join (source_dir cfg l) fixed in
  let dest rel := Path.join (Path.join_str (install_dir cfg l) dst_subdir) rel in
  (exists rest,
      Path.parse pattern = fixed ++ rest /\
      Forall (fun part => has_wildcard part = false) fixed /\
      match rest with [] => True | part :: _ => has_wildcard part = true end /\
      sub = Str.join "/" rest) /\
  _SplitPattern "redistributable_bin/**/*.dll" = (["redistributable_bin"], "**/*.dll") /\
  (forall s s' full_path rel,
      FS.is_dir (st_fs s) glob_root = true ->
      apply_rule cfg l (pattern, dst_subdir, exclude_pattern) s = (Ok tt, s') ->
      full_path ∈ to_copy cfg l (st_fs s) pattern exclude_pattern ->
      Path.relative_to full_path glob_root = Some rel ->
      Copy2 full_path (dest rel) ∈ st_events s' \/
      CopyTree full_path (dest rel) ∈ st_events s') /\
  (forall s s' full_path rel c,
      Path.relative_to full_path glob_root = Some rel ->
      FS.lookup (st_fs s) full_path = Some (NFile c) ->
      FS.is_dir (st_fs s) (dest rel) = false ->
      copy_match cfg l glob_root dst_subdir full_path s = (Ok tt, s') ->
      st_fs s' !! dest rel = Some (NFile c)) /\
  st_fs (Manual_BuildAndInstall Sample.config Sample.steam_dlls
           [("redistributable_bin/**/*.dll", "bin", "")] (Sample.start Sample.steam_fs)).2
    !! (Sample.bin ++ ["SteamworksSDK"; "bin"; "win64"; "steam_api64.dll"])
  = Some (NFile "dll64").
Proof.
  intros fixed sub glob_root dest. split; [|split; [|split; [|split]]].
  - destruct (split_parts_spec [] (Path.parse pattern)) as (pre & post & Hp & Hf & Hall & Hw & Hs).
    exists post. unfold fixed, sub, _SplitPattern. rewrite Hf, Hs. simpl.
    split; [exact Hp|]. split; [exact Hall|]. split; [exact Hw|reflexivity].
  - reflexivity.
  - intros s s' full_path rel Hdir Hrun Hin Hrel.
    rewrite apply_rule_glob in Hrun by exact Hdir.
    destruct (for_each_Ok_inv events_grow _ _
                (fun y s r s' => always_events_grow _
                   (fun E => always_copy_match (emitted E) cfg l glob_root dst_subdir y) s r s')
                _ _ _ Hrun Hin) as (s1 & s2 & _ & Hbody & Hgrow).
    destruct (copy_match_event _ _ _ _ _ _ _ _ Hrel Hbody) as [H|H]; [left|right];
      (eapply emitted_elem; [exact Hgrow | exact H]).
  - intros s s' full_path rel c Hrel Hfile Hnd Hrun.
    eapply copy_match_file; eauto.
  - vm_compute. reflexivity.
Qed.

Lemma C8_witness :
  let s' := (apply_rule Sample.config Sample.steam_dlls
               ("redistributable_bin/**/*.dll", "bin", "") (Sample.start Sample.steam_fs)).2 in
  Copy2 (Sample.src ++ ["SteamworksSDK"; "redistributable_bin"; "win64"; "steam_api64.dll"])
        (Sample.bin ++ ["SteamworksSDK"; "bin"; "win64"; "steam_api64.dll"]) ∈ st_events s' \/
  CopyTree (Sample.src ++ ["SteamworksSDK"; "redistributable_bin"; "win64"; "steam_api64.dll"])
        (Sample.bin ++ ["SteamworksSDK"; "bin"; "win64"; "steam_api64.dll"]) ∈ st_events s'.
Proof.
  refine (proj1 (proj2 (proj2
            (C8_split_pattern_and_destination Sample.config Sample.steam_dlls
               "redistributable_bin/**/*.dll" "bin" "")))
            (Sample.start Sample.steam_fs) _
            (Sample.src ++ ["SteamworksSDK"; "redistributable_bin"; "win64"; "steam_api64.dll"])
            ["win64"; "steam_api64.dll"] _ _ _ _).
  - vm_compute. reflexivity.
  - apply run_eq. vm_compute. reflexivity.
  - vm_compute. repeat constructor.
  - vm_compute. reflexivity.
Defined.

(** ** The freshness record, read *)

Lemma ReadLineAt_run p n s : ReadLineAt p n s = (read_line_at (st_fs s) p n, s).
Proof.
  unfold ReadLineAt, read_line_at, path_exists, read_file, bind, get_fs, ret, raise.
  destruct (FS.exists_ (st_fs s) p); simpl; [|done].
  by destruct (FS.read (st_fs s) p).
Qed.

Section Record.

Variable cfg : Config.
Variable env : Env.

(** [GetGitHash] on an object that has not asked git yet. *)
Lemma GetGitHash_fresh l s :
  git_hash s = None ->
  GetGitHash cfg env l s =
  match git_rev_parse env (source_dir cfg l) with
  | Some stdout =>
      (Ok (Str.strip stdout),
       with_git_hash (with_events s [GitRevParse (source_dir cfg l)]) (Some (Str.strip stdout)))
  | None =>
      (Raise (CalledProcessError (git_cmd cfg l)),
       with_events s [GitRevParse (source_dir cfg l)])
  end.
Proof.
  intros H. unfold GetGitHash, bind, get_state. simpl. rewrite H. unfold emit. simpl.
  by destruct (git_rev_parse env (source_dir cfg l)).
Qed.

Lemma GetGitHash_memo l s h :
  git_hash s = Some h -> GetGitHash cfg env l s = (Ok h, s).
Proof. intros H. unfold GetGitHash, bind, get_state. simpl. by rewrite H. Qed.

Lemma GetBuildHash_fresh extra_args s :
  build_hash s = None ->
  GetBuildHash env extra_args s =
  (Ok (md5_hexdigest env (Str.join "|" extra_args)),
   with_build_hash s (Some (md5_hexdigest env (Str.join "|" extra_args)))).
Proof. intros H. unfold GetBuildHash, bind, get_state. simpl. by rewrite H. Qed.

Lemma GetBuildHash_memo extra_args s h :
  build_hash s = Some h -> GetBuildHash env extra_args s = (Ok h, s).
Proof. intros H. unfold GetBuildHash, bind, get_state. simpl. by rewrite H. Qed.

(** [CheckBuildHash] on an object that has not computed its build hash. *)
Lemma CheckBuildHash_fresh l extra_args hash_file s :
  build_hash s = None ->
  let h := md5_hexdigest env (Str.join "|" extra_args) in
  CheckBuildHash cfg env l extra_args hash_file s =
  match read_line_at (st_fs s) hash_file 2 with
  | Ok line => (Ok (bool_decide (Some h = line)), with_build_hash s (Some h))
  | Raise e => (Raise e, with_build_hash s (Some h))
  | Diverge => (Diverge, with_build_hash s (Some h))
  end.
Proof.
  intros H h. unfold CheckBuildHash, try_except, bind.
  rewrite GetBuildHash_fresh by done. rewrite ReadLineAt_run. simpl. fold h.
  destruct (read_line_at (st_fs s) hash_file 2) as [line|e|] eqn:R; try done.
  assert (is_CalledProcessError e = false) as ->; [|done].
  unfold read_line_at in R. destruct (FS.exists_ (st_fs s) hash_file); [|done].
  unfold FS.read in R.
  destruct (FS.lookup (st_fs s) hash_file) as [[|c]|]; by inversion R.
Qed.

(** The freshness check of the base class, when the record can be read:
    it answers, and leaves file system and build hash alone. *)
Lemma base_IsHashRelevant_readable l hash_file s c :
  FS.read (st_fs s) hash_file = inr c ->
  exists b s1,
    base_IsHashRelevant cfg env l hash_file s = (Ok b, s1) /\
    st_fs s1 = st_fs s /\ build_hash s1 = build_hash s.
Proof.
  intros Hread. unfold base_IsHashRelevant, path_exists, bind, get_fs, ret. simpl.
  assert (FS.exists_ (st_fs s) hash_file = true) as Hex.
  { unfold FS.read in Hread. unfold FS.exists_.
    by destruct (FS.lookup (st_fs s) hash_file). }
  rewrite Hex. unfold CheckGitHash, try_except, bind.
  destruct (git_hash s) as [h|] eqn:G.
  - rewrite (GetGitHash_memo _ _ _ G), ReadLineAt_run.
    unfold read_line_at. rewrite Hex, Hread. simpl. eauto.
  - rewrite (GetGitHash_fresh _ _ G).
    destruct (git_rev_parse env (source_dir cfg l)) as [out|].
    + rewrite ReadLineAt_run. unfold read_line_at. simpl. rewrite Hex, Hread. simpl. eauto.
    + simpl. eauto.
Qed.

End Record.

(** ** The build identity *)

Lemma str_app_cons a (s t : string) : String a s +:+ t = String a (s +:+ t).
Proof. reflexivity. Qed.

Lemma str_app_nil (t : string) : "" +:+ t = t.
Proof. reflexivity. Qed.

Lemma str_app_empty_r (s : string) : s +:+ "" = s.
Proof. induction s as [|a s IH]; [done|]. by rewrite str_app_cons, IH. Qed.

Lemma join_cons x l : Str.join "|" (x :: l) = x +:+ join_tail l.
Proof. destruct l; simpl; [by rewrite str_app_empty_r | done]. Qed.

Lemma no_bar_app_inj x y r1 r2 :
  no_bar x -> no_bar y ->
  (r1 = "" \/ exists t, r1 = String "|" t) ->
  (r2 = "" \/ exists t, r2 = String "|" t) ->
  x +:+ r1 = y +:+ r2 -> x = y /\ r1 = r2.
Proof.
  unfold no_bar. revert y. induction x as [|a x IH]; intros [|b y] Hx Hy H1 H2;
    rewrite ?str_app_cons, ?str_app_nil; simpl in *.
  - done.
  - apply orb_false_iff in Hy as [Hb _]. apply Ascii.eqb_neq in Hb.
    destruct H1 as [->|[t ->]]; [done|]. intros [= <- _]. done.
  - apply orb_false_iff in Hx as [Ha _]. apply Ascii.eqb_neq in Ha.
    destruct H2 as [->|[t ->]]; [done|]. intros [= -> _]. done.
  - apply orb_false_iff in Hx as [_ Hx]. apply orb_false_iff in Hy as [_ Hy].
    intros [= -> H]. destruct (IH y Hx Hy H1 H2 H) as [-> ->]. done.
Qed.

Lemma join_tail_shape l : join_tail l = "" \/ exists t, join_tail l = String "|" t.
Proof. destruct l; [by left | right; unfold join_tail; rewrite str_app_cons; eauto]. Qed.

(** On non-empty lists of arguments without ["|"], [join] is injective. *)
Lemma join_bar_inj l1 l2 :
  Forall no_bar l1 -> Forall no_bar l2 -> l1 <> [] -> l2 <> [] ->
  Str.join "|" l1 = Str.join "|" l2 -> l1 = l2.
Proof.
  revert l2. induction l1 as [|x l1 IH]; intros [|y l2] H1 H2 N1 N2; try done.
  rewrite !join_cons. intros H.
  apply Forall_cons in H1 as [Hx H1]. apply Forall_cons in H2 as [Hy H2].
  destruct (no_bar_app_inj _ _ _ _ Hx Hy (join_tail_shape l1) (join_tail_shape l2) H)
    as [-> Ht].
  f_equal. destruct l1 as [|x1 l1], l2 as [|y2 l2]; try done.
  unfold join_tail in Ht. rewrite !str_app_cons, !str_app_nil in Ht.
  injection Ht as Ht. by apply IH.
Qed.

(** Without ["|"] in the arguments, [join] tells all lists apart but the
    empty list and the list of one empty argument. *)
Lemma join_bar_inj_but_empty l1 l2 :
  Forall no_bar l1 -> Forall no_bar l2 ->
  Str.join "|" l1 = Str.join "|" l2 ->
  l1 = l2 \/ (l1 = [] /\ l2 = [EmptyString]) \/ (l1 = [EmptyString] /\ l2 = []).
Proof.
  assert (forall x l, Str.join "|" (x :: l) = EmptyString -> x = EmptyString /\ l = [])
    as Hempty.
  { intros x l. rewrite join_cons. destruct x as [|c x]; [|by rewrite str_app_cons].
    rewrite str_app_nil. destruct l as [|y l]; [done|].
    unfold join_tail. by rewrite str_app_cons. }
  intros H1 H2 H. destruct l1 as [|x l1], l2 as [|y l2].
  - by left.
  - right. left. symmetry in H. by destruct (Hempty _ _ H) as [-> ->].
  - right. right. by destruct (Hempty _ _ H) as [-> ->].
  - left. by apply join_bar_inj.
Qed.

(** C10, counterexample: the argument lists [["a"; "a|a"]] and
    [["a|a"; "a"]] differ, and differ by their order only, but
    [GetBuildHash] gives both the same build identity, whatever the
    digest, as it does for no argument and one empty argument; a record
    committed with the first is up to date for the second. *)
Lemma C10_counterexample :
  ["a"; "a|a"] <> ["a|a"; "a"] /\
  ["a"; "a|a"] ≡ₚ ["a|a"; "a"] /\
  (forall env s, GetBuildHash env ["a"; "a|a"] s = GetBuildHash env ["a|a"; "a"] s) /\
  (forall env s, GetBuildHash env [] s = GetBuildHash env [EmptyString] s) /\
  let lib args :=
    {| source_dir_base := ["lib"]; install_dir_base := ["lib"];
       kind := CMakeLibrary ["build"] args false |} in
  let committed :=
    (InstallLibrary Sample.config Sample.env_ok (lib ["a"; "a|a"])
       (Sample.start Sample.headers_fs)) in
  committed.1 = Ok tt /\
  (IsHashRelevant Sample.config Sample.env_ok (lib ["a|a"; "a"])
     (hash_file_of Sample.config (lib ["a|a"; "a"]))
     (Sample.start (st_fs committed.2))).1 = Ok true.
Proof.
  split; [done|]. split; [apply Permutation_swap|]. split; [done|]. split; [done|].
  split; vm_compute; reflexivity.
Qed.

(** C10, amended: for two different lists of extra arguments none of
    which contains the character ["|"], other than the pair of the empty
    list and the list of one empty argument, the strings that
    [GetBuildHash] digests differ: a reordering that changes the list, an
    argument added to no argument, any other change.  When the digest
    does not collide on them the build identities differ, and the
    freshness check of a CMake library with the second list, on a
    readable record whose second line is the build identity of the first
    list, answers "not up to date". *)
Theorem C10_build_identity_of_bar_free_arguments cfg env l build_dir build_debug
    (args1 args2 : list string) hash_file s :
  Forall no_bar args1 -> Forall no_bar args2 ->
  args1 <> args2 ->
  ~ (args1 = [] /\ args2 = [EmptyString]) ->
  ~ (args1 = [EmptyString] /\ args2 = []) ->
  (md5_hexdigest env (Str.join "|" args1) = md5_hexdigest env (Str.join "|" args2) ->
   Str.join "|" args1 = Str.join "|" args2) ->
  kind l = CMakeLibrary build_dir args2 build_debug ->
  build_hash s = None ->
  read_line_at (st_fs s) hash_file 2 = Ok (Some (md5_hexdigest env (Str.join "|" args1))) ->
  Str.join "|" args1 <> Str.join "|" args2 /\
  md5_hexdigest env (Str.join "|" args1) <> md5_hexdigest env (Str.join "|" args2) /\
  (IsHashRelevant cfg env l hash_file s).1 = Ok false.
Proof.
  intros F1 F2 Hne N1 N2 Hmd5 Hkind Hb Hline.
  assert (Str.join "|" args1 <> Str.join "|" args2) as Hstr.
  { intros H. destruct (join_bar_inj_but_empty args1 args2 F1 F2 H) as [E|[E|E]]; tauto. }
  assert (md5_hexdigest env (Str.join "|" args1) <> md5_hexdigest env (Str.join "|" args2))
    as Hid by (intros H; by apply Hstr, Hmd5).
  split; [exact Hstr|]. split; [exact Hid|].
  unfold IsHashRelevant. rewrite Hkind. unfold bind.
  assert (exists c, FS.read (st_fs s) hash_file = inr c) as [c Hread].
  { unfold read_line_at in Hline. destruct (FS.exists_ (st_fs s) hash_file); [|done].
    destruct (FS.read (st_fs s) hash_file); [done|eauto]. }
  destruct (base_IsHashRelevant_readable cfg env l hash_file s c Hread)
    as (b & s1 & -> & Hfs & Hbh).
  destruct b; [|done].
  rewrite CheckBuildHash_fresh by congruence. rewrite Hfs, Hline. simpl.
  rewrite bool_decide_eq_false_2; [done|]. intros [= H]. by apply Hid.
Qed.

Lemma C10_witness :
  let lib args :=
    {| source_dir_base := ["lib"]; install_dir_base := ["lib"];
       kind := CMakeLibrary ["build"] args false |} in
  let committed args :=
    (InstallLibrary Sample.config Sample.env_ok (lib args)
       (Sample.start Sample.headers_fs)).2 in
  (Str.join "|" ["-DA=1"; "-DB=2"] <> Str.join "|" ["-DB=2"; "-DA=1"] /\
   md5_hexdigest Sample.env_ok (Str.join "|" ["-DA=1"; "-DB=2"]) <>
   md5_hexdigest Sample.env_ok (Str.join "|" ["-DB=2"; "-DA=1"]) /\
   (IsHashRelevant Sample.config Sample.env_ok (lib ["-DB=2"; "-DA=1"])
      (hash_file_of Sample.config (lib ["-DB=2"; "-DA=1"]))
      (Sample.start (st_fs (committed ["-DA=1"; "-DB=2"])))).1 = Ok false) /\
  (Str.join "|" [] <> Str.join "|" ["-DA=1"] /\
   md5_hexdigest Sample.env_ok (Str.join "|" []) <>
   md5_hexdigest Sample.env_ok (Str.join "|" ["-DA=1"]) /\
   (IsHashRelevant Sample.config Sample.env_ok (lib ["-DA=1"])
      (hash_file_of Sample.config (lib ["-DA=1"]))
      (Sample.start (st_fs (committed [])))).1 = Ok false).
Proof.
  intros lib committed. split.
  - apply (C10_build_identity_of_bar_free_arguments Sample.config Sample.env_ok
             (lib ["-DB=2"; "-DA=1"]) ["build"] false ["-DA=1"; "-DB=2"] ["-DB=2"; "-DA=1"]).
    + repeat constructor.
    + repeat constructor.
    + done.
    + by intros [? _].
    + by intros [? _].
    + vm_compute. intros H. discriminate H.
    + reflexivity.
    + reflexivity.
    + vm_compute. reflexivity.
  - apply (C10_build_identity_of_bar_free_arguments Sample.config Sample.env_ok
             (lib ["-DA=1"]) ["build"] false [] ["-DA=1"]).
    + repeat constructor.
    + repeat constructor.
    + done.
    + by intros [_ ?].
    + by intros [? _].
    + vm_compute. intros H. discriminate H.
    + reflexivity.
    + reflexivity.
    + vm_compute. reflexivity.
Defined.

(** ** Exclusion *)

(** C3, the code at the failing input: in the sample library the pattern
    ["**/*.h"] matches [a.h], [b.h] and [sub/c.h], and the exclude pattern
    ["b.*"], resolved as a glob below the fixed prefix, matches exactly
    [b.h]; but [BuildAndInstall] only resolves the exclude pattern when a
    file of that very name exists, so nothing is subtracted and [b.h] is
    installed with the others.  The literal exclude pattern ["b.h"] is
    subtracted. *)
Theorem C3_wildcard_exclude_is_not_applied :
  let root := Sample.src ++ ["lib"] in
  let dest := Sample.bin ++ ["lib"; "include"] in
  let run ex := (BuildAndInstall Sample.config Sample.env_ok (Sample.headers ex)
                   (Sample.start Sample.headers_fs)) in
  Glob.glob Sample.headers_fs (root ++ ["**"; "*.h"])
    ≡ₚ [root ++ ["a.h"]; root ++ ["b.h"]; root ++ ["sub"; "c.h"]] /\
  Glob.glob Sample.headers_fs (root ++ ["b.*"]) = [root ++ ["b.h"]] /\
  to_copy Sample.config (Sample.headers "b.*") Sample.headers_fs "**/*.h" "b.*"
    ≡ₚ [root ++ ["a.h"]; root ++ ["b.h"]; root ++ ["sub"; "c.h"]] /\
  (run "b.*").1 = Ok tt /\
  st_fs (run "b.*").2 !! (dest ++ ["b.h"]) = Some (NFile "B") /\
  to_copy Sample.config (Sample.headers "b.h") Sample.headers_fs "**/*.h" "b.h"
    ≡ₚ [root ++ ["a.h"]; root ++ ["sub"; "c.h"]] /\
  (run "b.h").1 = Ok tt /\
  st_fs (run "b.h").2 !! (dest ++ ["b.h"]) = None /\
  st_fs (run "b.h").2 !! (dest ++ ["a.h"]) = Some (NFile "A") /\
  st_fs (run "b.h").2 !! (dest ++ ["sub"; "c.h"]) = Some (NFile "C").
Proof.
  intros root dest run.
  assert (forall (x y z : path), [y; x; z] ≡ₚ [x; y; z]) as Hswap
    by (intros; apply Permutation_swap).
  repeat split; try (vm_compute; reflexivity).
  - vm_compute. apply Hswap.
  - vm_compute. apply Hswap.
Qed.

(** ** Patterns without wildcards *)

Lemma split_mem sep (s x : string) c :
  x ∈ Str.split sep s -> Str.mem c x = true -> Str.mem c s = true.
Proof.
  revert x. induction s as [|a s IH]; intros x; simpl.
  - intros ->%list_elem_of_singleton. done.
  - destruct (Ascii.eqb a sep) eqn:E.
    + intros [->|Hx]%elem_of_cons; [done|]. intros H. rewrite (IH x Hx H). apply orb_true_r.
    + destruct (Str.split sep s) as [|y ys] eqn:S.
      * intros ->%list_elem_of_singleton. simpl. rewrite orb_false_r. intros ->. done.
      * intros [->|Hx]%elem_of_cons; simpl.
        -- intros [->|H]%orb_true_iff; [done|]. rewrite (IH y); [apply orb_true_r| |done].
           apply elem_of_cons. by left.
        -- intros H. rewrite (IH x); [apply orb_true_r| |done]. apply elem_of_cons. by right.
Qed.

Lemma has_wildcard_mem part :
  has_wildcard part = true -> exists c, c ∈ wildcard_chars /\ Str.mem c part = true.
Proof.
  unfold has_wildcard. intros H. apply existsb_exists in H as (c & Hc & Hm).
  exists c. split; [by apply list_elem_of_In | done].
Qed.

Lemma mem_has_wildcard part c :
  c ∈ wildcard_chars -> Str.mem c part = true -> has_wildcard part = true.
Proof.
  intros Hc Hm. unfold has_wildcard. apply existsb_exists. exists c.
  split; [by apply list_elem_of_In | done].
Qed.

(** The parts of a pattern without wildcard characters have none. *)
Lemma parse_no_wildcard pattern :
  has_wildcard pattern = false ->
  Forall (fun part => has_wildcard part = false) (Path.parse pattern).
Proof.
  intros H.
  assert (Forall (fun part => has_wildcard part = false)
            (List.filter Path.keep_part (Str.split "/" pattern))) as Hrel.
  { apply Forall_forall. intros x Hx. apply list_elem_of_In, filter_In in Hx as [Hx _].
    apply list_elem_of_In in Hx.
    destruct (has_wildcard x) eqn:W; [|done].
    apply has_wildcard_mem in W as (c & Hc & Hm).
    rewrite <- H. symmetry. eapply mem_has_wildcard; [exact Hc|]. eapply split_mem; eauto. }
  unfold Path.parse. destruct (Path.root_of pattern) as [r|] eqn:R; [|exact Hrel].
  apply Forall_cons. split; [|exact Hrel].
  unfold Path.root_of in R.
  repeat (match type of R with
          | match ?x with _ => _ end = _ => destruct x; try discriminate
          | (if ?b then _ else _) = _ => destruct b; try discriminate
          end); by injection R as <-.
Qed.

Lemma split_parts_no_wildcard seen rest :
  Forall (fun part => has_wildcard part = false) rest ->
  split_parts seen rest = (seen ++ rest, "").
Proof.
  revert seen. induction rest as [|part rest IH]; intros seen H; simpl.
  - by rewrite app_nil_r.
  - apply Forall_cons in H as [-> H]. rewrite IH by done. by rewrite <- app_assoc.
Qed.

Lemma relative_to_self p : Path.relative_to p p = Some [].
Proof. induction p as [|x p IH]; simpl; [done|]. by rewrite String.eqb_refl. Qed.

Lemma existsb_Forall_false {A} (P : A -> bool) l :
  Forall (fun x => P x = false) l -> existsb P l = false.
Proof. induction 1 as [|x l Hx _ IH]; simpl; [done|]. by rewrite Hx, IH. Qed.

Lemma bind_ret_unit {Σ} (m : Prog Σ unit) s : (m ;;; ret tt) s = m s.
Proof. unfold bind, ret. by destruct (m s) as [[[]|e|] s']. Qed.

Lemma copytree_events src dst s :
  st_events (copytree src dst s).2 = st_events s ++ [CopyTree src dst].
Proof.
  unfold copytree, bind, emit, get_fs, set_fs, raise. simpl.
  by destruct (FS.copytree (st_fs s) src dst) as [[e f']|f'].
Qed.

(** [glob] of a path without wildcards: the path itself, if it exists. *)
Lemma glob_literal f p :
  Forall (fun part => has_wildcard part = false) p ->
  Glob.glob f p = if FS.exists_ f p then [p] else [].
Proof.
  intros H. unfold Glob.glob.
  assert (existsb Glob.has_magic p = false) as ->; [|done].
  by apply existsb_Forall_false.
Qed.

Lemma join_no_wildcard p q :
  Forall (fun part => has_wildcard part = false) p ->
  Forall (fun part => has_wildcard part = false) q ->
  Forall (fun part => has_wildcard part = false) (Path.join p q).
Proof.
  intros Hp Hq. unfold Path.join. destruct q as [|r q]; [done|].
  destruct (Path.is_root r); [done|]. by apply Forall_app.
Qed.

(** C4, counterexample: the rule [--src=public/steam --dst=include
    --ex='*.h'] of the sample copies what is in the directory
    [public/steam] straight into [include]: [steam_api.h] is at
    [include/steam_api.h], nothing is at [include/steam], and the only
    thing the rule does is one [copytree]: no warning about the exclude
    pattern is logged. *)
Lemma C4_counterexample :
  let run := BuildAndInstall Sample.config Sample.env_ok Sample.steam_dir
               (Sample.start Sample.steam_fs) in
  let include := Sample.bin ++ ["SteamworksSDK"; "include"] in
  run.1 = Ok tt /\
  st_fs run.2 !! (include ++ ["steam"]) = None /\
  st_fs run.2 !! (include ++ ["steam"; "steam_api.h"]) = None /\
  st_fs run.2 !! (include ++ ["steam_api.h"]) = Some (NFile "api") /\
  st_fs run.2 !! (include ++ ["lib"; "sdkencryptedappticket.lib"]) = Some (NFile "ticket") /\
  st_events run.2 =
    [CopyTree (Sample.src ++ ["SteamworksSDK"; "public"; "steam"]) include].
Proof. repeat split; vm_compute; reflexivity. Qed.

(** C4, amended: a rule whose source pattern has no wildcard character
    and names an existing directory [D] (below a source directory
    without wildcard characters) is one call of [copytree] from [D] to
    [install_dir / dst_subdir]: what is in [D] lands directly in the
    destination sub-directory, the name of [D] is not appended.  An
    exclude pattern given with it is no error, it is resolved as for any
    other rule, and unless it excludes [D] itself it changes nothing. *)
Theorem C4_directory_without_wildcard cfg l pattern dst_subdir exclude_pattern s :
  let D := Path.join (source_dir cfg l) (Path.parse pattern) in
  let dest := Path.join_str (install_dir cfg l) dst_subdir in
  has_wildcard pattern = false ->
  Forall (fun part => has_wildcard part = false) (source_dir cfg l) ->
  FS.is_dir (st_fs s) D = true ->
  D ∉ exclude_matches cfg l (st_fs s) pattern exclude_pattern ->
  apply_rule cfg l (pattern, dst_subdir, exclude_pattern) s = copytree D dest s /\
  st_events (apply_rule cfg l (pattern, dst_subdir, exclude_pattern) s).2 =
    st_events s ++ [CopyTree D dest].
Proof.
  intros D dest Hpat Hsrc Hdir Hex.
  pose proof (parse_no_wildcard pattern Hpat) as Hparts.
  assert (_SplitPattern pattern = (Path.parse pattern, "")) as Hsplit
    by (unfold _SplitPattern; by rewrite split_parts_no_wildcard).
  assert (apply_rule cfg l (pattern, dst_subdir, exclude_pattern) s = copytree D dest s) as Hrun.
  { rewrite apply_rule_glob by (rewrite Hsplit; exact Hdir).
    unfold to_copy. rewrite Hsplit. simpl. fold D.
    change (Path.join_str D "") with (Path.join D []). simpl.
    rewrite glob_literal by (by apply join_no_wildcard).
    assert (FS.exists_ (st_fs s) D = true) as ->.
    { unfold FS.is_dir in Hdir. unfold FS.exists_. by destruct (FS.lookup (st_fs s) D). }
    simpl. destruct (decide_rel elem_of D []) as [Hin|_]; [by apply elem_of_nil in Hin|].
    simpl. destruct (decide_rel elem_of D _) as [Hin|_]; [done|].
    simpl. rewrite bind_ret_unit. unfold copy_match. rewrite relative_to_self.
    unfold bind at 1. unfold get_fs. rewrite Hdir. reflexivity. }
  split; [exact Hrun|]. rewrite Hrun. apply copytree_events.
Qed.

Lemma C4_witness :
  let s := Sample.start Sample.steam_fs in
  let D := Sample.src ++ ["SteamworksSDK"; "public"; "steam"] in
  let dest := Sample.bin ++ ["SteamworksSDK"; "include"] in
  apply_rule Sample.config Sample.steam_dir ("public/steam", "include", "*.h") s =
    copytree D dest s /\
  st_events (apply_rule Sample.config Sample.steam_dir ("public/steam", "include", "*.h") s).2 =
    st_events s ++ [CopyTree D dest].
Proof.
  intros s D dest.
  apply (C4_directory_without_wildcard Sample.config Sample.steam_dir
           "public/steam" "include" "*.h" s).
  - reflexivity.
  - repeat constructor.
  - vm_compute. reflexivity.
  - vm_compute. apply not_elem_of_nil.
Defined.

(** ** The lifecycle of one library *)

Lemma InstallLibrary_eq cfg env l s :
  InstallLibrary cfg env l s =
  (relevant <- before_build cfg env l ;;
   if relevant then log (MsgUpToDate (lib_name l)) Info
   else BuildAndInstall cfg env l ;;; after_build cfg env l) s.
Proof.
  unfold InstallLibrary, before_build, after_build, bind, ret.
  destruct (IsHashRelevant cfg env l (hash_file_of cfg l) s) as [[[|]|e|] s1]; try done.
  destruct (path_exists (install_dir cfg l) s1) as [[present|e|] s2]; try done.
  destruct ((if negb present then mkdir_parents (install_dir cfg l)
             else fun s => (Ok tt, s)) s2) as [[[]|e|] s3]; done.
Qed.

Lemma for_each_app {Σ A} (l1 l2 : list A) (body : A -> Prog Σ unit) s :
  for_each (l1 ++ l2) body s = (for_each l1 body ;;; for_each l2 body) s.
Proof.
  revert s. induction l1 as [|x l1 IH]; intros s; simpl.
  - done.
  - unfold bind in *. by destruct (body x s) as [[[]|e|] s1].
Qed.

Lemma fresh_object_run s : fresh_object s = (Ok tt, fresh s).
Proof. reflexivity. Qed.

(** The freshness check does not touch what only writes can change. *)
Section ReadOnly.

Context (I : State -> Prop) `{!EmitStable I, !MemoStable I}.
Variable cfg : Config.
Variable env : Env.

Lemma readonly_ReadLineAt p n : always I (ReadLineAt p n).
Proof. unfold ReadLineAt. always_auto. Qed.

Lemma readonly_GetGitHash l : always I (GetGitHash cfg env l).
Proof. unfold GetGitHash. always_auto. Qed.

Lemma readonly_GetBuildHash extra_args : always I (GetBuildHash env extra_args).
Proof. unfold GetBuildHash. always_auto. Qed.

Hint Resolve readonly_ReadLineAt readonly_GetGitHash readonly_GetBuildHash : always.

Lemma readonly_IsHashRelevant l hash_file : always I (IsHashRelevant cfg env l hash_file).
Proof.
  unfold IsHashRelevant, base_IsHashRelevant, CheckGitHash, CheckBuildHash. always_auto.
Qed.

End ReadOnly.

Lemma IsHashRelevant_fs cfg env l hash_file s :
  st_fs (IsHashRelevant cfg env l hash_file s).2 = st_fs s.
Proof.
  destruct (IsHashRelevant cfg env l hash_file s) as [r s'] eqn:E.
  exact (readonly_IsHashRelevant (fs_is (st_fs s)) cfg env l hash_file s r s' eq_refl E).
Qed.

(** ** C1: the library loop *)

(** C1, counterexample: with the two sample libraries, git failing for
    the first, [main] ends with [sys.exit(1)] right after the first: the
    events end with the error message about [lib], the install directory
    of the second library is never made; alone, the second library is
    installed. *)
Lemma C1_counterexample :
  let env := Sample.env_no_git_in (Sample.src ++ ["lib"]) in
  let run := main_libraries Sample.config env [Sample.headers ""; Sample.steam_dlls]
               (Sample.start Sample.both_fs) in
  let alone := main_libraries Sample.config env [Sample.steam_dlls]
                 (Sample.start Sample.both_fs) in
  run.1 = Raise (SystemExit 1) /\
  st_events run.2 =
    [Mkdir (Sample.bin ++ ["lib"]); Log Info (MsgInstalling "lib");
     Mkdir (Sample.bin ++ ["lib"; "include"]);
     Copy2 (Sample.src ++ ["lib"; "b.h"]) (Sample.bin ++ ["lib"; "include"; "b.h"]);
     Mkdir (Sample.bin ++ ["lib"; "include"]);
     Copy2 (Sample.src ++ ["lib"; "a.h"]) (Sample.bin ++ ["lib"; "include"; "a.h"]);
     Mkdir (Sample.bin ++ ["lib"; "include"; "sub"]);
     Copy2 (Sample.src ++ ["lib"; "sub"; "c.h"]) (Sample.bin ++ ["lib"; "include"; "sub"; "c.h"]);
     GitRevParse (Sample.src ++ ["lib"]);
     Log Error (MsgProcessFailed "lib"
                  (CalledProcessError ["git"; "-C"; "third_party/src/lib"; "rev-parse"; "HEAD"]))] /\
  FS.exists_ (st_fs run.2) (Sample.bin ++ ["SteamworksSDK"]) = false /\
  alone.1 = Ok tt /\
  st_fs alone.2 !! (Sample.bin ++ ["SteamworksSDK"; "bin"; "win64"; "steam_api64.dll"])
    = Some (NFile "dll64").
Proof. repeat split; vm_compute; reflexivity. Qed.

(** C1, amended: when [InstallLibrary] raises an exception for a library
    whose source directory exists, [main] logs the error and ends the
    process at once with [sys.exit(1)]: the final state is the one in
    which that library failed, with the error message added, whatever
    libraries follow in the list; none of them is attempted. *)
Theorem C1_first_failure_ends_the_run cfg env pre l post s s1 e s2 :
  for_each pre (process_library cfg env) s = (Ok tt, s1) ->
  FS.exists_ (st_fs s1) (source_dir cfg l) = true ->
  InstallLibrary cfg env l (fresh s1) = (Raise e, s2) ->
  is_Exception e = true ->
  main_libraries cfg env (pre ++ l :: post) s =
    (Raise (SystemExit 1), with_events s2 [Log Error (MsgProcessFailed (lib_name l) e)]).
Proof.
  intros Hpre Hsrc Hinst Hexn. unfold main_libraries.
  unfold bind at 1. rewrite for_each_app. unfold bind at 1. rewrite Hpre.
  simpl. unfold bind at 1. unfold process_library at 1.
  unfold bind at 1. rewrite fresh_object_run.
  unfold bind at 1. unfold path_exists, bind at 1, get_fs, ret.
  change (st_fs (fresh s1)) with (st_fs s1). rewrite Hsrc.
  cbv beta iota. unfold negb. cbv beta iota.
  unfold try_except. rewrite Hinst, Hexn. reflexivity.
Qed.

Lemma C1_witness :
  let env := Sample.env_no_git_in (Sample.src ++ ["lib"]) in
  let s := Sample.start Sample.both_fs in
  let failed := (InstallLibrary Sample.config env (Sample.headers "") (fresh s)).2 in
  main_libraries Sample.config env ([] ++ Sample.headers "" :: [Sample.steam_dlls]) s =
    (Raise (SystemExit 1),
     with_events failed
       [Log Error (MsgProcessFailed "lib"
          (CalledProcessError ["git"; "-C"; "third_party/src/lib"; "rev-parse"; "HEAD"]))]).
Proof.
  intros env s failed.
  refine (C1_first_failure_ends_the_run Sample.config env [] (Sample.headers "")
            [Sample.steam_dlls] s s
            (CalledProcessError ["git"; "-C"; "third_party/src/lib"; "rev-parse"; "HEAD"])
            failed _ _ _ _).
  - reflexivity.
  - vm_compute. reflexivity.
  - exact (run_eq (InstallLibrary Sample.config env (Sample.headers "") (fresh s)) _
             ltac:(vm_compute; reflexivity)).
  - reflexivity.
Defined.

(** ** C2: git fails *)

(** The freshness check when git fails for the sources: the answer is
    "not up to date"; the error is logged if there is a record, and
    nothing is said otherwise. *)
Lemma IsHashRelevant_git_fails cfg env l hash_file s :
  git_rev_parse env (source_dir cfg l) = None ->
  git_hash s = None ->
  IsHashRelevant cfg env l hash_file s =
  (Ok false,
   if FS.exists_ (st_fs s) hash_file
   then with_events (with_events s [GitRevParse (source_dir cfg l)])
          [Log Error (MsgGitHashFailed (source_dir cfg l) (CalledProcessError (git_cmd cfg l)))]
   else s).
Proof.
  intros Hgit Hmemo.
  assert (base_IsHashRelevant cfg env l hash_file s =
          (Ok false,
           if FS.exists_ (st_fs s) hash_file
           then with_events (with_events s [GitRevParse (source_dir cfg l)])
                  [Log Error (MsgGitHashFailed (source_dir cfg l)
                                (CalledProcessError (git_cmd cfg l)))]
           else s)) as Hbase.
  { unfold base_IsHashRelevant, path_exists, bind, get_fs, ret. simpl.
    destruct (FS.exists_ (st_fs s) hash_file); [|done].
    unfold CheckGitHash, try_except, bind. rewrite (GetGitHash_fresh _ _ _ _ Hmemo), Hgit.
    reflexivity. }
  unfold IsHashRelevant. destruct (kind l); [|exact Hbase].
  unfold bind. by rewrite Hbase.
Qed.

Lemma before_build_memo cfg env l s s2 g b :
  before_build cfg env l s = (Ok false, s2) ->
  memo_is g b (IsHashRelevant cfg env l (hash_file_of cfg l) s).2 ->
  memo_is g b s2.
Proof.
  unfold before_build. unfold bind at 1.
  destruct (IsHashRelevant cfg env l (hash_file_of cfg l) s) as [[[|]|e|] s1]; try done.
  simpl. intros Hrun Hm.
  match type of Hrun with
  | ?m s1 = _ => assert (always (memo_is g b) m) as Hal by always_auto
  end.
  exact (Hal _ _ _ Hm Hrun).
Qed.

(** C2, counterexample: git fails for the sample library, whose record
    of an earlier install exists.  The failure is logged, the library is
    taken as not up to date and its headers are copied; only then does
    [InstallLibrary] raise, from [WriteHash]. *)
Lemma C2_counterexample :
  let run := InstallLibrary Sample.config Sample.env_no_git (Sample.headers "")
               (Sample.start Sample.installed_fs) in
  let git := ["git"; "-C"; "third_party/src/lib"; "rev-parse"; "HEAD"] in
  run.1 = Raise (CalledProcessError git) /\
  st_events run.2 =
    [GitRevParse (Sample.src ++ ["lib"]);
     Log Error (MsgGitHashFailed (Sample.src ++ ["lib"]) (CalledProcessError git));
     Log Info (MsgInstalling "lib");
     Mkdir (Sample.bin ++ ["lib"; "include"]);
     Copy2 (Sample.src ++ ["lib"; "b.h"]) (Sample.bin ++ ["lib"; "include"; "b.h"]);
     Mkdir (Sample.bin ++ ["lib"; "include"]);
     Copy2 (Sample.src ++ ["lib"; "a.h"]) (Sample.bin ++ ["lib"; "include"; "a.h"]);
     Mkdir (Sample.bin ++ ["lib"; "include"; "sub"]);
     Copy2 (Sample.src ++ ["lib"; "sub"; "c.h"]) (Sample.bin ++ ["lib"; "include"; "sub"; "c.h"]);
     GitRevParse (Sample.src ++ ["lib"])] /\
  st_fs (Sample.start Sample.installed_fs) !! (Sample.bin ++ ["lib"; "include"; "a.h"]) = None /\
  st_fs run.2 !! (Sample.bin ++ ["lib"; "include"; "a.h"]) = Some (NFile "A").
Proof. repeat split; vm_compute; reflexivity. Qed.

(** C2, amended: when git fails for the sources of a library, the
    freshness check answers "not up to date" (the failure is caught
    there, and logged when a record exists); [InstallLibrary] goes on to
    build, and when [BuildAndInstall] ends normally its effects are in
    place when [WriteHash] raises the [CalledProcessError] of git, so no
    record is written; [InstallLibrary] never ends normally, and the
    library loop of [main] does not go on to the next library: after a
    build that ended normally it logs the error of git and ends with
    [sys.exit(1)]. *)
Theorem C2_identity_failure_builds_then_raises cfg env l s :
  git_rev_parse env (source_dir cfg l) = None ->
  git_hash s = None ->
  (IsHashRelevant cfg env l (hash_file_of cfg l) s).1 = Ok false /\
  (forall s2 s3,
      before_build cfg env l s = (Ok false, s2) ->
      BuildAndInstall cfg env l s2 = (Ok tt, s3) ->
      InstallLibrary cfg env l s =
        (Raise (CalledProcessError (git_cmd cfg l)),
         with_events s3 [GitRevParse (source_dir cfg l)])) /\
  (InstallLibrary cfg env l s).1 <> Ok tt /\
  (forall post s0, s = fresh s0 -> FS.exists_ (st_fs s0) (source_dir cfg l) = true ->
      (main_libraries cfg env (l :: post) s0).1 <> Ok tt) /\
  (forall post s0 s2 s3,
      s = fresh s0 -> FS.exists_ (st_fs s0) (source_dir cfg l) = true ->
      before_build cfg env l s = (Ok false, s2) ->
      BuildAndInstall cfg env l s2 = (Ok tt, s3) ->
      main_libraries cfg env (l :: post) s0 =
        (Raise (SystemExit 1),
         with_events s3
           [GitRevParse (source_dir cfg l);
            Log Error (MsgProcessFailed (lib_name l) (CalledProcessError (git_cmd cfg l)))])).
Proof.
  intros Hgit Hmemo.
  pose proof (IsHashRelevant_git_fails cfg env l (hash_file_of cfg l) s Hgit Hmemo) as Hcheck.
  assert (forall s2 s3,
      before_build cfg env l s = (Ok false, s2) ->
      BuildAndInstall cfg env l s2 = (Ok tt, s3) ->
      InstallLibrary cfg env l s =
        (Raise (CalledProcessError (git_cmd cfg l)),
         with_events s3 [GitRevParse (source_dir cfg l)])) as Hbuild.
  { intros s2 s3 Hbefore Hb. rewrite InstallLibrary_eq. unfold bind at 1. rewrite Hbefore.
    unfold bind at 1. rewrite Hb. unfold after_build. unfold bind at 1.
    assert (memo_is None (build_hash s) s3) as [Hg _].
    { eapply (always_BuildAndInstall (memo_is None (build_hash s))); [|exact Hb].
      eapply before_build_memo; [exact Hbefore|]. rewrite Hcheck. simpl.
      by destruct (FS.exists_ (st_fs s) (hash_file_of cfg l)). }
    assert (base_WriteHash cfg env l (hash_file_of cfg l) s3 =
            (Raise (CalledProcessError (git_cmd cfg l)),
             with_events s3 [GitRevParse (source_dir cfg l)])) as Hw.
    { unfold base_WriteHash, bind. by rewrite (GetGitHash_fresh _ _ _ _ Hg), Hgit. }
    unfold WriteHash. destruct (kind l); [unfold bind at 1|]; by rewrite Hw. }
  assert ((InstallLibrary cfg env l s).1 <> Ok tt) as Hnot.
  { rewrite InstallLibrary_eq. unfold bind at 1.
    destruct (before_build cfg env l s) as [[[|]|e|] s2] eqn:Hbefore; simpl; try done.
    - exfalso. unfold before_build, bind in Hbefore. rewrite Hcheck in Hbefore.
      simpl in Hbefore.
      repeat (match type of Hbefore with
              | context [match ?x with _ => _ end] => destruct x
              end; try discriminate).
    - unfold bind at 1.
      destruct (BuildAndInstall cfg env l s2) as [[[]|e|] s3] eqn:Hb; simpl; try done.
      pose proof (Hbuild s2 s3 eq_refl Hb) as H. rewrite InstallLibrary_eq in H.
      unfold bind at 1 in H. rewrite Hbefore in H. unfold bind at 1 in H. rewrite Hb in H.
      by rewrite H. }
  split; [by rewrite Hcheck|]. split; [exact Hbuild|]. split; [exact Hnot|].
  assert (forall post s0, s = fresh s0 -> FS.exists_ (st_fs s0) (source_dir cfg l) = true ->
            main_libraries cfg env (l :: post) s0 =
            match InstallLibrary cfg env l s with
            | (Raise e, s1) =>
                if is_Exception e
                then (Raise (SystemExit 1),
                      with_events s1 [Log Error (MsgProcessFailed (lib_name l) e)])
                else (Raise e, s1)
            | (Ok _, s1) =>
                (for_each post (process_library cfg env) ;;;
                 log MsgAllInstalled Success) s1
            | (Diverge, s1) => (Diverge, s1)
            end) as Hmain.
  { intros post s0 -> Hsrc. unfold main_libraries. unfold bind at 1. simpl.
    unfold bind at 1. unfold process_library at 1. unfold bind at 1.
    rewrite fresh_object_run.
    unfold bind at 1. unfold path_exists, bind at 1, get_fs, ret.
    change (st_fs (fresh s0)) with (st_fs s0). rewrite Hsrc.
    cbv beta iota. unfold negb. cbv beta iota. unfold try_except.
    destruct (InstallLibrary cfg env l (fresh s0)) as [[[]|e|] s1]; try done.
    by destruct (is_Exception e). }
  split.
  - intros post s0 Hs Hsrc. rewrite (Hmain post s0 Hs Hsrc).
    destruct (InstallLibrary cfg env l s) as [[[]|e|] s1]; simpl in *; try done.
    by destruct (is_Exception e).
  - intros post s0 s2 s3 Hs Hsrc Hbefore Hb.
    rewrite (Hmain post s0 Hs Hsrc), (Hbuild s2 s3 Hbefore Hb). simpl.
    unfold with_events. simpl. by rewrite <- app_assoc.
Qed.

Lemma C2_witness :
  let s := Sample.start Sample.installed_fs in
  let l := Sample.headers "" in
  let s2 := (before_build Sample.config Sample.env_no_git l s).2 in
  let s3 := (BuildAndInstall Sample.config Sample.env_no_git l s2).2 in
  InstallLibrary Sample.config Sample.env_no_git l s =
    (Raise (CalledProcessError (git_cmd Sample.config l)),
     with_events s3 [GitRevParse (source_dir Sample.config l)]).
Proof.
  intros s l s2 s3.
  refine (proj1 (proj2 (C2_identity_failure_builds_then_raises
                          Sample.config Sample.env_no_git l s _ _)) s2 s3 _ _).
  - reflexivity.
  - reflexivity.
  - exact (run_eq (before_build Sample.config Sample.env_no_git l s) _
             ltac:(vm_compute; reflexivity)).
  - exact (run_eq (BuildAndInstall Sample.config Sample.env_no_git l s2) _
             ltac:(vm_compute; reflexivity)).
Defined.

(** ** C5: reading the record *)

(** The freshness check of the base class on a readable record and an
    object that has not asked git yet: the comparison of line 1 with the
    revision, or "not up to date" when git fails. *)
Lemma base_IsHashRelevant_value cfg env l hash_file s c :
  FS.read (st_fs s) hash_file = inr c ->
  git_hash s = None ->
  (base_IsHashRelevant cfg env l hash_file s).1 =
  Ok (match git_rev_parse env (source_dir cfg l) with
      | Some stdout =>
          bool_decide (Some (Str.strip stdout) = Str.rstrip_nl <$> (Lines.readlines c !! 0))
      | None => false
      end).
Proof.
  intros Hread Hmemo. unfold base_IsHashRelevant, path_exists, bind, get_fs, ret. simpl.
  assert (FS.exists_ (st_fs s) hash_file = true) as Hex.
  { unfold FS.read in Hread. unfold FS.exists_.
    by destruct (FS.lookup (st_fs s) hash_file). }
  rewrite Hex. unfold CheckGitHash, try_except, bind.
  rewrite (GetGitHash_fresh _ _ _ _ Hmemo).
  destruct (git_rev_parse env (source_dir cfg l)) as [out|]; [|done].
  rewrite ReadLineAt_run. unfold read_line_at. simpl. by rewrite Hex, Hread.
Qed.

(** C5, counterexample: a directory is where the record of the sample
    library should be.  Opening it raises [IsADirectoryError], which
    leaves the freshness check and [InstallLibrary]; nothing is rebuilt,
    and [main] ends with [sys.exit(1)]. *)
Lemma C5_counterexample :
  let l := Sample.headers "" in
  let s := Sample.start Sample.record_is_dir_fs in
  let record := Sample.bin ++ ["lib"; "hash_lib.txt"] in
  hash_file_of Sample.config l = record /\
  (IsHashRelevant Sample.config Sample.env_ok l record s).1
    = Raise (OSError IsADirectoryError record) /\
  (InstallLibrary Sample.config Sample.env_ok l s).1
    = Raise (OSError IsADirectoryError record) /\
  st_events (InstallLibrary Sample.config Sample.env_ok l s).2
    = [GitRevParse (Sample.src ++ ["lib"])] /\
  (main_libraries Sample.config Sample.env_ok [l] s).1 = Raise (SystemExit 1).
Proof. repeat split; vm_compute; reflexivity. Qed.

(** C5, amended: on an object that has not asked git yet, the freshness
    check answers "not up to date" when there is no record; when the
    record is a file that can be read it answers without raising, and
    "not up to date" if the first line is missing or is not the
    revision; but an exception raised by opening the record (here: the
    record is a directory), with git working, is not caught: it leaves
    the freshness check and [InstallLibrary], and the file system is as
    before. *)
Theorem C5_record_read_errors_propagate cfg env l s :
  let record := hash_file_of cfg l in
  git_hash s = None ->
  build_hash s = None ->
  (FS.exists_ (st_fs s) record = false ->
     IsHashRelevant cfg env l record s = (Ok false, s)) /\
  (forall c, FS.read (st_fs s) record = inr c ->
     exists b, (IsHashRelevant cfg env l record s).1 = Ok b /\
       forall stdout, git_rev_parse env (source_dir cfg l) = Some stdout ->
         Str.rstrip_nl <$> (Lines.readlines c !! 0) <> Some (Str.strip stdout) ->
         b = false) /\
  (forall stdout, FS.lookup (st_fs s) record = Some NDir ->
     git_rev_parse env (source_dir cfg l) = Some stdout ->
     (IsHashRelevant cfg env l record s).1 = Raise (OSError IsADirectoryError record) /\
     (InstallLibrary cfg env l s).1 = Raise (OSError IsADirectoryError record) /\
     st_fs (InstallLibrary cfg env l s).2 = st_fs s).
Proof.
  intros record Hg Hb. split; [|split].
  - intros Hex.
    assert (base_IsHashRelevant cfg env l record s = (Ok false, s)) as Hbase.
    { unfold base_IsHashRelevant, path_exists, bind, get_fs, ret. simpl. by rewrite Hex. }
    unfold IsHashRelevant. destruct (kind l); [|exact Hbase]. unfold bind. by rewrite Hbase.
  - intros c Hread.
    pose proof (base_IsHashRelevant_value cfg env l record s c Hread Hg) as Hval.
    destruct (base_IsHashRelevant_readable cfg env l record s c Hread)
      as (b & s1 & Hbase & Hfs & Hbh).
    rewrite Hbase in Hval. simpl in Hval. injection Hval as Hval.
    assert (forall stdout, git_rev_parse env (source_dir cfg l) = Some stdout ->
              Str.rstrip_nl <$> (Lines.readlines c !! 0) <> Some (Str.strip stdout) ->
              b = false) as Hfalse.
    { intros out Hout Hne. rewrite Hval, Hout. apply bool_decide_eq_false_2. congruence. }
    unfold IsHashRelevant. destruct (kind l) as [bd args dbg|rules].
    + unfold bind. rewrite Hbase. destruct b.
      * rewrite CheckBuildHash_fresh by congruence.
        unfold read_line_at. rewrite Hfs.
        assert (FS.exists_ (st_fs s) record = true) as ->.
        { unfold FS.read in Hread. unfold FS.exists_.
          by destruct (FS.lookup (st_fs s) record). }
        rewrite Hread. simpl. eexists. split; [reflexivity|].
        intros out Hout Hne. by specialize (Hfalse out Hout Hne).
      * exists false. by split.
    + rewrite Hbase. exists b. by split.
  - intros out Hdir Hout.
    assert (base_IsHashRelevant cfg env l record s =
            (Raise (OSError IsADirectoryError record),
             with_git_hash (with_events s [GitRevParse (source_dir cfg l)])
               (Some (Str.strip out)))) as Hbase.
    { unfold base_IsHashRelevant, path_exists, bind, get_fs, ret. simpl.
      unfold FS.exists_. rewrite Hdir. unfold CheckGitHash, try_except, bind.
      rewrite (GetGitHash_fresh _ _ _ _ Hg), Hout. rewrite ReadLineAt_run.
      unfold read_line_at, FS.exists_, FS.read. simpl. by rewrite Hdir. }
    assert (IsHashRelevant cfg env l record s =
            (Raise (OSError IsADirectoryError record),
             with_git_hash (with_events s [GitRevParse (source_dir cfg l)])
               (Some (Str.strip out)))) as Hcheck.
    { unfold IsHashRelevant. destruct (kind l); [|exact Hbase]. unfold bind. by rewrite Hbase. }
    split; [by rewrite Hcheck|].
    unfold InstallLibrary, bind. fold record. by rewrite Hcheck.
Qed.

Lemma C5_witness :
  let l := Sample.headers "" in
  let s := Sample.start Sample.record_is_dir_fs in
  let record := hash_file_of Sample.config l in
  (IsHashRelevant Sample.config Sample.env_ok l record s).1
    = Raise (OSError IsADirectoryError record) /\
  (InstallLibrary Sample.config Sample.env_ok l s).1
    = Raise (OSError IsADirectoryError record) /\
  st_fs (InstallLibrary Sample.config Sample.env_ok l s).2 = st_fs s.
Proof.
  intros l s record.
  refine (proj2 (proj2 (C5_record_read_errors_propagate Sample.config Sample.env_ok l s _ _))
            (Sample.line "4f2a9c1") _ _).
  - reflexivity.
  - reflexivity.
  - vm_compute. reflexivity.
  - reflexivity.
Defined.

(** ** What making a directory keeps *)

Lemma mkdir_parents_keeps p s r s' k n :
  mkdir_parents p s = (r, s') -> st_fs s !! k = Some n -> st_fs s' !! k = Some n.
Proof.
  unfold mkdir_parents, fs_op, bind, emit, get_fs, set_fs, raise. simpl.
  unfold FS.mkdir_parents. destruct (FS.exists_ (st_fs s) p).
  - intros [= <- <-]. done.
  - destruct (FS.makedirs (st_fs s) p) as [e|f'] eqn:E; intros [= <- <-]; simpl; [done|].
    intros H. eapply makedirs_keeps; eauto.
Qed.

(** ** Lines of text *)

Lemma str_app_assoc (a b c : string) : (a +:+ b) +:+ c = a +:+ (b +:+ c).
Proof. induction a as [|x a IH]; [done|]. by rewrite !str_app_cons, IH. Qed.

Lemma universal_line t X :
  Str.mem Str.cr t = false ->
  Lines.universal (terminated t +:+ X) = terminated t +:+ Lines.universal X.
Proof.
  unfold terminated. induction t as [|a t IH]; intros H.
  - rewrite !str_app_nil, !str_app_cons, !str_app_nil. reflexivity.
  - simpl in H. apply orb_false_iff in H as [Ha H]. rewrite !str_app_cons. simpl.
    rewrite Ha. by rewrite (IH H).
Qed.

Lemma cut_line t Y :
  Str.mem Str.nl t = false ->
  Lines.cut (terminated t +:+ Y) = terminated t :: Lines.cut Y.
Proof.
  unfold terminated. induction t as [|a t IH]; intros H.
  - rewrite !str_app_nil, !str_app_cons, !str_app_nil. reflexivity.
  - simpl in H. apply orb_false_iff in H as [Ha H]. rewrite !str_app_cons. simpl.
    rewrite Ha. by rewrite (IH H).
Qed.

(** A text that starts with a terminated line has it as its first line. *)
Lemma readlines_line t X :
  single_line t ->
  Lines.readlines (terminated t +:+ X) = terminated t :: Lines.readlines X.
Proof.
  intros [Hn Hc]. unfold Lines.readlines. by rewrite universal_line, cut_line.
Qed.

Lemma writelines_cons x xs : Lines.writelines (x :: xs) = x +:+ Lines.writelines xs.
Proof.
  unfold Lines.writelines. destruct xs as [|y ys]; simpl.
  - by rewrite str_app_empty_r.
  - by rewrite str_app_nil.
Qed.

Lemma list_ascii_app (a b : string) :
  list_ascii_of_string (a +:+ b) = list_ascii_of_string a ++ list_ascii_of_string b.
Proof. induction a as [|x a IH]; [done|]. rewrite str_app_cons. simpl. by rewrite IH. Qed.

Lemma string_of_list_app (a b : list ascii) :
  string_of_list_ascii (a ++ b) = string_of_list_ascii a +:+ string_of_list_ascii b.
Proof. induction a as [|x a IH]; [done|]. simpl. by rewrite IH, str_app_cons. Qed.

Lemma rev_rev (s : string) : Str.rev (Str.rev s) = s.
Proof.
  unfold Str.rev. rewrite list_ascii_of_string_of_list_ascii, List.rev_involutive.
  apply string_of_list_ascii_of_string.
Qed.

Lemma rev_terminated t : Str.rev (terminated t) = String Str.nl (Str.rev t).
Proof.
  unfold Str.rev, terminated. rewrite list_ascii_app. simpl. by rewrite List.rev_app_distr.
Qed.

Lemma mem_list c (s : string) :
  Str.mem c s = existsb (fun x => Ascii.eqb x c) (list_ascii_of_string s).
Proof. induction s as [|a s IH]; [done|]. simpl. by rewrite IH. Qed.

Lemma mem_rev c (s : string) : Str.mem c (Str.rev s) = Str.mem c s.
Proof.
  rewrite !mem_list. unfold Str.rev. rewrite list_ascii_of_string_of_list_ascii.
  induction (list_ascii_of_string s) as [|a l IH]; [done|].
  simpl. rewrite existsb_app, IH. simpl. rewrite orb_false_r. apply orb_comm.
Qed.

Lemma lstrip_nl_none (s : string) :
  Str.mem Str.nl s = false -> Str.lstrip_by (Ascii.eqb Str.nl) s = s.
Proof.
  destruct s as [|a s]; [done|]. intros H.
  change (Ascii.eqb a Str.nl || Str.mem Str.nl s = false) in H.
  apply orb_false_iff in H as [Ha _].
  change ((if Ascii.eqb Str.nl a then Str.lstrip_by (Ascii.eqb Str.nl) s else String a s)
          = String a s).
  by rewrite Ascii.eqb_sym, Ha.
Qed.

(** [rstrip("\n")] of a line without line feed, terminated or not. *)
Lemma rstrip_nl_line t : Str.mem Str.nl t = false -> Str.rstrip_nl t = t.
Proof.
  intros H. unfold Str.rstrip_nl, Str.rstrip_by.
  rewrite lstrip_nl_none by (by rewrite mem_rev). apply rev_rev.
Qed.

Lemma rstrip_nl_terminated t : Str.mem Str.nl t = false -> Str.rstrip_nl (terminated t) = t.
Proof.
  intros H. unfold Str.rstrip_nl, Str.rstrip_by. rewrite rev_terminated.
  change (Str.lstrip_by (Ascii.eqb Str.nl) (String Str.nl (Str.rev t)))
    with (Str.lstrip_by (Ascii.eqb Str.nl) (Str.rev t)).
  rewrite lstrip_nl_none by (by rewrite mem_rev). apply rev_rev.
Qed.

(** ** The record, written and read back *)

(** What a successful [WriteLineAt] leaves in the file: the old lines,
    padded, with line [n] replaced. *)
Lemma WriteLineAt_Ok p i t s s' :
  WriteLineAt p (S i) t s = (Ok tt, s') ->
  let old := match FS.read (st_fs s) p with
             | inr c => Lines.readlines c
             | inl _ => []
             end in
  FS.read (st_fs s') p =
    inr (Lines.writelines (<[i := terminated (Str.rstrip_nl t)]> (Lines.pad old (S i)))) /\
  git_hash s' = git_hash s /\ build_hash s' = build_hash s.
Proof.
  unfold WriteLineAt, mkdir_parents_exist_ok, write_file, path_exists, read_file, fs_op,
    bind, emit, get_fs, set_fs, ret, raise, set_line. simpl.
  destruct (FS.makedirs (st_fs s) (Path.parent p)) as [e|f1] eqn:E; [done|]. simpl.
  pose proof (makedirs_parent_lookup _ _ _ E) as Hl.
  unfold FS.exists_, FS.read, FS.write. rewrite Hl.
  destruct (FS.lookup (st_fs s) p) as [[|c]|] eqn:L; simpl; repeat (rewrite Hl; simpl).
  - done.
  - intros [= <-]. simpl. split; [|done].
    unfold FS.lookup in *. destruct (FS.is_anchor p); [done|]. by rewrite lookup_insert_eq.
  - destruct (FS.parent_error f1 p); [done|]. simpl.
    intros [= <-]. simpl. split; [|done].
    unfold FS.lookup in *. destruct (FS.is_anchor p); [done|]. by rewrite lookup_insert_eq.
Qed.

Lemma write_line_1 p h s s' :
  WriteLineAt p 1 h s = (Ok tt, s') -> Str.mem Str.nl h = false ->
  exists X, FS.read (st_fs s') p = inr (terminated h +:+ X).
Proof.
  intros Hw Hn. destruct (WriteLineAt_Ok _ _ _ _ _ Hw) as (Hr & _). rewrite Hr.
  rewrite (rstrip_nl_line h Hn).
  destruct (match FS.read (st_fs s) p with inr c => Lines.readlines c | inl _ => [] end)
    as [|x xs]; simpl; rewrite writelines_cons; eauto.
Qed.

Lemma write_line_2 p h1 h2 X s s' :
  FS.read (st_fs s) p = inr (terminated h1 +:+ X) -> single_line h1 ->
  WriteLineAt p 2 h2 s = (Ok tt, s') -> Str.mem Str.nl h2 = false ->
  exists Y, FS.read (st_fs s') p = inr (terminated h1 +:+ (terminated h2 +:+ Y)).
Proof.
  intros Hold H1 Hw Hn. destruct (WriteLineAt_Ok _ _ _ _ _ Hw) as (Hr & _). rewrite Hr.
  rewrite Hold, (readlines_line h1 X H1), (rstrip_nl_line h2 Hn).
  destruct (Lines.readlines X) as [|y ys]; simpl; rewrite !writelines_cons; eauto.
Qed.

Lemma read_line_1 f p h X :
  FS.read f p = inr (terminated h +:+ X) -> single_line h ->
  read_line_at f p 1 = Ok (Some h).
Proof.
  intros Hr Hs. unfold read_line_at.
  assert (FS.exists_ f p = true) as ->.
  { unfold FS.read in Hr. unfold FS.exists_. by destruct (FS.lookup f p). }
  rewrite Hr, (readlines_line h X Hs). simpl. f_equal. f_equal.
  apply rstrip_nl_terminated, Hs.
Qed.

Lemma read_line_2 f p h1 h2 Y :
  FS.read f p = inr (terminated h1 +:+ (terminated h2 +:+ Y)) ->
  single_line h1 -> single_line h2 ->
  read_line_at f p 2 = Ok (Some h2).
Proof.
  intros Hr H1 H2. unfold read_line_at.
  assert (FS.exists_ f p = true) as ->.
  { unfold FS.read in Hr. unfold FS.exists_. by destruct (FS.lookup f p). }
  rewrite Hr, (readlines_line h1 _ H1), (readlines_line h2 _ H2). simpl. f_equal. f_equal.
  apply rstrip_nl_terminated, H2.
Qed.

(** ** C6: the second run *)

Section SecondRun.

Variable cfg : Config.
Variable env : Env.
Variable l : Library.

Local Abbreviation record := (hash_file_of cfg l).

Lemma read_line_at_exists f p n v :
  read_line_at f p n = Ok (Some v) -> FS.exists_ f p = true.
Proof. unfold read_line_at. by destruct (FS.exists_ f p). Qed.

(** On a matching record the check of a new object says "up to date";
    it asks git once and changes nothing else. *)
Lemma IsHashRelevant_matches s :
  record_matches cfg env l (st_fs s) ->
  git_hash s = None -> build_hash s = None ->
  exists s',
    IsHashRelevant cfg env l record s = (Ok true, s') /\
    st_fs s' = st_fs s /\
    st_events s' = st_events s ++ [GitRevParse (source_dir cfg l)].
Proof.
  intros (out & Hgit & H1 & H2) Hg Hb.
  assert (base_IsHashRelevant cfg env l record s =
          (Ok true, with_git_hash (with_events s [GitRevParse (source_dir cfg l)])
                      (Some (Str.strip out)))) as Hbase.
  { unfold base_IsHashRelevant, path_exists, bind, get_fs, ret. simpl.
    rewrite (read_line_at_exists _ _ _ _ H1).
    unfold CheckGitHash, try_except, bind. rewrite (GetGitHash_fresh _ _ _ _ Hg), Hgit.
    rewrite ReadLineAt_run. simpl. rewrite H1. simpl.
    by rewrite bool_decide_eq_true_2. }
  unfold IsHashRelevant. unfold build_identity in H2.
  destruct (kind l) as [bd args dbg|rules].
  - unfold bind. rewrite Hbase. rewrite CheckBuildHash_fresh by done. simpl.
    rewrite (H2 _ eq_refl). rewrite bool_decide_eq_true_2 by done.
    eexists. split; [reflexivity|]. done.
  - rewrite Hbase. eexists. split; [reflexivity|]. done.
Qed.

(** A new object that says "up to date" has found a matching record. *)
Lemma IsHashRelevant_true s :
  git_hash s = None -> build_hash s = None ->
  (IsHashRelevant cfg env l record s).1 = Ok true ->
  record_matches cfg env l (st_fs s).
Proof.
  intros Hg Hb.
  assert (forall s1, base_IsHashRelevant cfg env l record s = (Ok true, s1) ->
            st_fs s1 = st_fs s /\ build_hash s1 = None /\
            exists out, git_rev_parse env (source_dir cfg l) = Some out /\
                        read_line_at (st_fs s) record 1 = Ok (Some (Str.strip out))) as Hbase.
  { intros s1. unfold base_IsHashRelevant, path_exists, bind, get_fs, ret. simpl.
    destruct (FS.exists_ (st_fs s) record); [|done].
    unfold CheckGitHash, try_except, bind. rewrite (GetGitHash_fresh _ _ _ _ Hg).
    destruct (git_rev_parse env (source_dir cfg l)) as [out|]; [|done].
    rewrite ReadLineAt_run. simpl.
    destruct (read_line_at (st_fs s) record 1) as [line|e|] eqn:R; simpl.
    - intros [= Hd <-]. simpl. split; [done|]. split; [done|].
      apply bool_decide_eq_true_1 in Hd. subst line. eauto.
    - by destruct (is_CalledProcessError e).
    - done. }
  unfold IsHashRelevant, record_matches, build_identity.
  destruct (kind l) as [bd args dbg|rules].
  - unfold bind.
    destruct (base_IsHashRelevant cfg env l record s) as [[[|]|e|] s1] eqn:E; try done.
    destruct (Hbase s1 eq_refl) as (Hfs & Hb1 & out & Hgit & H1).
    rewrite CheckBuildHash_fresh by done. rewrite Hfs.
    destruct (read_line_at (st_fs s) record 2) as [line|e|] eqn:R; simpl; try done.
    intros [= Hd]. apply bool_decide_eq_true_1 in Hd. subst line.
    exists out. split; [done|]. split; [done|]. by intros h [= <-].
  - destruct (base_IsHashRelevant cfg env l record s) as [[[|]|e|] s1] eqn:E; try done.
    destruct (Hbase s1 eq_refl) as (Hfs & Hb1 & out & Hgit & H1). intros _.
    exists out. split; [done|]. split; [done|]. done.
Qed.

(** The check of a new object leaves memoised what git and the digest
    give. *)
Lemma IsHashRelevant_memo_ok s :
  git_hash s = None -> build_hash s = None ->
  memo_ok cfg env l (IsHashRelevant cfg env l record s).2.
Proof.
  intros Hg Hb.
  assert (let s1 := (base_IsHashRelevant cfg env l record s).2 in
          build_hash s1 = None /\
          forall h, git_hash s1 = Some h ->
            exists out, git_rev_parse env (source_dir cfg l) = Some out /\ h = Str.strip out)
    as Hbase.
  { unfold base_IsHashRelevant, path_exists, bind, get_fs, ret. simpl.
    destruct (FS.exists_ (st_fs s) record); simpl; [|split; [done|by rewrite Hg]].
    unfold CheckGitHash, try_except, bind. rewrite (GetGitHash_fresh _ _ _ _ Hg).
    destruct (git_rev_parse env (source_dir cfg l)) as [out|]; simpl.
    - rewrite ReadLineAt_run. simpl.
      destruct (read_line_at _ record 1) as [line|e|]; simpl.
      + split; [done|]. intros h [= <-]. eauto.
      + destruct (is_CalledProcessError e); simpl; (split; [done|]); intros h [= <-]; eauto.
      + split; [done|]. intros h [= <-]. eauto.
    - split; [done|]. by rewrite Hg. }
  unfold IsHashRelevant, memo_ok, build_identity.
  destruct (kind l) as [bd args dbg|rules].
  - unfold bind.
    destruct (base_IsHashRelevant cfg env l record s) as [[[|]|e|] s1] eqn:E;
      simpl in *; destruct Hbase as [Hb1 Hg1].
    + rewrite CheckBuildHash_fresh by done.
      destruct (read_line_at (st_fs s1) record 2); simpl; (split; [done|]); by intros h [= <-].
    + split; [done|]. by rewrite Hb1.
    + split; [done|]. by rewrite Hb1.
    + split; [done|]. by rewrite Hb1.
  - destruct Hbase as [Hb1 Hg1]. split; [done|]. by rewrite Hb1.
Qed.

(** A successful [WriteHash] leaves a matching record. *)
Lemma WriteHash_matches s s' :
  memo_ok cfg env l s ->
  (forall stdout, git_rev_parse env (source_dir cfg l) = Some stdout ->
                  single_line (Str.strip stdout)) ->
  (forall h, build_identity env l = Some h -> single_line h) ->
  WriteHash cfg env l record s = (Ok tt, s') ->
  record_matches cfg env l (st_fs s').
Proof.
  intros [Hmg Hmb] Hsl Hsb.
  assert (forall s1, base_WriteHash cfg env l record s = (Ok tt, s1) ->
            build_hash s1 = build_hash s /\
            exists out X, git_rev_parse env (source_dir cfg l) = Some out /\
              FS.read (st_fs s1) record = inr (terminated (Str.strip out) +:+ X)) as Hbase.
  { intros s1. unfold base_WriteHash. unfold bind at 1.
    destruct (git_hash s) as [h|] eqn:G.
    - rewrite (GetGitHash_memo _ _ _ _ _ G). intros Hw.
      destruct (Hmg h eq_refl) as (out & Hgit & ->).
      destruct (WriteLineAt_Ok _ _ _ _ _ Hw) as (_ & _ & Hbh).
      destruct (write_line_1 _ _ _ _ Hw (proj1 (Hsl _ Hgit))) as [X HX]. eauto 6.
    - rewrite (GetGitHash_fresh _ _ _ _ G).
      destruct (git_rev_parse env (source_dir cfg l)) as [out|] eqn:Hgit; [|done].
      intros Hw.
      destruct (WriteLineAt_Ok _ _ _ _ _ Hw) as (_ & _ & Hbh).
      destruct (write_line_1 _ _ _ _ Hw (proj1 (Hsl _ eq_refl))) as [X HX]. eauto 6. }
  unfold WriteHash, record_matches. unfold build_identity in *.
  destruct (kind l) as [bd args dbg|rules].
  - unfold bind at 1.
    destruct (base_WriteHash cfg env l record s) as [[[]|e|] s1] eqn:E; try done.
    destruct (Hbase s1 eq_refl) as (Hbh & out & X & Hgit & Hread).
    pose proof (Hsb _ eq_refl) as Hsingle.
    assert (forall s2, st_fs s2 = st_fs s1 ->
              WriteLineAt record 2 (md5_hexdigest env (Str.join "|" args)) s2 = (Ok tt, s') ->
              exists out0, git_rev_parse env (source_dir cfg l) = Some out0 /\
                read_line_at (st_fs s') record 1 = Ok (Some (Str.strip out0)) /\
                forall h, Some (md5_hexdigest env (Str.join "|" args)) = Some h ->
                          read_line_at (st_fs s') record 2 = Ok (Some h)) as Hfin.
    { intros s2 Hfs Hw. rewrite <- Hfs in Hread.
      destruct (write_line_2 _ _ _ _ _ _ Hread (Hsl _ Hgit) Hw (proj1 Hsingle)) as [Y HY].
      exists out. split; [done|]. split.
      - eapply read_line_1; [exact HY | by apply Hsl].
      - intros h [= <-]. eapply read_line_2; [exact HY | by apply Hsl | done]. }
    unfold bind. destruct (build_hash s1) as [h|] eqn:B.
    + rewrite (GetBuildHash_memo _ _ _ _ B).
      assert (build_hash s = Some h) as Bs by (by rewrite <- Hbh).
      pose proof (Hmb h Bs) as [= <-].
      intros Hw. exact (Hfin s1 eq_refl Hw).
    + rewrite (GetBuildHash_fresh _ _ _ B). intros Hw.
      eapply Hfin; [|exact Hw]. reflexivity.
  - intros Hw. destruct (Hbase s' Hw) as (_ & out & X & Hgit & Hread).
    exists out. split; [done|]. split; [|done].
    eapply read_line_1; [exact Hread | by apply Hsl].
Qed.

End SecondRun.

Lemma memo_ok_transfer cfg env l s s' :
  memo_ok cfg env l s -> memo_is (git_hash s) (build_hash s) s' -> memo_ok cfg env l s'.
Proof. intros [H1 H2] [Hg Hb]. unfold memo_ok. by rewrite Hg, Hb. Qed.

(** C6: after an [InstallLibrary] that ended normally, on an object that
    had nothing memoised, with identities that are single lines, the
    record holds the identities of the library (line 1 the revision, and
    for a CMake library line 2 the build identity), and [InstallLibrary]
    on a new object in the state reached is a cache hit: it asks git for
    the revision, logs "up to date" and ends normally, with the file
    system unchanged: no build, no copy, no write of the record. *)
Theorem C6_second_run_is_a_cache_hit cfg env l s s1 :
  git_hash s = None -> build_hash s = None ->
  (forall stdout, git_rev_parse env (source_dir cfg l) = Some stdout ->
                  single_line (Str.strip stdout)) ->
  (forall h, build_identity env l = Some h -> single_line h) ->
  InstallLibrary cfg env l s = (Ok tt, s1) ->
  record_matches cfg env l (st_fs s1) /\
  exists s2,
    InstallLibrary cfg env l (fresh s1) = (Ok tt, s2) /\
    st_fs s2 = st_fs s1 /\
    st_events s2 =
      st_events s1 ++ [GitRevParse (source_dir cfg l); Log Info (MsgUpToDate (lib_name l))].
Proof.
  intros Hg Hb Hsl Hsb Hrun.
  assert (record_matches cfg env l (st_fs s1)) as Hrec.
  { rewrite InstallLibrary_eq in Hrun. unfold bind at 1 in Hrun.
    destruct (before_build cfg env l s) as [[[|]|e|] sb] eqn:Hbefore; try done.
    - (* the first run was a cache hit itself *)
      injection Hrun as <-. simpl.
      unfold before_build in Hbefore. unfold bind at 1 in Hbefore.
      pose proof (IsHashRelevant_fs cfg env l (hash_file_of cfg l) s) as Hfs.
      pose proof (IsHashRelevant_true cfg env l s Hg Hb) as Htrue.
      destruct (IsHashRelevant cfg env l (hash_file_of cfg l) s) as [[[|]|e|] s'] eqn:E;
        simpl in *.
      + injection Hbefore as <-. rewrite Hfs. by apply Htrue.
      + exfalso. revert Hbefore. unfold bind, path_exists, get_fs, ret, log, emit. simpl.
        repeat (match goal with
                | |- context [match ?x with _ => _ end] => destruct x
                end; try done).
      + done.
      + done.
    - (* the first run built and wrote the record *)
      unfold bind at 1 in Hrun.
      destruct (BuildAndInstall cfg env l sb) as [[[]|e|] s3] eqn:Hbuild; try done.
      unfold after_build, bind, log, emit in Hrun.
      destruct (WriteHash cfg env l (hash_file_of cfg l) s3) as [[[]|e|] s4] eqn:Hw; try done.
      injection Hrun as <-. simpl.
      eapply WriteHash_matches; [|exact Hsl|exact Hsb|exact Hw].
      pose proof (IsHashRelevant_memo_ok cfg env l s Hg Hb) as Hok.
      eapply memo_ok_transfer; [exact Hok|].
      eapply (always_BuildAndInstall (memo_is _ _)); [|exact Hbuild].
      eapply before_build_memo; [exact Hbefore|]. done. }
  split; [exact Hrec|].
  destruct (IsHashRelevant_matches cfg env l (fresh s1) Hrec eq_refl eq_refl)
    as (s' & Hcheck & Hfs & Hev).
  exists (with_events s' [Log Info (MsgUpToDate (lib_name l))]).
  split; [|split].
  - unfold InstallLibrary. unfold bind. rewrite Hcheck. reflexivity.
  - exact Hfs.
  - simpl. rewrite Hev. simpl. by rewrite <- app_assoc.
Qed.

Lemma C6_witness :
  let l := Sample.cmake_lib ["-DA=1"; "-DB=2"] true in
  let s1 := (InstallLibrary Sample.config Sample.env_ok l (Sample.start Sample.headers_fs)).2 in
  record_matches Sample.config Sample.env_ok l (st_fs s1) /\
  exists s2,
    InstallLibrary Sample.config Sample.env_ok l (fresh s1) = (Ok tt, s2) /\
    st_fs s2 = st_fs s1 /\
    st_events s2 =
      st_events s1 ++ [GitRevParse (source_dir Sample.config l);
                       Log Info (MsgUpToDate (lib_name l))].
Proof.
  intros l s1.
  refine (C6_second_run_is_a_cache_hit Sample.config Sample.env_ok l
            (Sample.start Sample.headers_fs) s1 _ _ _ _ _).
  - reflexivity.
  - reflexivity.
  - intros stdout [= <-]. vm_compute. done.
  - intros h [= <-]. vm_compute. done.
  - exact (run_eq (InstallLibrary Sample.config Sample.env_ok l
                     (Sample.start Sample.headers_fs)) _ ltac:(vm_compute; reflexivity)).
Defined.

(** ** C9: the install directory and the CMake build

    The events of a CMake build are watched by a monitor that follows
    what has happened to the install directory [inst]. *)

Section Monitor.

Variable inst : path.











End Monitor.

(** *** The build directories *)

Lemma split_no_sep sep (s x : string) : x ∈ Str.split sep s -> Str.mem sep x = false.
Proof.
  revert x. induction s as [|a s IH]; intros x; simpl.
  - by intros ->%list_elem_of_singleton.
  - destruct (Ascii.eqb a sep) eqn:E.
    + intros [->|Hx]%elem_of_cons; [done|]. by apply IH.
    + destruct (Str.split sep s) as [|y ys] eqn:S.
      * intros ->%list_elem_of_singleton. simpl. by rewrite E.
      * intros [->|Hx]%elem_of_cons.
        -- simpl. rewrite E. simpl. apply IH. apply elem_of_cons. by left.
        -- apply IH. apply elem_of_cons. by right.
Qed.

Lemma is_root_has_slash x : Path.is_root x = true -> Str.mem "/" x = true.
Proof.
  unfold Path.is_root. intros [H|H]%orb_true_iff; apply String.eqb_eq in H; by subst.
Qed.

(** The parts of a relative path string: none is a root. *)
Lemma parse_relative s :
  Path.root_of s = None -> Forall (fun x => Path.is_root x = false) (Path.parse s).
Proof.
  intros H. unfold Path.parse. rewrite H. apply Forall_forall. intros x Hx.
  apply list_elem_of_In, filter_In in Hx as [Hx _]. apply list_elem_of_In in Hx.
  destruct (Path.is_root x) eqn:R; [|done].
  apply is_root_has_slash in R. by rewrite (split_no_sep _ _ _ Hx) in R.
Qed.

Lemma join_relative p q :
  Forall (fun x => Path.is_root x = false) q -> Path.join p q = p ++ q.
Proof.
  intros H. unfold Path.join. destruct q as [|r q]; [by rewrite app_nil_r|].
  apply Forall_cons in H as [-> _]. done.
Qed.

Lemma root_of_char c r : Path.root_of (String c r) = None <-> c <> "/"%char.
Proof.
  split.
  - intros H ->. destruct r as [|c1 r1]; [done|].
    destruct (ascii_dec c1 "/") as [->|Hne].
    + destruct r1 as [|c2 r2]; [done|]. by destruct c2 as [[] [] [] [] [] [] [] []].
    + by destruct c1 as [[] [] [] [] [] [] [] []].
  - intros H. destruct c as [[] [] [] [] [] [] [] []]; try done.
Qed.

Lemma root_of_app a b :
  Path.root_of a = None -> Path.root_of (a +:+ String "-" b) = None.
Proof.
  destruct a as [|c a]; [done|]. rewrite str_app_cons.
  intros H. apply root_of_char. by apply root_of_char in H.
Qed.

(** With a relative [build_dir], every candidate is below the source
    directory. *)
Lemma candidate_below cfg l build_dir n :
  Path.root_of (Path.to_str build_dir) = None ->
  source_dir cfg l `prefix_of` candidate cfg l build_dir n.
Proof.
  intros H. destruct n as [|n]; simpl.
  - unfold Path.join. destruct build_dir as [|r q]; [done|].
    destruct (Path.is_root r) eqn:R; [|by apply prefix_app_r].
    exfalso. unfold Path.to_str in H. rewrite R in H.
    unfold Path.is_root in R. apply orb_true_iff in R as [R|R]; apply String.eqb_eq in R;
      subst r; rewrite !str_app_cons in H; by apply root_of_char in H.
  - unfold Path.join_str. rewrite join_relative; [by apply prefix_app_r|].
    apply parse_relative. change ("-" +:+ str_of_nat (S n)) with (String "-" (str_of_nat (S n))).
    by apply root_of_app.
Qed.


(** *** The events of the operations *)

Lemma log_run msg ty s : log msg ty s = (Ok tt, with_events s [Log ty msg]).
Proof. reflexivity. Qed.



Lemma rmtree_events p s : st_events (rmtree p s).2 = st_events s ++ [Rmtree p].
Proof.
  unfold rmtree, fs_op, bind, emit, get_fs, set_fs, raise. simpl.
  by destruct (FS.rmtree (st_fs s) p).
Qed.



Lemma path_exists_run p s : path_exists p s = (Ok (FS.exists_ (st_fs s) p), s).
Proof. reflexivity. Qed.



(** A subprocess: its event, and its outcome, which says whether it
    succeeded. *)
Lemma subprocess_run_run env cmd cwd s :
  let ok := (run_process env cmd cwd (st_fs s)).1 in
  st_events (subprocess_run env cmd cwd s).2 = st_events s ++ [Exec cmd cwd ok] /\
  (subprocess_run env cmd cwd s).1 = if ok then Ok tt else Raise (CalledProcessError cmd).
Proof.
  unfold subprocess_run, bind, get_fs, emit, set_fs, ret, raise. simpl.
  by destruct (run_process env cmd cwd (st_fs s)) as [[|] f'].
Qed.

(** *** What the file system operations leave alone *)



Lemma write_file_fs q c s k :
  k <> q -> st_fs (write_file q c s).2 !! k = st_fs s !! k.
Proof.
  intros Hk. unfold write_file, fs_op, bind, emit, get_fs, set_fs, raise. simpl.
  destruct (FS.write (st_fs s) q c) as [e|f'] eqn:E; simpl; [done|].
  unfold FS.write in E. repeat case_match; simplify_eq; by rewrite lookup_insert_ne.
Qed.

Lemma rmtree_fs q s k :
  ~ q `prefix_of` k -> st_fs (rmtree q s).2 !! k = st_fs s !! k.
Proof.
  intros Hk. unfold rmtree, fs_op, bind, emit, get_fs, set_fs, raise. simpl.
  destruct (FS.rmtree (st_fs s) q) as [e|f'] eqn:E; simpl; [done|].
  unfold FS.rmtree in E. repeat case_match; simplify_eq. unfold FS.remove_tree.
  destruct (st_fs s !! k) as [n|] eqn:L.
  - by apply map_lookup_filter_Some_2.
  - apply map_lookup_filter_None_2. by left.
Qed.

Lemma unlink_fs q s k :
  k <> q -> st_fs (unlink q s).2 !! k = st_fs s !! k.
Proof.
  intros Hk. unfold unlink, fs_op, bind, emit, get_fs, set_fs, raise. simpl.
  destruct (FS.unlink (st_fs s) q) as [e|f'] eqn:E; simpl; [done|].
  unfold FS.unlink in E. repeat case_match; simplify_eq. by rewrite lookup_delete_ne.
Qed.



Lemma subprocess_run_cases env cmd cwd s :
  exists (ok : bool) s1,
    subprocess_run env cmd cwd s
      = (if ok then Ok tt else Raise (CalledProcessError cmd), s1) /\
    st_events s1 = st_events s ++ [Exec cmd cwd ok] /\
    st_fs s1 = (run_process env cmd cwd (st_fs s)).2.
Proof.
  unfold subprocess_run, bind, get_fs, emit, set_fs, ret, raise. simpl.
  destruct (run_process env cmd cwd (st_fs s)) as [[|] f']; simpl.
  - by exists true, {| st_fs := f'; st_events := st_events s ++ [Exec cmd cwd true];
                       git_hash := git_hash s; build_hash := build_hash s |}.
  - by exists false, {| st_fs := f'; st_events := st_events s ++ [Exec cmd cwd false];
                        git_hash := git_hash s; build_hash := build_hash s |}.
Qed.

(** *** The trace of a CMake build *)

Section CMakeTrace.

Variable cfg : Config.
Variable env : Env.
Variable l : Library.
Variable build_dir : path.

Local Abbreviation inst := (install_dir cfg l).
Local Abbreviation cand := (candidate cfg l build_dir).

(** The build directory is relative, and the install directory is not
    inside the source directory of the library. *)
Hypothesis build_dir_relative : Path.root_of (Path.to_str build_dir) = None.
Hypothesis install_outside : ~ source_dir cfg l `prefix_of` install_dir cfg l.































End CMakeTrace.





(** ** Every run has an outcome

    The only loop without a bound is the search for a build directory
    nobody has locked.  The candidates [build-1], [build-2], ... are
    pairwise different, so are their lock files, and other processes hold
    finitely many locks: the search finds a free one. *)

Lemma split_without_sep sep t : Str.mem sep t = false -> Str.split sep t = [t].
Proof.
  induction t as [|c t IH]; [done|]. simpl.
  intros [-> Ht]%orb_false_iff. by rewrite (IH Ht).
Qed.

(** Appending a string without separator extends the last piece. *)
Lemma split_app_last sep B t :
  Str.mem sep t = false ->
  exists I X, Str.split sep B = I ++ [X] /\ Str.split sep (B +:+ t) = I ++ [X +:+ t].
Proof.
  intros Ht. induction B as [|c B (I & X & H1 & H2)].
  - exists [], "". by rewrite str_app_nil, (split_without_sep _ _ Ht).
  - rewrite str_app_cons. simpl. rewrite H1, H2. destruct (Ascii.eqb c sep).
    + by exists ("" :: I), X.
    + destruct I as [|y I]; simpl.
      * by exists [], (String c X).
      * by exists (String c y :: I), X.
Qed.

Lemma str_app_inv_head (x a b : string) : x +:+ a = x +:+ b -> a = b.
Proof.
  induction x as [|c x IH]; [done|]. rewrite !str_app_cons. intros [= H]. by apply IH.
Qed.

Lemma digits_no_slash d : Str.mem "/" (NilEmpty.string_of_uint d) = false.
Proof. induction d; simpl; done. Qed.

Lemma str_of_nat_inj n m : str_of_nat n = str_of_nat m -> n = m.
Proof.
  unfold str_of_nat. intros H.
  apply (f_equal NilEmpty.uint_of_string) in H. rewrite !NilEmpty.usu in H.
  injection H as H. apply (f_equal Nat.of_uint) in H.
  by rewrite !DecimalNat.Unsigned.of_to in H.
Qed.

Lemma keep_part_suffixed X t : Path.keep_part (X +:+ String "-" t) = true.
Proof.
  unfold Path.keep_part.
  destruct X as [|c [|c' X]]; rewrite ?str_app_cons, ?str_app_nil; simpl; [done| |].
  - by destruct (Ascii.eqb c ".").
  - by destruct (Ascii.eqb c ".").
Qed.

Lemma last_join p q x : last (Path.join p (q ++ [x])) = Some x.
Proof.
  unfold Path.join. destruct (q ++ [x]) as [|r q'] eqn:E; [by destruct q|].
  destruct (Path.is_root r); rewrite <- E; [|rewrite app_assoc]; apply last_snoc.
Qed.

(** The name of the candidate [build-n]: that of [build], followed by
    [-n]. *)
Lemma candidate_last cfg l build_dir :
  exists X, forall n,
    last (candidate cfg l build_dir (S n)) = Some (X +:+ String "-" (str_of_nat (S n))).
Proof.
  destruct (split_app_last "/" (Path.to_str build_dir) "-") as (I & X & H1 & _); [done|].
  exists X. intros n. unfold candidate, Path.join_str.
  change (Path.to_str build_dir +:+ "-" +:+ str_of_nat (S n))
    with (Path.to_str build_dir +:+ String "-" (str_of_nat (S n))).
  destruct (split_app_last "/" (Path.to_str build_dir) (String "-" (str_of_nat (S n))))
    as (I' & X' & H1' & H2').
  { simpl. apply digits_no_slash. }
  rewrite H1 in H1'. apply app_inj_tail in H1' as [<- <-].
  unfold Path.parse. rewrite H2', List.filter_app. simpl. rewrite keep_part_suffixed.
  destruct (Path.root_of _); [rewrite app_comm_cons|]; apply last_join.
Qed.

Lemma candidate_inj cfg l build_dir n m :
  candidate cfg l build_dir (S n) = candidate cfg l build_dir (S m) -> n = m.
Proof.
  destruct (candidate_last cfg l build_dir) as [X HX]. intros H.
  pose proof (HX n) as Hn. rewrite H, HX in Hn. injection Hn as Hn.
  apply str_app_inv_head in Hn. injection Hn as Hn.
  apply str_of_nat_inj in Hn. by injection Hn.
Qed.

Section Returns.

Context {Σ : Type}.

Lemma returns_ret {A} (a : A) : returns (@ret Σ A a).
Proof. by intros s. Qed.

Lemma returns_raise {A} (e : exn) : returns (@raise Σ A e).
Proof. by intros s. Qed.

Lemma returns_bind {A B} (m : Prog Σ A) (k : A -> Prog Σ B) :
  returns m -> (forall a, returns (k a)) -> returns (bind m k).
Proof.
  intros Hm Hk s. unfold bind. specialize (Hm s).
  destruct (m s) as [[a|e|] s1]; [apply Hk|done..].
Qed.

Lemma returns_try_except {A} (m : Prog Σ A) handles (handler : exn -> Prog Σ A) :
  returns m -> (forall e, returns (handler e)) -> returns (try_except m handles handler).
Proof.
  intros Hm Hh s. unfold try_except. specialize (Hm s).
  destruct (m s) as [[a|e|] s1]; [done| |done].
  destruct (handles e); [apply Hh|done].
Qed.

Lemma returns_try_finally {A} (m : Prog Σ A) (cleanup : Prog Σ unit) :
  returns m -> returns cleanup -> returns (try_finally m cleanup).
Proof.
  intros Hm Hc s. unfold try_finally. specialize (Hm s).
  destruct (m s) as [[a|e|] s1]; [| |done];
    specialize (Hc s1); by destruct (cleanup s1) as [[[]|e'|] s2].
Qed.

Lemma returns_for_each {A} (l : list A) (body : A -> Prog Σ unit) :
  (forall x, returns (body x)) -> returns (for_each l body).
Proof.
  intros Hb. induction l as [|x l IH]; simpl.
  - apply returns_ret.
  - apply returns_bind; [apply Hb | intros _; exact IH].
Qed.

End Returns.

Lemma returns_lift {Λ A} (m : M A) : returns m -> returns (@lift Λ A m).
Proof.
  intros Hm [loc s]. unfold lift. simpl. specialize (Hm s). by destruct (m s).
Qed.

Lemma returns_with_locals {Λ A} (init : Λ) (m : Prog (Λ * State) A) :
  returns m -> returns (with_locals init m).
Proof.
  intros Hm s. unfold with_locals. specialize (Hm (init, s)).
  by destruct (m (init, s)) as [r1 [loc1 s1]].
Qed.

Ltac returns_step :=
  lazymatch goal with
  | |- returns (bind _ _) => apply returns_bind; [|intros ?]
  | |- returns (ret _) => apply returns_ret
  | |- returns (raise _) => apply returns_raise
  | |- returns (try_except _ _ _) => apply returns_try_except; [|intros ?]
  | |- returns (try_finally _ _) => apply returns_try_finally
  | |- returns (for_each _ _) => apply returns_for_each; intros ?
  | |- returns (lift _) => apply returns_lift
  | |- returns (with_locals _ _) => apply returns_with_locals
  | |- returns (match ?x with _ => _ end) => destruct x
  end.

Create HintDb returns.

Ltac returns_auto := repeat returns_step; eauto with returns; try (by intros ?).

Lemma returns_fs_op op : returns (fs_op op).
Proof. unfold fs_op. returns_auto. Qed.

Lemma returns_path_exists p : returns (path_exists p).
Proof. unfold path_exists. returns_auto. Qed.

Lemma returns_read_file p : returns (read_file p).
Proof. unfold read_file. returns_auto. Qed.

#[export] Hint Resolve returns_fs_op returns_path_exists returns_read_file : returns.

Lemma returns_mkdir_parents_exist_ok p : returns (mkdir_parents_exist_ok p).
Proof. unfold mkdir_parents_exist_ok. returns_auto. Qed.

Lemma returns_mkdir_parents p : returns (mkdir_parents p).
Proof. unfold mkdir_parents. returns_auto. Qed.

Lemma returns_rmtree p : returns (rmtree p).
Proof. unfold rmtree. returns_auto. Qed.

Lemma returns_unlink p : returns (unlink p).
Proof. unfold unlink. returns_auto. Qed.

Lemma returns_copy2 src dst : returns (copy2 src dst).
Proof. unfold copy2. returns_auto. Qed.

Lemma returns_copytree src dst : returns (copytree src dst).
Proof. unfold copytree. returns_auto. Qed.

Lemma returns_write_file p c : returns (write_file p c).
Proof. unfold write_file. returns_auto. Qed.

#[export] Hint Resolve returns_mkdir_parents_exist_ok returns_mkdir_parents returns_rmtree
  returns_unlink returns_copy2 returns_copytree returns_write_file : returns.

Lemma returns_WriteLineAt p n text : returns (WriteLineAt p n text).
Proof. unfold WriteLineAt. returns_auto. Qed.

Lemma returns_ReadLineAt p n : returns (ReadLineAt p n).
Proof. unfold ReadLineAt. returns_auto. Qed.

Lemma returns_subprocess_run env cmd cwd : returns (subprocess_run env cmd cwd).
Proof. unfold subprocess_run. returns_auto. Qed.

#[export] Hint Resolve returns_WriteLineAt returns_ReadLineAt returns_subprocess_run : returns.

Section ReturnsOps.

Variable cfg : Config.
Variable env : Env.

Lemma returns_AcquireLock lock_file : returns (_AcquireLock env lock_file).
Proof. unfold _AcquireLock. returns_auto. Qed.

Lemma returns_IsGeneratorMultiConfig d : returns (IsGeneratorMultiConfig d).
Proof. unfold IsGeneratorMultiConfig. returns_auto. Qed.

Lemma returns_purge_item d name : returns (purge_item d name).
Proof. unfold purge_item. returns_auto. Qed.

Lemma returns_iterdir d : returns (iterdir d).
Proof. unfold iterdir. returns_auto. Qed.

Hint Resolve returns_AcquireLock returns_IsGeneratorMultiConfig returns_purge_item
  returns_iterdir : returns.

(** The lock is refused exactly when somebody else holds it. *)
Lemma AcquireLock_value lock_file s lock s' :
  _AcquireLock env lock_file s = (Ok lock, s') ->
  lock = negb (bool_decide (lock_file ∈ locked_elsewhere env)).
Proof.
  unfold _AcquireLock, bind, ret.
  destruct (mkdir_parents_exist_ok _ s) as [[[]|e|] s1]; [|done..].
  destruct (write_file lock_file "" s1) as [[[]|e|] s2]; [|done..].
  by intros [= <- _].
Qed.

(** When the search is cut off, every lock file it has tried is held
    elsewhere: that of the directory it started with, and those of the
    candidates that follow. *)
Lemma lock_loop_cut_off l build_dir fuel loc s ls' :
  lock_loop cfg env l build_dir fuel (loc, s) = (Diverge, ls') ->
  (0 < fuel -> Path.join_str (l_build_dir loc) ".lock" ∈ locked_elsewhere env) /\
  forall i, 1 <= i -> i < fuel ->
    Path.join_str (candidate cfg l build_dir (l_n loc + i)) ".lock" ∈ locked_elsewhere env.
Proof.
  revert loc s. induction fuel as [|fuel IH]; intros loc s Hrun; [split; intros; lia|].
  cbn [lock_loop] in Hrun. unfold bind at 1 in Hrun. unfold get_locals at 1 in Hrun.
  unfold bind at 1 in Hrun. unfold lift at 1 in Hrun. cbn [fst snd] in Hrun.
  pose proof (returns_AcquireLock (Path.join_str (l_build_dir loc) ".lock") s) as HA.
  destruct (_AcquireLock env (Path.join_str (l_build_dir loc) ".lock") s)
    as [[lock|e|] s1] eqn:EA; cbn [fst snd] in *; [|done..].
  apply AcquireLock_value in EA.
  unfold bind at 1 in Hrun. unfold set_lock at 1, set_locals at 1 in Hrun.
  cbn [fst snd] in Hrun. destruct lock.
  - exfalso. revert Hrun.
    match goal with |- ?m ?x = _ -> _ =>
      assert (returns m) as Hr by returns_auto; specialize (Hr x);
      destruct (m x) as [r' ls'']; by intros [= -> _]
    end.
  - symmetry in EA. apply negb_false_iff, bool_decide_eq_true in EA.
    unfold bind at 1 in Hrun. unfold set_build_dir at 1, set_locals at 1 in Hrun.
    cbn [fst snd] in Hrun. apply IH in Hrun as [H0 Hi]. cbn [l_build_dir l_n] in *.
    split; [done|]. intros i Hi1 Hi2.
    destruct (decide (i = 1)) as [->|Hne].
    + replace (l_n loc + 1) with (S (l_n loc)) by lia. apply H0. lia.
    + replace (l_n loc + i) with (S (l_n loc) + (i - 1)) by lia. apply Hi; lia.
Qed.

Lemma lock_file_inj l build_dir n m :
  Path.join_str (candidate cfg l build_dir (S n)) ".lock"
  = Path.join_str (candidate cfg l build_dir (S m)) ".lock" -> n = m.
Proof.
  change (Path.join_str ?d ".lock") with (d ++ [".lock"]).
  intros [H _]%app_inj_tail. by eapply candidate_inj.
Qed.

(** The search for a build directory ends. *)
Lemma returns_lock_loop l build_dir :
  returns (lock_loop cfg env l build_dir (S (S (List.length (locked_elsewhere env))))).
Proof.
  intros [loc s] Hd.
  destruct (lock_loop cfg env l build_dir _ (loc, s)) as [r ls'] eqn:E.
  simpl in Hd. subst r. apply lock_loop_cut_off in E as [_ Hi].
  set (tried := (fun i => Path.join_str (candidate cfg l build_dir (S (l_n loc + i))) ".lock")
                <$> seq 0 (S (List.length (locked_elsewhere env)))).
  assert (NoDup tried) as Hnd.
  { apply NoDup_fmap_2; [|apply NoDup_seq].
    intros i j H. apply lock_file_inj in H. lia. }
  assert (tried ⊆+ locked_elsewhere env) as Hsub.
  { apply NoDup_submseteq; [done|]. intros x (i & -> & Hin)%list_elem_of_fmap.
    apply elem_of_seq in Hin. replace (S (l_n loc + i)) with (l_n loc + S i) by lia.
    apply Hi; lia. }
  apply submseteq_length in Hsub. unfold tried in Hsub.
  rewrite length_fmap, length_seq in Hsub. lia.
Qed.

Hint Resolve returns_lock_loop : returns.

Lemma returns_build_config l configs isMulti config :
  returns (build_config cfg env l configs isMulti config).
Proof. unfold build_config. returns_auto. Qed.

Hint Resolve returns_build_config : returns.

Lemma returns_cmake_try l build_dir extra_args build_debug :
  returns (cmake_try cfg env l build_dir extra_args build_debug).
Proof. unfold cmake_try. returns_auto. Qed.

Hint Resolve returns_cmake_try : returns.

Lemma returns_CMake_BuildAndInstall l build_dir extra_args build_debug :
  returns (CMake_BuildAndInstall cfg env l build_dir extra_args build_debug).
Proof. unfold CMake_BuildAndInstall. returns_auto. Qed.

Lemma returns_copy_match l glob_root dst_subdir full_path :
  returns (copy_match cfg l glob_root dst_subdir full_path).
Proof. unfold copy_match. returns_auto. Qed.

Hint Resolve returns_copy_match returns_CMake_BuildAndInstall : returns.

Lemma returns_apply_rule l rule : returns (apply_rule cfg l rule).
Proof. unfold apply_rule. returns_auto. Qed.

Hint Resolve returns_apply_rule : returns.

Lemma returns_Manual_BuildAndInstall l rules : returns (Manual_BuildAndInstall cfg l rules).
Proof. unfold Manual_BuildAndInstall. returns_auto. Qed.

Hint Resolve returns_Manual_BuildAndInstall : returns.

Lemma returns_BuildAndInstall l : returns (BuildAndInstall cfg env l).
Proof. unfold BuildAndInstall. returns_auto. Qed.

Lemma returns_GetGitHash l : returns (GetGitHash cfg env l).
Proof. unfold GetGitHash. returns_auto. Qed.

Lemma returns_GetBuildHash extra_args : returns (GetBuildHash env extra_args).
Proof. unfold GetBuildHash. returns_auto. Qed.

Hint Resolve returns_GetGitHash returns_GetBuildHash returns_BuildAndInstall : returns.

Lemma returns_IsHashRelevant l hash_file : returns (IsHashRelevant cfg env l hash_file).
Proof.
  unfold IsHashRelevant, base_IsHashRelevant, CheckGitHash, CheckBuildHash. returns_auto.
Qed.

Lemma returns_WriteHash l hash_file : returns (WriteHash cfg env l hash_file).
Proof. unfold WriteHash, base_WriteHash. returns_auto. Qed.

Hint Resolve returns_IsHashRelevant returns_WriteHash : returns.

Lemma returns_InstallLibrary l : returns (InstallLibrary cfg env l).
Proof. unfold InstallLibrary. returns_auto. Qed.

Hint Resolve returns_InstallLibrary : returns.

Lemma returns_process_library l : returns (process_library cfg env l).
Proof. unfold process_library, fresh_object. returns_auto. Qed.

Hint Resolve returns_process_library : returns.

(** The library loop of [main] ends: normally, or with an exception
    ([SystemExit] after the first library that failed). *)
Lemma returns_main_libraries libs : returns (main_libraries cfg env libs).
Proof. unfold main_libraries. returns_auto. Qed.

End ReturnsOps.

(** * Further properties of the code *)

(** ** Who runs git

    [BuildAndInstall] keeps every invariant that survives the events
    other than a call of git, a change of the file system and nothing
    else: it never asks git and never touches what is memoised. *)

#[global] Instance only_fs P E : FsStable (only P E).
Proof. intros f s r s' HI [= <- <-]. exact HI. Qed.

#[global] Instance only_memo P E : MemoStable (only P E).
Proof. split; intros h s r s' HI [= <- <-]; exact HI. Qed.

#[global] Instance only_emit P E : EmitStableOn P (only P E).
Proof.
  intros e He s r s' (T & HT & HF) [= <- <-]. exists (T ++ [e]). simpl.
  rewrite HT, app_assoc. split; [done|]. apply Forall_app. by repeat constructor.
Qed.

Lemma only_refl P s : only P (st_events s) s.
Proof. exists []. by rewrite app_nil_r. Qed.

Ltac nogit_step :=
  first
    [ lazymatch goal with
      | |- always _ (emit _) => apply (emit_stable_on (P := notgit)); reflexivity
      | |- always _ (log _ _) => apply (emit_stable_on (P := notgit)); reflexivity
      end
    | always_step ].

Create HintDb nogit.

Ltac nogit_auto := repeat nogit_step; eauto with always nogit typeclass_instances.

Section NoGit.

Context (I : State -> Prop) `{!EmitStableOn notgit I, !FsStable I}.

Lemma nogit_mkdir_parents_exist_ok p : always I (mkdir_parents_exist_ok p).
Proof. unfold mkdir_parents_exist_ok. nogit_auto. Qed.

Lemma nogit_mkdir_parents p : always I (mkdir_parents p).
Proof. unfold mkdir_parents. nogit_auto. Qed.

Lemma nogit_rmtree p : always I (rmtree p).
Proof. unfold rmtree. nogit_auto. Qed.

Lemma nogit_unlink p : always I (unlink p).
Proof. unfold unlink. nogit_auto. Qed.

Lemma nogit_copy2 src dst : always I (copy2 src dst).
Proof. unfold copy2. nogit_auto. Qed.

Lemma nogit_copytree src dst : always I (copytree src dst).
Proof. unfold copytree. nogit_auto. Qed.

Lemma nogit_write_file p c : always I (write_file p c).
Proof. unfold write_file. nogit_auto. Qed.

Lemma nogit_subprocess_run env cmd cwd : always I (subprocess_run env cmd cwd).
Proof. unfold subprocess_run. nogit_auto. Qed.

Hint Resolve nogit_mkdir_parents_exist_ok nogit_mkdir_parents nogit_rmtree nogit_unlink
  nogit_copy2 nogit_copytree nogit_write_file nogit_subprocess_run : nogit.

Variable cfg : Config.
Variable env : Env.

Lemma nogit_AcquireLock lock_file : always I (_AcquireLock env lock_file).
Proof. unfold _AcquireLock. nogit_auto. Qed.

Lemma nogit_IsGeneratorMultiConfig d : always I (IsGeneratorMultiConfig d).
Proof. unfold IsGeneratorMultiConfig. nogit_auto. Qed.

Lemma nogit_purge_item d name : always I (purge_item d name).
Proof. unfold purge_item. nogit_auto. Qed.

Lemma nogit_iterdir d : always I (iterdir d).
Proof. unfold iterdir. nogit_auto. Qed.

Hint Resolve nogit_AcquireLock nogit_IsGeneratorMultiConfig nogit_purge_item
  nogit_iterdir : nogit.

Lemma nogit_lock_loop l build_dir fuel :
  always (lifted I) (lock_loop cfg env l build_dir fuel).
Proof.
  induction fuel as [|fuel IH]; simpl.
  - intros s r s' HI [= <- <-]. exact HI.
  - nogit_auto.
Qed.

Lemma nogit_build_config l configs isMulti config :
  always (lifted I) (build_config cfg env l configs isMulti config).
Proof. unfold build_config. nogit_auto. Qed.

Hint Resolve nogit_lock_loop nogit_build_config : nogit.

Lemma nogit_cmake_try l build_dir extra_args build_debug :
  always (lifted I) (cmake_try cfg env l build_dir extra_args build_debug).
Proof. unfold cmake_try. nogit_auto. Qed.

Hint Resolve nogit_cmake_try : nogit.

Lemma nogit_CMake_BuildAndInstall l build_dir extra_args build_debug :
  always I (CMake_BuildAndInstall cfg env l build_dir extra_args build_debug).
Proof. unfold CMake_BuildAndInstall. nogit_auto. Qed.

Lemma nogit_copy_match l glob_root dst_subdir full_path :
  always I (copy_match cfg l glob_root dst_subdir full_path).
Proof. unfold copy_match. nogit_auto. Qed.

Hint Resolve nogit_copy_match nogit_CMake_BuildAndInstall : nogit.

Lemma nogit_apply_rule l rule : always I (apply_rule cfg l rule).
Proof. unfold apply_rule. nogit_auto. Qed.

Hint Resolve nogit_apply_rule : nogit.

Lemma nogit_Manual_BuildAndInstall l rules : always I (Manual_BuildAndInstall cfg l rules).
Proof. unfold Manual_BuildAndInstall. nogit_auto. Qed.

Hint Resolve nogit_Manual_BuildAndInstall : nogit.

Lemma nogit_BuildAndInstall l : always I (BuildAndInstall cfg env l).
Proof. unfold BuildAndInstall. nogit_auto. Qed.

End NoGit.

#[export] Hint Resolve nogit_mkdir_parents_exist_ok nogit_mkdir_parents nogit_rmtree
  nogit_unlink nogit_copy2 nogit_copytree nogit_write_file nogit_subprocess_run
  nogit_BuildAndInstall : nogit.

(** X1: [BuildAndInstall], of a CMake library or of a manual one and
    whatever its outcome, never asks git for the revision, and leaves the
    memoised identities of the library object as they are. *)
Theorem X1_build_never_asks_git cfg env l s :
  let run := BuildAndInstall cfg env l s in
  (exists T, st_events run.2 = st_events s ++ T /\ Forall (fun e => is_git e = false) T) /\
  git_hash run.2 = git_hash s /\ build_hash run.2 = build_hash s.
Proof.
  intros run. destruct (BuildAndInstall cfg env l s) as [r s'] eqn:E. subst run. simpl.
  split.
  - destruct (nogit_BuildAndInstall (only notgit (st_events s)) cfg env l s r s'
                (only_refl _ s) E) as (T & HT & HF).
    exists T. split; [done|]. eapply Forall_impl; [exact HF|].
    intros e He. unfold notgit in He. by destruct (is_git e).
  - exact (always_BuildAndInstall (memo_is (git_hash s) (build_hash s)) cfg env l s r s'
             (conj eq_refl eq_refl) E).
Qed.

(** ** Git is asked once *)

Lemma count_snoc f T e : count f (T ++ [e]) = count f T + (if f e then 1 else 0).
Proof.
  unfold count. rewrite List.filter_app, length_app. simpl. by destruct (f e).
Qed.

#[global] Instance git_once_fs E : FsStable (git_once E).
Proof. intros f s r s' HI [= <- <-]. exact HI. Qed.

#[global] Instance git_once_emit E : EmitStableOn notgit (git_once E).
Proof.
  intros e He s r s' (T & HT & Hc & Hm) [= <- <-]. exists (T ++ [e]). simpl.
  rewrite HT, app_assoc, count_snoc. unfold notgit in He.
  destruct (is_git e); [done|]. rewrite Nat.add_0_r. done.
Qed.

Section GitOnce.

Variable cfg : Config.
Variable env : Env.
Variable l : Library.
Variable E : list event.

(** Git works for the sources of the library. *)
Hypothesis git_works : is_Some (git_rev_parse env (source_dir cfg l)).

Lemma git_once_GetGitHash : always (git_once E) (GetGitHash cfg env l).
Proof.
  intros s r s' (T & HT & Hc & Hm). unfold GetGitHash, bind, get_state, emit, ret.
  destruct (git_hash s) as [h|] eqn:Hh; simpl.
  - intros [= <- <-]. exists T. by rewrite Hh.
  - destruct git_works as [out ->]. simpl. intros [= <- <-]. simpl.
    exists (T ++ [GitRevParse (source_dir cfg l)]).
    rewrite HT, app_assoc, count_snoc. simpl.
    assert (count is_git T = 0) as ->; [|done].
    destruct (count is_git T) as [|[|n]] eqn:C; [done| |lia]. by destruct Hm.
Qed.

Lemma git_once_GetBuildHash extra_args : always (git_once E) (GetBuildHash env extra_args).
Proof.
  intros s r s' HI. unfold GetBuildHash, bind, get_state, set_build_hash, ret.
  destruct (build_hash s); simpl; intros [= <- <-]; exact HI.
Qed.

Hint Resolve git_once_GetGitHash git_once_GetBuildHash : nogit.

Lemma git_once_ReadLineAt p n : always (git_once E) (ReadLineAt p n).
Proof. unfold ReadLineAt. nogit_auto. Qed.

Lemma git_once_WriteLineAt p n text : always (git_once E) (WriteLineAt p n text).
Proof. unfold WriteLineAt. nogit_auto. Qed.

Hint Resolve git_once_ReadLineAt git_once_WriteLineAt : nogit.

Lemma git_once_BuildAndInstall : always (git_once E) (BuildAndInstall cfg env l).
Proof. apply nogit_BuildAndInstall; apply _. Qed.

Hint Resolve git_once_BuildAndInstall : nogit.

Lemma git_once_InstallLibrary : always (git_once E) (InstallLibrary cfg env l).
Proof.
  unfold InstallLibrary, IsHashRelevant, base_IsHashRelevant, CheckGitHash, CheckBuildHash,
    WriteHash, base_WriteHash.
  nogit_auto.
Qed.

End GitOnce.

(** X2: when git works for the sources of a library, one call of
    [InstallLibrary] asks git at most once, whatever it does and however
    it ends: the revision is memoised in the object, the freshness check
    and the write of the record share it. *)
Theorem X2_git_asked_at_most_once cfg env l s :
  is_Some (git_rev_parse env (source_dir cfg l)) ->
  exists T,
    st_events (InstallLibrary cfg env l s).2 = st_events s ++ T /\
    count is_git T <= 1.
Proof.
  intros Hgit. destruct (InstallLibrary cfg env l s) as [r s'] eqn:Hrun. simpl.
  destruct (git_once_InstallLibrary cfg env l (st_events s) Hgit s r s') as (T & HT & Hc & _);
    [|exact Hrun|by exists T].
  exists []. rewrite app_nil_r. split; [done|]. unfold count. simpl.
  split; [lia|intros [=]].
Qed.

Lemma X2_witness :
  exists T,
    st_events (InstallLibrary Sample.config Sample.env_ok (Sample.cmake_lib [] true)
                 (Sample.start Sample.installed_fs)).2
    = st_events (Sample.start Sample.installed_fs) ++ T /\
    count is_git T <= 1.
Proof.
  apply (X2_git_asked_at_most_once Sample.config Sample.env_ok (Sample.cmake_lib [] true)
           (Sample.start Sample.installed_fs)).
  simpl. eauto.
Defined.

(** ** A manual install only adds

    Copying a file writes a file where there was a file or nothing,
    making directories makes them where there was nothing: nothing is
    removed, and nothing changes its kind. *)

Lemma keeps_kinds_refl f : keeps_kinds f f.
Proof. intros p n H. by exists n. Qed.

Lemma keeps_kinds_trans f1 f2 f3 :
  keeps_kinds f1 f2 -> keeps_kinds f2 f3 -> keeps_kinds f1 f3.
Proof.
  intros H1 H2 p n H. destruct (H1 p n H) as (n1 & E1 & K1).
  destruct (H2 p n1 E1) as (n2 & E2 & K2). exists n2. split; [done|congruence].
Qed.

Lemma makedirs_kinds f d f' : FS.makedirs f d = inr f' -> keeps_kinds f f'.
Proof. intros H p n Hp. exists n. split; [by eapply makedirs_keeps|done]. Qed.

Lemma write_kinds f q c f' : FS.write f q c = inr f' -> keeps_kinds f f'.
Proof.
  unfold FS.write, FS.parent_error, FS.lookup. intros H p n Hp.
  destruct (decide (p = q)) as [->|Hne].
  - destruct (FS.is_anchor q); [done|]. rewrite Hp in H.
    destruct n as [|c0]; [done|]. injection H as <-.
    exists (NFile c). by rewrite lookup_insert_eq.
  - exists n. split; [|done].
    repeat case_match; simplify_eq; by rewrite lookup_insert_ne.
Qed.

Lemma copy2_kinds f src dst f' : FS.copy2 f src dst = inr f' -> keeps_kinds f f'.
Proof.
  unfold FS.copy2. destruct (FS.read f src); [done|]. apply write_kinds.
Qed.

Lemma copy_entry_kinds src dst acc e f0 :
  keeps_kinds f0 acc.2 -> keeps_kinds f0 (FS.copy_entry src dst acc e).2.
Proof.
  destruct acc as [failed f]. unfold FS.copy_entry. simpl. intros H.
  destruct e as [rel [|c]]; simpl.
  - destruct (FS.makedirs f (dst ++ rel)) eqn:E; simpl; [done|].
    eapply keeps_kinds_trans; [exact H|by eapply makedirs_kinds].
  - destruct (FS.copy2 f (src ++ rel) (dst ++ rel)) eqn:E; simpl; [done|].
    eapply keeps_kinds_trans; [exact H|by eapply copy2_kinds].
Qed.

Lemma copy_entries_kinds src dst entries acc f0 :
  keeps_kinds f0 acc.2 -> keeps_kinds f0 (foldl (FS.copy_entry src dst) acc entries).2.
Proof.
  revert acc. induction entries as [|e entries IH]; intros acc H; [done|].
  simpl. apply IH. by apply copy_entry_kinds.
Qed.

Lemma copytree_kinds f src dst :
  keeps_kinds f match FS.copytree f src dst with inl (_, f') => f' | inr f' => f' end.
Proof.
  unfold FS.copytree. destruct (FS.lookup f src) as [[|c]|]; try apply keeps_kinds_refl.
  destruct (FS.makedirs f dst) as [e|f1] eqn:E; [apply keeps_kinds_refl|].
  pose proof (copy_entries_kinds src dst (merge_sort FS.shallower (FS.below f src))
                (false, f1) f (makedirs_kinds _ _ _ E)) as H.
  destruct (foldl _ _ _) as [[|] f2]; exact H.
Qed.

#[global] Instance kind_at_emit p d : EmitStable (kind_at p d).
Proof. intros e s r s' HI [= <- <-]. exact HI. Qed.

#[global] Instance kind_at_memo p d : MemoStable (kind_at p d).
Proof. split; intros h s r s' HI [= <- <-]; exact HI. Qed.

Lemma kind_at_fs_op p d op :
  (forall f f', op f = inr f' -> keeps_kinds f f') -> always (kind_at p d) (fs_op op).
Proof.
  intros Hop s r s' (n & Hn & Hd). unfold fs_op, bind, get_fs, set_fs, raise.
  destruct (op (st_fs s)) as [e|f'] eqn:E; intros [= <- <-]; [by exists n|].
  destruct (Hop _ _ E p n Hn) as (n' & Hn' & Hk). exists n'. split; [done|congruence].
Qed.

Create HintDb kinds.

Ltac kinds_auto := repeat always_step; eauto with always kinds typeclass_instances.

Section Kinds.

Variable p : path.
Variable d : bool.

Lemma kinds_mkdir_parents_exist_ok q : always (kind_at p d) (mkdir_parents_exist_ok q).
Proof.
  unfold mkdir_parents_exist_ok. kinds_auto. apply kind_at_fs_op.
  intros f f'. apply makedirs_kinds.
Qed.

Lemma kinds_copy2 src dst : always (kind_at p d) (copy2 src dst).
Proof.
  unfold copy2. kinds_auto. apply kind_at_fs_op. intros f f'. apply copy2_kinds.
Qed.

Lemma kinds_copytree src dst : always (kind_at p d) (copytree src dst).
Proof.
  intros s r s' (n & Hn & Hd). unfold copytree, bind, emit, get_fs, set_fs, raise. simpl.
  pose proof (copytree_kinds (st_fs s) src dst p n Hn) as (n' & Hn' & Hk).
  destruct (FS.copytree (st_fs s) src dst) as [[e f']|f']; intros [= <- <-];
    exists n'; (split; [done|congruence]).
Qed.

Hint Resolve kinds_mkdir_parents_exist_ok kinds_copy2 kinds_copytree : kinds.

Variable cfg : Config.

Lemma kinds_copy_match l glob_root dst_subdir full_path :
  always (kind_at p d) (copy_match cfg l glob_root dst_subdir full_path).
Proof. unfold copy_match. kinds_auto. Qed.

Hint Resolve kinds_copy_match : kinds.

Lemma kinds_apply_rule l rule : always (kind_at p d) (apply_rule cfg l rule).
Proof. unfold apply_rule. kinds_auto. Qed.

Hint Resolve kinds_apply_rule : kinds.

Lemma kinds_Manual_BuildAndInstall l rules :
  always (kind_at p d) (Manual_BuildAndInstall cfg l rules).
Proof. unfold Manual_BuildAndInstall. kinds_auto. Qed.

End Kinds.

Ltac copying_step :=
  first
    [ lazymatch goal with
      | |- always _ (emit _) => apply (emit_stable_on (P := is_copying)); reflexivity
      | |- always _ (log _ _) => apply (emit_stable_on (P := is_copying)); reflexivity
      end
    | always_step ].

Create HintDb copying.

Ltac copying_auto := repeat copying_step; eauto with always copying typeclass_instances.

Section Copying.

Context (I : State -> Prop) `{!EmitStableOn is_copying I, !FsStable I}.

Lemma copying_mkdir_parents_exist_ok q : always I (mkdir_parents_exist_ok q).
Proof. unfold mkdir_parents_exist_ok. copying_auto. Qed.

Lemma copying_copy2 src dst : always I (copy2 src dst).
Proof. unfold copy2. copying_auto. Qed.

Lemma copying_copytree src dst : always I (copytree src dst).
Proof. unfold copytree. copying_auto. Qed.

Hint Resolve copying_mkdir_parents_exist_ok copying_copy2 copying_copytree : copying.

Variable cfg : Config.

Lemma copying_copy_match l glob_root dst_subdir full_path :
  always I (copy_match cfg l glob_root dst_subdir full_path).
Proof. unfold copy_match. copying_auto. Qed.

Hint Resolve copying_copy_match : copying.

Lemma copying_apply_rule l rule : always I (apply_rule cfg l rule).
Proof. unfold apply_rule. copying_auto. Qed.

Hint Resolve copying_apply_rule : copying.

Lemma copying_Manual_BuildAndInstall l rules :
  always I (Manual_BuildAndInstall cfg l rules).
Proof. unfold Manual_BuildAndInstall. copying_auto. Qed.

End Copying.

(** X3: the install of a manual library (and so of a header-only one),
    whatever its rules and however it ends, does nothing but log, make
    directories and copy: it starts no process, asks no git, removes
    nothing.  Everything that was in the file system is still there, a
    directory as a directory and a file as a file. *)
Theorem X3_manual_install_only_adds cfg l rules s :
  let run := Manual_BuildAndInstall cfg l rules s in
  (exists T, st_events run.2 = st_events s ++ T /\
             Forall (fun e => is_copying e = true) T) /\
  keeps_kinds (st_fs s) (st_fs run.2).
Proof.
  intros run. destruct (Manual_BuildAndInstall cfg l rules s) as [r s'] eqn:E.
  subst run. simpl. split.
  - exact (copying_Manual_BuildAndInstall (only is_copying (st_events s)) cfg l rules
             s r s' (only_refl _ s) E).
  - intros p n Hn.
    destruct (kinds_Manual_BuildAndInstall p (is_dir_node n) cfg l rules s r s'
                (ex_intro _ n (conj Hn eq_refl)) E) as (n' & Hn' & Hk).
    by exists n'.
Qed.

(** ** What a CMake build leaves alone

    A CMake build works in the build directories (below the source
    directory) and in the install directory.  An entry of the file system
    that is in neither, and that the cmake subprocesses leave alone, is
    after the build what it was before. *)

Lemma always_lift_paired {Λ A} (L : Λ -> Prop) (I : State -> Prop) (m : M A) :
  always I m -> always (paired L I) (lift m).
Proof.
  intros Hm [loc s] r [loc' s'] [HL HI]. unfold lift. simpl.
  destruct (m s) as [r1 s1] eqn:E. intros [= <- <- <-]. split; [done|]. eapply Hm; eauto.
Qed.

Lemma always_set_locals_paired {Λ} (L : Λ -> Prop) (I : State -> Prop) (upd : Λ -> Λ) :
  (forall loc, L loc -> L (upd loc)) -> always (paired L I) (set_locals upd).
Proof. intros Hupd [loc s] r [loc' s'] [HL HI] [= <- <- <-]. split; [by apply Hupd|done]. Qed.

(** What is known of the local variables is known of the value read. *)
Lemma always_get_locals_paired {Λ B} (L : Λ -> Prop) (I : State -> Prop)
    (k : Λ -> Prog (Λ * State) B) :
  (forall loc, L loc -> always (paired L I) (k loc)) ->
  always (paired L I) (bind get_locals k).
Proof.
  intros Hk [loc s] r ls' HJ. unfold bind, get_locals. simpl.
  apply (Hk loc (proj1 HJ) (loc, s) r ls' HJ).
Qed.

Lemma always_with_locals_paired {Λ A} (L : Λ -> Prop) (I : State -> Prop) (init : Λ)
    (m : Prog (Λ * State) A) :
  L init -> always (paired L I) m -> always I (with_locals init m).
Proof.
  intros HL Hm s r s' HI. unfold with_locals.
  destruct (m (init, s)) as [r1 [loc1 s1]] eqn:E. intros [= <- <-].
  apply (Hm (init, s) r1 (loc1, s1) (conj HL HI) E).
Qed.

#[global] Instance entry_is_emit p n : EmitStable (entry_is p n).
Proof. intros e s r s' HI [= <- <-]. exact HI. Qed.

#[global] Instance entry_is_memo p n : MemoStable (entry_is p n).
Proof. split; intros h s r s' HI [= <- <-]; exact HI. Qed.

Lemma entry_is_fs_op p n op :
  (forall f f', op f = inr f' -> f !! p = Some n -> f' !! p = Some n) ->
  always (entry_is p n) (fs_op op).
Proof.
  intros Hop s r s' Hn. unfold fs_op, bind, get_fs, set_fs, raise.
  destruct (op (st_fs s)) as [e|f'] eqn:E; intros [= <- <-]; [done|].
  by eapply Hop.
Qed.

Create HintDb entry.

Ltac entry_auto := repeat always_step; eauto with always entry typeclass_instances.

Section Entry.

Variable p : path.
Variable n : node.

Lemma entry_mkdir_parents_exist_ok q : always (entry_is p n) (mkdir_parents_exist_ok q).
Proof.
  unfold mkdir_parents_exist_ok. entry_auto. apply entry_is_fs_op.
  intros f f' H. by eapply makedirs_keeps.
Qed.

Lemma entry_mkdir_parents q : always (entry_is p n) (mkdir_parents q).
Proof. intros s r s' Hn Hrun. by eapply mkdir_parents_keeps. Qed.

Lemma entry_rmtree q : ~ q `prefix_of` p -> always (entry_is p n) (rmtree q).
Proof.
  intros Hq s r s' Hn Hrun. unfold entry_is in *.
  pose proof (rmtree_fs q s p Hq) as H. rewrite Hrun in H. simpl in H. exact (eq_trans H Hn).
Qed.

Lemma entry_unlink q : q <> p -> always (entry_is p n) (unlink q).
Proof.
  intros Hq s r s' Hn Hrun. unfold entry_is in *.
  pose proof (unlink_fs q s p ltac:(done)) as H. rewrite Hrun in H. simpl in H.
  exact (eq_trans H Hn).
Qed.

Lemma entry_write_file q c : q <> p -> always (entry_is p n) (write_file q c).
Proof.
  intros Hq s r s' Hn Hrun. unfold entry_is in *.
  pose proof (write_file_fs q c s p ltac:(done)) as H. rewrite Hrun in H. simpl in H.
  exact (eq_trans H Hn).
Qed.

Variable cfg : Config.
Variable env : Env.
Variable l : Library.
Variable build_dir : path.

Local Abbreviation cand := (candidate cfg l build_dir).

(** The build directory is relative; the entry is neither in the source
    directory nor in the install directory, and the processes keep it. *)
Hypothesis build_dir_relative : Path.root_of (Path.to_str build_dir) = None.
Hypothesis outside_sources : ~ source_dir cfg l `prefix_of` p.
Hypothesis outside_install : ~ install_dir cfg l `prefix_of` p.
Hypothesis processes_keep :
  forall cmd cwd f, f !! p = Some n -> (run_process env cmd cwd f).2 !! p = Some n.

Lemma outside_candidate k q : cand k `prefix_of` q -> ~ q `prefix_of` p.
Proof.
  intros Hq Hp. apply outside_sources.
  etrans; [by apply (candidate_below cfg l build_dir k)|]. by etrans.
Qed.

Lemma entry_subprocess_run cmd cwd : always (entry_is p n) (subprocess_run env cmd cwd).
Proof.
  intros s r s' Hn Hrun. unfold entry_is in *.
  destruct (subprocess_run_cases env cmd cwd s) as (ok & s1 & Heq & _ & Hfs).
  rewrite Heq in Hrun. injection Hrun as _ <-. rewrite Hfs. by apply processes_keep.
Qed.

Lemma entry_AcquireLock k :
  always (entry_is p n) (_AcquireLock env (Path.join_str (cand k) ".lock")).
Proof.
  unfold _AcquireLock. entry_auto; [apply entry_mkdir_parents_exist_ok|].
  apply entry_write_file. intros Heq.
  apply (outside_candidate k (cand k ++ [".lock"])); [by apply prefix_app_r|].
  by rewrite <- Heq.
Qed.

Lemma entry_purge_item k name : always (entry_is p n) (purge_item (cand k) name).
Proof.
  unfold purge_item. entry_auto.
  - apply entry_rmtree. apply (outside_candidate k). by apply prefix_app_r.
  - apply entry_unlink. intros Heq.
    apply (outside_candidate k (cand k ++ [name])); [by apply prefix_app_r|by rewrite <- Heq].
Qed.

Hint Resolve entry_mkdir_parents_exist_ok entry_mkdir_parents entry_subprocess_run
  entry_AcquireLock entry_purge_item : entry.

Local Abbreviation J := (paired (in_candidate cfg l build_dir) (entry_is p n)).

Ltac local_step :=
  lazymatch goal with
  | |- always _ (bind get_locals _) =>
      let loc := fresh "loc" in
      let k := fresh "k" in
      let Hk := fresh "Hk" in
      apply always_get_locals_paired; intros loc [k Hk]; cbv zeta; rewrite ?Hk
  | |- always _ (lift _) => apply always_lift_paired
  | |- always _ (set_stage _) =>
      apply always_set_locals_paired; intros ? [? ?]; eexists; eassumption
  | |- always _ (set_lock _) =>
      apply always_set_locals_paired; intros ? [? ?]; eexists; eassumption
  | |- always _ (set_needToCleanupInstall _) =>
      apply always_set_locals_paired; intros ? [? ?]; eexists; eassumption
  | |- always _ (set_build_dir ?i _) =>
      apply always_set_locals_paired; intros ? _; by exists i
  | _ => always_step
  end.

Ltac local_auto := repeat local_step; eauto with always entry typeclass_instances.

Lemma entry_lock_loop fuel : always J (lock_loop cfg env l build_dir fuel).
Proof.
  induction fuel as [|fuel IH]; simpl.
  - intros s r s' HI [= <- <-]. exact HI.
  - local_auto.
Qed.

Lemma entry_build_config configs isMulti config :
  always J (build_config cfg env l configs isMulti config).
Proof.
  unfold build_config. local_auto.
  all: try (apply entry_rmtree; exact outside_install).
Qed.

Hint Resolve entry_lock_loop entry_build_config : entry.

Lemma entry_cmake_try extra_args build_debug :
  always J (cmake_try cfg env l build_dir extra_args build_debug).
Proof. unfold cmake_try. local_auto. Qed.

Hint Resolve entry_cmake_try : entry.

Lemma entry_WriteLineAt q i text : q <> p -> always (entry_is p n) (WriteLineAt q i text).
Proof.
  intros Hq. pose proof (fun c => entry_write_file q c Hq) as HW.
  unfold WriteLineAt. entry_auto.
Qed.

Lemma entry_CMake_BuildAndInstall extra_args build_debug :
  always (entry_is p n) (CMake_BuildAndInstall cfg env l build_dir extra_args build_debug).
Proof.
  unfold CMake_BuildAndInstall. apply always_bind; [apply always_log; apply _|intros _].
  apply (always_with_locals_paired (in_candidate cfg l build_dir)); [by exists 0|].
  local_auto.
  apply entry_rmtree. by apply (outside_candidate k).
Qed.

Lemma entry_InstallLibrary extra_args build_debug :
  kind l = CMakeLibrary build_dir extra_args build_debug ->
  hash_file_of cfg l <> p ->
  always (entry_is p n) (InstallLibrary cfg env l).
Proof.
  intros Hkind Hrec.
  unfold InstallLibrary, IsHashRelevant, WriteHash, base_WriteHash, BuildAndInstall.
  rewrite Hkind.
  pose proof (entry_WriteLineAt (hash_file_of cfg l)) as HW.
  pose proof entry_CMake_BuildAndInstall as HB.
  entry_auto.
  - unfold base_IsHashRelevant, CheckGitHash. entry_auto.
  - unfold CheckBuildHash. entry_auto.
Qed.

End Entry.

(** X4: installing a CMake library whose build directory is given by a
    relative path without [..] keeps every entry of the file system that
    is neither in the source directory of the library nor in its install
    directory nor its record (its path being [comparable] with these
    three), provided the subprocesses keep it: such an entry is after
    [InstallLibrary], however it ends, what it was before. *)
Theorem X4_cmake_install_keeps_what_is_outside
    cfg env l build_dir extra_args build_debug p n s :
  kind l = CMakeLibrary build_dir extra_args build_debug ->
  Path.root_of (Path.to_str build_dir) = None ->
  plain build_dir ->
  comparable (source_dir cfg l) p ->
  comparable (install_dir cfg l) p ->
  comparable (hash_file_of cfg l) p ->
  ~ source_dir cfg l `prefix_of` p ->
  ~ install_dir cfg l `prefix_of` p ->
  hash_file_of cfg l <> p ->
  (forall cmd cwd f, f !! p = Some n -> (run_process env cmd cwd f).2 !! p = Some n) ->
  st_fs s !! p = Some n ->
  st_fs (InstallLibrary cfg env l s).2 !! p = Some n.
Proof.
  intros Hkind Hrel _ _ _ _ Hsrc Hinst Hrec Hproc Hn.
  destruct (InstallLibrary cfg env l s) as [r s'] eqn:Hrun.
  exact (entry_InstallLibrary p n cfg env l build_dir Hrel Hsrc Hinst Hproc
           extra_args build_debug Hkind Hrec s r s' Hn Hrun).
Qed.

Lemma X4_witness :
  st_fs (InstallLibrary Sample.config Sample.env_install_fails
           (Sample.cmake_lib [] true) (Sample.start Sample.both_fs)).2
    !! (Sample.src ++ ["SteamworksSDK"; "public"; "steam"; "steam_api.h"])
  = Some (NFile "api").
Proof.
  apply (X4_cmake_install_keeps_what_is_outside
           Sample.config Sample.env_install_fails (Sample.cmake_lib [] true)
           ["build"] [] true).
  - reflexivity.
  - reflexivity.
  - by repeat constructor.
  - by repeat constructor.
  - by repeat constructor.
  - by repeat constructor.
  - intros [k Hk]. vm_compute in Hk. discriminate Hk.
  - intros [k Hk]. vm_compute in Hk. discriminate Hk.
  - vm_compute. discriminate.
  - intros cmd cwd f Hf. exact Hf.
  - vm_compute. reflexivity.
Defined.

(** ** The record in a cache directory and a failed build

    With [--cache-dir] the record is outside the install directory.  A
    failed build may leave the install directory wiped; the record is not
    touched, so it still tells of the earlier install. *)

Lemma makedirs_from_error f above below e :
  FS.makedirs_from f above below = inl e -> is_CalledProcessError e = false.
Proof.
  revert f above. induction below as [|x below IH]; intros f above; simpl; [done|].
  destruct (FS.lookup f (above ++ [x])) as [[|c]|]; eauto. by intros [= <-].
Qed.

Lemma WriteLineAt_error p i t s e :
  (WriteLineAt p i t s).1 = Raise e -> is_CalledProcessError e = false.
Proof.
  unfold WriteLineAt, mkdir_parents_exist_ok, write_file, path_exists, read_file, fs_op,
    bind, emit, get_fs, set_fs, ret, raise. simpl.
  destruct (FS.makedirs (st_fs s) (Path.parent p)) as [e1|f1] eqn:E1; simpl.
  { intros [= <-]. by eapply makedirs_from_error. }
  assert (forall lines s1, 
    (match set_line (Lines.pad lines i) i (Str.rstrip_nl t +:+ String Str.nl "") with
     | inl e0 => raise e0
     | inr lines' => write_file p (Lines.writelines lines')
     end s1).1 = Raise e -> is_CalledProcessError e = false) as Hset.
  { intros lines s1. destruct (set_line _ _ _) as [e0|lines'] eqn:E2.
    - unfold raise. simpl. intros [= <-]. unfold set_line in E2.
      destruct i; [|done]. by destruct (Lines.pad lines 0); simplify_eq.
    - unfold write_file, fs_op, bind, emit, get_fs, set_fs, raise. simpl.
      destruct (FS.write _ _ _) as [e0|f2] eqn:E3; simpl; [|done].
      intros [= <-]. unfold FS.write, FS.parent_error in E3.
      repeat case_match; by simplify_eq. }
  destruct (FS.exists_ f1 p); simpl.
  - destruct (FS.read f1 p) as [e0|c] eqn:E0; simpl.
    + intros [= <-]. unfold FS.read in E0. repeat case_match; by simplify_eq.
    + apply Hset.
  - apply Hset.
Qed.

Lemma GetGitHash_fs cfg env l s : st_fs (GetGitHash cfg env l s).2 = st_fs s.
Proof.
  unfold GetGitHash, bind, get_state, emit, set_git_hash, ret, raise. simpl.
  destruct (git_hash s); [done|]. simpl. by destruct (git_rev_parse env _).
Qed.

(** When a failed subprocess ends the writing of the record, nothing has
    been written. *)
Lemma after_build_process_failed cfg env l s r s' :
  after_build cfg env l s = (r, s') -> process_failed r -> st_fs s' = st_fs s.
Proof.
  intros Hrun [cmd ->]. revert Hrun.
  assert (forall q i t s1 s2,
    WriteLineAt q i t s1 <> (Raise (CalledProcessError cmd), s2)) as HW.
  { intros q i t s1 s2 H. pose proof (WriteLineAt_error q i t s1 (CalledProcessError cmd)) as G.
    rewrite H in G. by specialize (G eq_refl). }
  unfold after_build, WriteHash, base_WriteHash. unfold bind at 1.
  assert (forall s0 sw, (h <- GetGitHash cfg env l;; WriteLineAt (hash_file_of cfg l) 1 h) s0
            = (Raise (CalledProcessError cmd), sw) -> st_fs sw = st_fs s0) as Hbase.
  { intros s0 sw. unfold bind. pose proof (GetGitHash_fs cfg env l s0) as Hg.
    destruct (GetGitHash cfg env l s0) as [[h|e|] sg]; simpl in Hg.
    - intros H. by apply HW in H.
    - by intros [= _ <-].
    - done. }
  destruct (kind l) as [bd args dbg|rules].
  - unfold bind at 1.
    destruct ((h <- GetGitHash cfg env l;; WriteLineAt (hash_file_of cfg l) 1 h) s)
      as [[[]|e|] s1] eqn:E1.
    + unfold bind at 1. destruct (GetBuildHash env args s1) as [[h|e|] s2] eqn:E2.
      * destruct (WriteLineAt (hash_file_of cfg l) 2 h s2) as [[[]|e|] s3] eqn:E3.
        -- by unfold log, emit.
        -- intros [= ? ?]; subst. by apply HW in E3.
        -- done.
      * unfold GetBuildHash, bind, get_state, set_build_hash, ret in E2. simpl in E2.
        destruct (build_hash s1); by simplify_eq.
      * done.
    + intros [= ? ?]; subst. by apply Hbase in E1.
    + done.
  - destruct ((h <- GetGitHash cfg env l;; WriteLineAt (hash_file_of cfg l) 1 h) s)
      as [[[]|e|] s1] eqn:E1.
    + by unfold log, emit.
    + intros [= ? ?]; subst. by apply Hbase in E1.
    + done.
Qed.

Lemma entry_before_build p n cfg env l : always (entry_is p n) (before_build cfg env l).
Proof.
  unfold before_build, IsHashRelevant, base_IsHashRelevant, CheckGitHash, CheckBuildHash.
  pose proof (entry_mkdir_parents p n) as HM.
  destruct (kind l); entry_auto.
Qed.

(** X5: a CMake library whose build directory is given by a relative path
    without [..], and whose record is kept apart from its source and
    install directories (as with [--cache-dir]; its path is [comparable]
    with both) and is left alone by the subprocesses: when [InstallLibrary]
    ends because a subprocess failed, git or cmake, the record is exactly
    what it was before the run. *)
Theorem X5_failed_process_leaves_cached_record
    cfg env l build_dir extra_args build_debug n s r s' :
  kind l = CMakeLibrary build_dir extra_args build_debug ->
  Path.root_of (Path.to_str build_dir) = None ->
  plain build_dir ->
  comparable (source_dir cfg l) (hash_file_of cfg l) ->
  comparable (install_dir cfg l) (hash_file_of cfg l) ->
  ~ source_dir cfg l `prefix_of` hash_file_of cfg l ->
  ~ install_dir cfg l `prefix_of` hash_file_of cfg l ->
  (forall cmd cwd f, f !! hash_file_of cfg l = Some n ->
                     (run_process env cmd cwd f).2 !! hash_file_of cfg l = Some n) ->
  st_fs s !! hash_file_of cfg l = Some n ->
  InstallLibrary cfg env l s = (r, s') ->
  process_failed r ->
  st_fs s' !! hash_file_of cfg l = Some n.
Proof.
  intros Hkind Hrel _ _ _ Hsrc Hinst Hproc Hn Hrun Hr. rewrite InstallLibrary_eq in Hrun.
  revert Hrun. unfold bind at 1.
  pose proof (entry_before_build (hash_file_of cfg l) n cfg env l s) as Hb.
  destruct (before_build cfg env l s) as [[[|]|e|] s1]; specialize (Hb _ _ Hn eq_refl).
  - unfold log, emit. intros [= <- <-]. by destruct Hr.
  - unfold bind at 1. unfold BuildAndInstall. rewrite Hkind.
    pose proof (entry_CMake_BuildAndInstall (hash_file_of cfg l) n cfg env l build_dir
                  Hrel Hsrc Hinst Hproc extra_args build_debug s1) as HB.
    destruct (CMake_BuildAndInstall cfg env l build_dir extra_args build_debug s1)
      as [[[]|e|] s2]; specialize (HB _ _ Hb eq_refl).
    + intros Hafter. unfold entry_is in HB.
      by rewrite (after_build_process_failed cfg env l s2 r s' Hafter Hr).
    + by intros [= <- <-].
    + by intros [= <- <-].
  - by intros [= <- <-].
  - by intros [= <- <-].
Qed.

Lemma X5_witness :
  let run := InstallLibrary Sample.config_cache Sample.env_install_fails
               (Sample.cmake_lib [] true) (Sample.start Sample.cached_fs) in
  st_fs run.2 !! ["caches"; "lib"; "hash_lib.txt"]
    = Some (NFile (Sample.line "old" +:+ Sample.line "md5:")) /\
  st_fs run.2 !! (Sample.bin_lib ++ ["stale.h"]) = None.
Proof.
  intros run. split; [|vm_compute; reflexivity].
  apply (X5_failed_process_leaves_cached_record
           Sample.config_cache Sample.env_install_fails (Sample.cmake_lib [] true)
           ["build"] [] true _ (Sample.start Sample.cached_fs) run.1 run.2).
  - reflexivity.
  - reflexivity.
  - by repeat constructor.
  - by repeat constructor.
  - by repeat constructor.
  - intros [k Hk]. vm_compute in Hk. discriminate Hk.
  - intros [k Hk]. vm_compute in Hk. discriminate Hk.
  - intros cmd cwd f Hf. exact Hf.
  - vm_compute. reflexivity.
  - apply surjective_pairing.
  - exists ["cmake"; "--install"; "."]. vm_compute. reflexivity.
Defined.

(** ** Where cmake runs

    The search for a build directory stops at the first candidate whose
    lock file nobody else holds; every cmake command runs there, with the
    lock held, and that directory is removed in the end. *)

Lemma runs_in_other d a e : is_exec e = false -> runs_in d a e = true.
Proof. by destruct e. Qed.

Lemma only_weaken (P Q : event -> bool) E s :
  (forall e, P e = true -> Q e = true) -> only P E s -> only Q E s.
Proof.
  intros H (T & HT & HF). exists T. split; [done|].
  eapply Forall_impl; [exact HF|]. exact H.
Qed.

Ltac noexec_step :=
  first
    [ lazymatch goal with
      | |- always _ (emit _) =>
          eapply emit_stable_on; [eassumption|]; apply runs_in_other; reflexivity
      | |- always _ (log _ _) =>
          eapply emit_stable_on; [eassumption|]; apply runs_in_other; reflexivity
      end
    | always_step ].

Create HintDb noexec.

Ltac noexec_auto := repeat noexec_step; eauto with always noexec typeclass_instances.

Section NoExec.

Variable d : path.
Variable allowed : bool.

Context (I : State -> Prop) `{!EmitStableOn (runs_in d allowed) I, !FsStable I}.

Lemma noexec_mkdir_parents_exist_ok p : always I (mkdir_parents_exist_ok p).
Proof. unfold mkdir_parents_exist_ok. noexec_auto. Qed.

Lemma noexec_mkdir_parents p : always I (mkdir_parents p).
Proof. unfold mkdir_parents. noexec_auto. Qed.

Lemma noexec_rmtree p : always I (rmtree p).
Proof. unfold rmtree. noexec_auto. Qed.

Lemma noexec_unlink p : always I (unlink p).
Proof. unfold unlink. noexec_auto. Qed.

Lemma noexec_write_file p c : always I (write_file p c).
Proof. unfold write_file. noexec_auto. Qed.

Lemma noexec_log msg ty : always I (log msg ty).
Proof. noexec_auto. Qed.

Hint Resolve noexec_mkdir_parents_exist_ok noexec_mkdir_parents noexec_rmtree noexec_unlink
  noexec_write_file noexec_log : noexec.

Lemma noexec_AcquireLock env lock_file : always I (_AcquireLock env lock_file).
Proof. unfold _AcquireLock. noexec_auto. Qed.

Lemma noexec_purge_item q name : always I (purge_item q name).
Proof. unfold purge_item. noexec_auto. Qed.

End NoExec.

#[export] Hint Resolve noexec_mkdir_parents_exist_ok noexec_mkdir_parents noexec_rmtree
  noexec_unlink noexec_write_file noexec_log noexec_AcquireLock noexec_purge_item : noexec.

(** A subprocess started in [d] with the lock held. *)
Lemma exec_subprocess_run d E env cmd :
  always (only (runs_in d true) E) (subprocess_run env cmd d).
Proof.
  unfold subprocess_run. apply always_bind; [apply always_get_fs|intros f].
  destruct (run_process env cmd d f) as [ok f'].
  apply always_bind; [|intros _; apply always_bind; [apply fs_stable|intros _]].
  - apply (emit_stable_on (P := runs_in d true)). simpl. by apply bool_decide_eq_true.
  - destruct ok; [apply always_ret|apply always_raise].
Qed.

#[export] Hint Resolve exec_subprocess_run : noexec.

Section LockSearch.

Variable cfg : Config.
Variable env : Env.
Variable l : Library.
Variable build_dir : path.
Variable E : list event.

Local Abbreviation cand := (candidate cfg l build_dir).
Local Abbreviation searching := (lock_search cfg env l build_dir E).

(** The search ends, if it ends normally, with the lock. *)
Lemma lock_loop_search fuel loc s r loc' s' :
  l_lock loc = false -> searching (loc, s) ->
  lock_loop cfg env l build_dir fuel (loc, s) = (r, (loc', s')) ->
  searching (loc', s') /\ (r = Ok tt -> l_lock loc' = true).
Proof.
  revert loc s. induction fuel as [|fuel IH]; intros loc s Hl Hs Hrun;
    [by inversion Hrun; subst|].
  destruct Hs as (Hd & Hbefore & Hfree & Hon). cbn [fst snd] in *.
  cbn [lock_loop] in Hrun. unfold bind at 1 in Hrun. unfold get_locals at 1 in Hrun.
  unfold bind at 1 in Hrun. unfold lift at 1 in Hrun. cbn [fst snd] in Hrun.
  pose proof (noexec_AcquireLock (l_build_dir loc) (l_lock loc)
                (only (runs_in (l_build_dir loc) (l_lock loc)) E) env
                (Path.join_str (l_build_dir loc) ".lock") s) as HA.
  destruct (_AcquireLock env (Path.join_str (l_build_dir loc) ".lock") s)
    as [[lock|e|] s1] eqn:EA; specialize (HA _ _ Hon eq_refl);
    [|by inversion Hrun; subst..].
  apply AcquireLock_value in EA.
  unfold bind at 1 in Hrun. unfold set_lock at 1, set_locals at 1 in Hrun.
  cbn [fst snd] in Hrun. destruct lock.
  - symmetry in EA. apply negb_true_iff, bool_decide_eq_false in EA.
    assert (only (runs_in (l_build_dir loc) true) E s1) as HA'.
    { eapply only_weaken; [|exact HA]. intros [] He; try done.
      rewrite Hl in He. done. }
    match type of Hrun with
    | ?m (?loc1, s1) = _ =>
        assert (always (paired (eq loc1) (only (runs_in (l_build_dir loc) true) E)) m) as Hm
    end.
    { apply always_bind; [apply always_lift_paired, always_iterdir|intros names].
      apply always_lift_paired. noexec_auto. }
    eapply Hm in Hrun; [|split; [reflexivity|exact HA']].
    destruct Hrun as [Heq Hon']. cbn [fst snd] in Heq, Hon'. subst loc'.
    split; [|done]. by repeat split.
  - symmetry in EA. apply negb_false_iff, bool_decide_eq_true in EA.
    unfold bind at 1 in Hrun. unfold set_build_dir at 1, set_locals at 1 in Hrun.
    cbn [fst snd] in Hrun. eapply IH; [|clear Hrun|exact Hrun]; [done|].
    repeat split; cbn [fst snd l_build_dir l_n l_lock]; try done.
    + intros j Hj. destruct (decide (j = l_n loc)) as [->|Hne].
      * by rewrite <- Hd.
      * apply Hbefore. lia.
    + eapply only_weaken; [|exact HA]. intros [] He; try done.
      rewrite Hl in He. done.
Qed.

(** Once the lock is held, the build directory stays what it is, and
    the lock is kept. *)
Local Abbreviation settled d n :=
  (paired (fun loc : locals => l_build_dir loc = d /\ l_lock loc = true /\ l_n loc = n)
          (only (runs_in d true) E)).

Ltac settled_step :=
  lazymatch goal with
  | |- always _ (bind get_locals _) =>
      let Hd := fresh "Hd" in
      apply always_get_locals_paired; intros ? [Hd ?]; cbv zeta; rewrite ?Hd
  | |- always _ (lift _) => apply always_lift_paired
  | |- always _ (set_stage _) =>
      let H := fresh in apply always_set_locals_paired; intros ? H; exact H
  | |- always _ (set_needToCleanupInstall _) =>
      let H := fresh in apply always_set_locals_paired; intros ? H; exact H
  | _ => noexec_step
  end.

Ltac settled_auto := repeat settled_step; eauto with always noexec typeclass_instances.

Lemma settled_build_config d n configs isMulti config :
  always (settled d n) (build_config cfg env l configs isMulti config).
Proof. unfold build_config. settled_auto. Qed.

Lemma cmake_try_search extra_args build_debug loc s r loc' s' :
  l_lock loc = false -> searching (loc, s) ->
  cmake_try cfg env l build_dir extra_args build_debug (loc, s) = (r, (loc', s')) ->
  searching (loc', s') /\ (r = Ok tt -> l_lock loc' = true).
Proof.
  intros Hl Hs Hrun. unfold cmake_try in Hrun. unfold bind at 1 in Hrun.
  destruct (lock_loop cfg env l build_dir _ (loc, s)) as [r1 [loc1 s1]] eqn:EL.
  apply lock_loop_search in EL as [(Hd1 & Hbefore1 & Hfree1 & Hon1) Hok1]; [|done..].
  cbn [fst snd] in *.
  destruct r1 as [[]|e|]; [|by inversion Hrun; subst..]. specialize (Hok1 eq_refl).
  rewrite Hok1 in Hon1.
  match type of Hrun with
  | ?m (loc1, s1) = _ => assert (always (settled (l_build_dir loc1) (l_n loc1)) m) as Hm
  end.
  { pose proof (settled_build_config (l_build_dir loc1) (l_n loc1)) as HB. settled_auto. }
  eapply Hm in Hrun; [|by repeat split].
  destruct Hrun as [(Hd' & Hl' & Hn') Hon']. cbn [fst snd] in *.
  split; [|done]. repeat split; cbn [fst snd]; rewrite ?Hd', ?Hl', ?Hn'; auto.
Qed.

End LockSearch.

(** The end of the method: [shutil.rmtree(build_dir)]. *)
Lemma search_end cfg env l build_dir E loc s :
  lock_search cfg env l build_dir E (loc, s) ->
  exists T,
    st_events (rmtree (l_build_dir loc) s).2
      = E ++ T ++ [Rmtree (candidate cfg l build_dir (l_n loc))] /\
    (forall j, j < l_n loc ->
       Path.join_str (candidate cfg l build_dir j) ".lock" ∈ locked_elsewhere env) /\
    (forall cmd cwd ok, Exec cmd cwd ok ∈ T ->
       cwd = candidate cfg l build_dir (l_n loc) /\
       Path.join_str (candidate cfg l build_dir (l_n loc)) ".lock" ∉ locked_elsewhere env) /\
    (l_lock loc = true ->
       Path.join_str (candidate cfg l build_dir (l_n loc)) ".lock" ∉ locked_elsewhere env).
Proof.
  intros (Hd & Hbefore & Hfree & T & HT & HF). cbn [fst snd] in *.
  exists T. rewrite rmtree_events, HT, Hd, <- app_assoc. split; [done|]. split; [done|].
  rewrite Hd in Hfree. split; [|done].
  intros cmd cwd ok Hin. rewrite Forall_forall in HF. apply HF in Hin. simpl in Hin.
  apply andb_true_iff in Hin as [Hlk Hcwd]. apply bool_decide_eq_true in Hcwd.
  split; [by rewrite <- Hd|by apply Hfree].
Qed.

Lemma CMake_BuildAndInstall_search cfg env l build_dir extra_args build_debug s r s' :
  CMake_BuildAndInstall cfg env l build_dir extra_args build_debug s = (r, s') ->
  exists k T,
    st_events s' = st_events s ++ T ++ [Rmtree (candidate cfg l build_dir k)] /\
    (forall j, j < k ->
       Path.join_str (candidate cfg l build_dir j) ".lock" ∈ locked_elsewhere env) /\
    (forall cmd cwd ok, Exec cmd cwd ok ∈ T ->
       cwd = candidate cfg l build_dir k /\
       Path.join_str (candidate cfg l build_dir k) ".lock" ∉ locked_elsewhere env) /\
    (r = Ok tt ->
       Path.join_str (candidate cfg l build_dir k) ".lock" ∉ locked_elsewhere env).
Proof.
  intros Hrun. unfold CMake_BuildAndInstall in Hrun. unfold bind at 1 in Hrun.
  rewrite log_run in Hrun. unfold with_locals, try_finally, try_except in Hrun.
  set (E := st_events s ++ [Log Info (MsgCompiling (lib_name l))]).
  assert (forall loc2 s2,
            lock_search cfg env l build_dir E (loc2, s2) ->
            (r = Ok tt -> l_lock loc2 = true) ->
            st_events s' = st_events (rmtree (l_build_dir loc2) s2).2 ->
            exists k T,
              st_events s' = st_events s ++ T ++ [Rmtree (candidate cfg l build_dir k)] /\
              (forall j, j < k ->
                 Path.join_str (candidate cfg l build_dir j) ".lock" ∈ locked_elsewhere env) /\
              (forall cmd cwd ok, Exec cmd cwd ok ∈ T ->
                 cwd = candidate cfg l build_dir k /\
                 Path.join_str (candidate cfg l build_dir k) ".lock"
                   ∉ locked_elsewhere env) /\
              (r = Ok tt ->
                 Path.join_str (candidate cfg l build_dir k) ".lock"
                   ∉ locked_elsewhere env)) as Hend.
  { intros loc2 s2 Hs Hok Hev.
    destruct (search_end _ _ _ _ _ _ _ Hs) as (T & HT & Hbefore & Hexec & Hfree).
    exists (l_n loc2), (Log Info (MsgCompiling (lib_name l)) :: T).
    rewrite Hev, HT. unfold E. rewrite <- app_assoc. split; [done|]. split; [done|].
    split; [|by intros Hr; apply Hfree, Hok].
    intros cmd cwd ok [[=]|Hin]%elem_of_cons. by eapply Hexec. }
  match type of Hrun with
  | context [cmake_try _ _ _ _ _ _ (?init, ?s0)] =>
      pose proof (returns_cmake_try cfg env l build_dir extra_args build_debug (init, s0))
        as Hret;
      destruct (cmake_try cfg env l build_dir extra_args build_debug (init, s0))
        as [r1 [loc1 s1]] eqn:ET;
      apply (cmake_try_search cfg env l build_dir E) in ET as [Hs1 Hok1];
        [|reflexivity
         |repeat split; cbn [fst snd l_n l_lock l_build_dir];
          [intros; lia|done|apply (only_refl _ s0)]]
  end.
  cbn [fst] in Hret.
  destruct r1 as [[]|e|]; [| |done].
  - cbv [bind get_locals lift] in Hrun. cbn [fst snd] in Hrun.
    apply (Hend loc1 s1); [done|by intros _; apply Hok1|].
    destruct (rmtree (l_build_dir loc1) s1) as [[[]|e|] s2]; by inversion Hrun.
  - assert (lock_search cfg env l build_dir E
              (loc1, with_events s1 [Log Error (MsgStageFailed (l_stage loc1))])) as Hs2.
    { destruct Hs1 as (? & ? & ? & Hon). repeat split; try done. cbn [fst snd] in *.
      eapply (noexec_log _ _ _ _ _ s1); [exact Hon|reflexivity]. }
    destruct (is_Exception e);
      cbv [bind get_locals lift raise] in Hrun; cbn [fst snd] in Hrun;
      rewrite ?log_run in Hrun; cbn [fst snd] in Hrun.
    + eapply (Hend loc1); [exact Hs2| |].
      * intros ->. destruct (rmtree _ _) as [[[]|e'|] s2]; by inversion Hrun.
      * destruct (rmtree _ _) as [[[]|e'|] s2]; by inversion Hrun.
    + apply (Hend loc1 s1); [done| |].
      * intros ->. destruct (rmtree _ _) as [[[]|e'|] s2]; by inversion Hrun.
      * destruct (rmtree _ _) as [[[]|e'|] s2]; by inversion Hrun.
Qed.

(** X6: the build directory of a CMake build is the first of [build],
    [build-1], [build-2], ... whose lock file nobody else holds: the lock
    files of the candidates before it are all held elsewhere.  Every
    subprocess of the build runs in that directory, and only with its lock
    held; when the build returns normally the lock was held; and whatever
    the outcome, the last thing the build does is remove that
    directory. *)
Theorem X6_cmake_runs_in_the_first_free_build_dir
    cfg env l build_dir extra_args build_debug s :
  let run := CMake_BuildAndInstall cfg env l build_dir extra_args build_debug s in
  exists k T,
    st_events run.2 = st_events s ++ T ++ [Rmtree (candidate cfg l build_dir k)] /\
    (forall j, j < k ->
       Path.join_str (candidate cfg l build_dir j) ".lock" ∈ locked_elsewhere env) /\
    (forall cmd cwd ok, Exec cmd cwd ok ∈ T ->
       cwd = candidate cfg l build_dir k /\
       Path.join_str (candidate cfg l build_dir k) ".lock" ∉ locked_elsewhere env) /\
    (run.1 = Ok tt ->
       Path.join_str (candidate cfg l build_dir k) ".lock" ∉ locked_elsewhere env).
Proof.
  intros run. apply (CMake_BuildAndInstall_search cfg env l build_dir extra_args build_debug s).
  apply surjective_pairing.
Qed.


(** ** The generator of a build tree

    [IsGeneratorMultiConfig] reads [CMakeCache.txt] to the end: the last
    line that names the generator decides.  A cache that is not there
    means no; a generator line without [=] is an [IndexError], which the
    [except OSError] does not catch. *)

Lemma scan_generator_none lines g :
  Forall (fun x => generator_line x = false) lines -> scan_generator lines g = inr g.
Proof.
  induction 1 as [|x lines Hx _ IH]; cbn [scan_generator]; [done|].
  unfold generator_line in Hx. by rewrite Hx.
Qed.

Lemma scan_generator_last pre line post g v :
  Forall (fun x => generator_line x = true -> is_Some (Str.split "=" x !! 1)) pre ->
  generator_line line = true ->
  Str.split "=" line !! 1 = Some v ->
  Forall (fun x => generator_line x = false) post ->
  scan_generator (pre ++ line :: post) g = inr (Str.strip v).
Proof.
  intros Hpre Hline Hv Hpost. revert g.
  induction Hpre as [|x pre Hx _ IH]; intros g; cbn [scan_generator Datatypes.app].
  - unfold generator_line in Hline. rewrite Hline, Hv. by apply scan_generator_none.
  - destruct (Str.startswith "CMAKE_GENERATOR:" x) eqn:E; [|apply IH].
    destruct (Hx E) as [w ->]. apply IH.
Qed.

Lemma scan_generator_error lines g e :
  scan_generator lines g = inl e <->
  e = IndexError /\
  Exists (fun x => generator_line x = true /\ Str.split "=" x !! 1 = None) lines.
Proof.
  revert g. induction lines as [|x lines IH]; intros g; cbn [scan_generator].
  - split; [done|]. intros [_ H]. inversion H.
  - unfold generator_line at 1.
    destruct (Str.startswith "CMAKE_GENERATOR:" x) eqn:E.
    + destruct (Str.split "=" x !! 1) as [w|] eqn:Ew.
      * rewrite IH. split; intros [-> H]; (split; [done|]).
        -- by apply Exists_cons_tl.
        -- inversion H as [? ? [_ Hn]|]; subst; [congruence|done].
      * split; [intros [= <-]; split; [done|]; by apply Exists_cons_hd|by intros [-> _]].
    + rewrite IH. split; intros [-> H]; (split; [done|]).
      * by apply Exists_cons_tl.
      * inversion H as [? ? [Hg _]|]; subst; [|done].
        unfold generator_line in Hg. congruence.
Qed.

Lemma IsGeneratorMultiConfig_read d s c :
  FS.read (st_fs s) (Path.join_str d "CMakeCache.txt") = inr c ->
  IsGeneratorMultiConfig d s =
  (match scan_generator (Lines.readlines c) "" with
   | inl e => Raise e
   | inr generator => Ok (is_multi generator)
   end, s).
Proof.
  intros Hc. unfold IsGeneratorMultiConfig, try_except, read_file, bind, get_fs, ret, raise.
  simpl. rewrite Hc.
  destruct (scan_generator (Lines.readlines c) "") as [e|g] eqn:E; [|done].
  apply scan_generator_error in E as [-> _]. done.
Qed.

(** X7: when [CMakeCache.txt] can be read, the last of its lines that
    starts with [CMAKE_GENERATOR:] decides: the answer is whether the text
    between its first and second [=], stripped, starts with
    [Visual Studio] or is one of the multi-config generators, whatever
    the generator lines before it say, as long as each has its [=]; the
    state is not changed. *)
Theorem X7_last_generator_line_decides d s c pre line post v :
  FS.read (st_fs s) (Path.join_str d "CMakeCache.txt") = inr c ->
  Lines.readlines c = pre ++ line :: post ->
  Forall (fun x => generator_line x = true -> is_Some (Str.split "=" x !! 1)) pre ->
  generator_line line = true ->
  Str.split "=" line !! 1 = Some v ->
  Forall (fun x => generator_line x = false) post ->
  IsGeneratorMultiConfig d s = (Ok (is_multi (Str.strip v)), s).
Proof.
  intros Hc Hlines Hpre Hline Hv Hpost. rewrite (IsGeneratorMultiConfig_read d s c Hc).
  by rewrite Hlines, (scan_generator_last pre line post "" v).
Qed.

Lemma X7_witness :
  let cache :=
    Sample.line "CMAKE_GENERATOR:INTERNAL=Unix Makefiles" +:+
    Sample.line "CMAKE_BUILD_TYPE:STRING=Release" +:+
    Sample.line "CMAKE_GENERATOR:INTERNAL= Ninja Multi-Config =x" +:+
    Sample.line "CMAKE_HOME_DIRECTORY:INTERNAL=/src/lib" in
  let s := Sample.start (<[["build"; "CMakeCache.txt"] := NFile cache]> Sample.headers_fs) in
  IsGeneratorMultiConfig ["build"] s = (Ok true, s).
Proof.
  intros cache s.
  apply (X7_last_generator_line_decides ["build"] s cache
           [Sample.line "CMAKE_GENERATOR:INTERNAL=Unix Makefiles";
            Sample.line "CMAKE_BUILD_TYPE:STRING=Release"]
           (Sample.line "CMAKE_GENERATOR:INTERNAL= Ninja Multi-Config =x")
           [Sample.line "CMAKE_HOME_DIRECTORY:INTERNAL=/src/lib"]
           " Ninja Multi-Config ").
  - vm_compute. reflexivity.
  - vm_compute. reflexivity.
  - repeat constructor; vm_compute; eauto.
  - vm_compute. reflexivity.
  - vm_compute. reflexivity.
  - repeat constructor.
Defined.

(** X8: [IsGeneratorMultiConfig] never changes the state.  When
    [CMakeCache.txt] is missing, or is a directory, the answer is no.
    When it is read, as the text [c]: without a generator line the answer
    is no; an exception is raised exactly when a generator line has no
    [=], and then it is an [IndexError], which the [except OSError] does
    not catch.  (A file that cannot be decoded is not covered: the read
    is taken to give a text.) *)
Theorem X8_generator_check_edge_cases d s :
  let cache := Path.join_str d "CMakeCache.txt" in
  let run := IsGeneratorMultiConfig d s in
  run.2 = s /\
  (FS.lookup (st_fs s) cache = None \/ FS.lookup (st_fs s) cache = Some NDir ->
   run.1 = Ok false) /\
  (forall c, FS.read (st_fs s) cache = inr c ->
     Forall (fun x => generator_line x = false) (Lines.readlines c) -> run.1 = Ok false) /\
  (forall c, FS.read (st_fs s) cache = inr c ->
     forall e, run.1 = Raise e <->
       e = IndexError /\
       Exists (fun x => generator_line x = true /\ Str.split "=" x !! 1 = None)
              (Lines.readlines c)).
Proof.
  intros cache run. subst run cache.
  assert (FS.lookup (st_fs s) (Path.join_str d "CMakeCache.txt") = None \/
          FS.lookup (st_fs s) (Path.join_str d "CMakeCache.txt") = Some NDir ->
          IsGeneratorMultiConfig d s = (Ok false, s)) as Hgone.
  { intros Hcase.
    unfold IsGeneratorMultiConfig, try_except, read_file, bind, get_fs, ret, raise.
    simpl. unfold FS.read. by destruct Hcase as [-> | ->]. }
  split; [|split; [|split]].
  - destruct (FS.lookup (st_fs s) (Path.join_str d "CMakeCache.txt")) as [[|c]|] eqn:L.
    + rewrite Hgone; [done|by right].
    + rewrite (IsGeneratorMultiConfig_read d s c); [done|]. unfold FS.read. by rewrite L.
    + rewrite Hgone; [done|by left].
  - intros Hcase. by rewrite (Hgone Hcase).
  - intros c E Hnone. rewrite (IsGeneratorMultiConfig_read d s c E).
    by rewrite scan_generator_none.
  - intros c E e. rewrite (IsGeneratorMultiConfig_read d s c E). cbn [fst].
    rewrite <- (scan_generator_error (Lines.readlines c) "").
    destruct (scan_generator (Lines.readlines c) "") as [e'|g]; split; by intros [= ->].
Qed.

(** ** A line written and read back

    [WriteLineAt] puts the text on line [n] and [ReadLineAt] finds it
    there, whatever [n], as long as the lines the file had all end with a
    line feed.  After a last line without one, the text is glued to that
    line instead. *)

Lemma mem_app c (a b : string) : Str.mem c (a +:+ b) = Str.mem c a || Str.mem c b.
Proof. induction a as [|x a IH]; [done|]. simpl. by rewrite IH, orb_assoc. Qed.

Lemma terminated_inj u v : terminated u = terminated v -> u = v.
Proof.
  unfold terminated. revert v. induction u as [|a u IH]; intros [|b v]; simpl; try done.
  - intros [= _ H]. by destruct v.
  - intros [= _ H]. by destruct u.
  - intros [= -> H]. f_equal. by apply IH.
Qed.

Lemma universal_no_cr s : Str.mem Str.cr (Lines.universal s) = false.
Proof.
  induction s as [|c r IH]; [done|]. simpl.
  destruct (Ascii.eqb c Str.cr) eqn:Ec.
  - destruct r as [|c' r']; [done|]. destruct (Ascii.eqb c' Str.nl) eqn:En.
    + simpl in IH. apply Ascii.eqb_eq in En as ->. simpl in IH. exact IH.
    + exact IH.
  - simpl. by rewrite Ec.
Qed.

Lemma cut_no c s :
  Str.mem c s = false -> Forall (fun x => Str.mem c x = false) (Lines.cut s).
Proof.
  induction s as [|a r IH]; [by constructor|]. simpl. intros [Ha Hr]%orb_false_iff.
  specialize (IH Hr). destruct (Ascii.eqb a Str.nl).
  - constructor; [|done]. simpl. by rewrite Ha.
  - destruct (Lines.cut r) as [|x xs].
    + repeat constructor. simpl. by rewrite Ha.
    + inversion IH; subst. constructor; [|done]. simpl. by rewrite Ha.
Qed.

(** The lines of a text: lines with their line feed, and maybe a last
    one without. *)
Lemma cut_lines s :
  exists init last,
    Lines.cut s = init ++ last /\
    Forall (fun x => exists u, x = terminated u /\ Str.mem Str.nl u = false) init /\
    (last = [] \/ exists u, last = [u] /\ Str.mem Str.nl u = false).
Proof.
  induction s as [|c r (init & last & Hcut & Hinit & Hlast)]; [by exists [], []; eauto|].
  simpl. destruct (Ascii.eqb c Str.nl) eqn:Ec.
  - apply Ascii.eqb_eq in Ec as ->. exists (String Str.nl "" :: init), last.
    rewrite Hcut. split; [done|]. split; [|done]. constructor; [|done]. by exists "".
  - rewrite Hcut. destruct init as [|x init]; simpl.
    + destruct Hlast as [->|(u & -> & Hu)].
      * exists [], [String c ""]. split; [done|]. split; [done|]. right.
        eexists. split; [done|]. simpl. by rewrite Ec.
      * exists [], [String c u]. split; [done|]. split; [done|]. right.
        eexists. split; [done|]. simpl. by rewrite Ec.
    + inversion Hinit as [|? ? (u & -> & Hu) Hinit']; subst.
      exists (terminated (String c u) :: init), last. split; [done|]. split; [|done].
      constructor; [|done]. exists (String c u). split; [done|]. simpl. by rewrite Ec.
Qed.

Lemma mem_nl_terminated u : Str.mem Str.nl (terminated u) = true.
Proof. unfold terminated. rewrite mem_app. simpl. apply orb_true_r. Qed.

(** A line [readlines] gives with its line feed has no other, and no
    carriage return. *)
Lemma readlines_proper c :
  Forall (fun x => ends_line x -> exists u, x = terminated u /\ single_line u)
         (Lines.readlines c).
Proof.
  unfold Lines.readlines.
  pose proof (cut_no Str.cr _ (universal_no_cr c)) as Hcr.
  destruct (cut_lines (Lines.universal c)) as (init & last & Hcut & Hinit & Hlast).
  rewrite Hcut in *. apply Forall_app in Hcr as [Hcr1 Hcr2]. apply Forall_app. split.
  - rewrite Forall_forall in *. intros x Hx _. destruct (Hinit x Hx) as (u & -> & Hu).
    exists u. split; [done|]. split; [done|].
    specialize (Hcr1 _ Hx). unfold terminated in Hcr1. rewrite mem_app in Hcr1.
    by apply orb_false_iff in Hcr1 as [? _].
  - destruct Hlast as [->|(u & -> & Hu)]; [by constructor|]. repeat constructor.
    intros [v ->]. by rewrite mem_nl_terminated in Hu.
Qed.

Lemma readlines_writelines L :
  Forall (fun x => exists u, x = terminated u /\ single_line u) L ->
  Lines.readlines (Lines.writelines L) = L.
Proof.
  induction 1 as [|x L (u & -> & Hu) _ IH]; [done|].
  by rewrite writelines_cons, (readlines_line u _ Hu), IH.
Qed.

Lemma read_line_at_lines f p c j :
  FS.read f p = inr c ->
  read_line_at f p (S j) = Ok (Str.rstrip_nl <$> (Lines.readlines c !! j)).
Proof.
  intros Hr. unfold read_line_at.
  assert (FS.exists_ f p = true) as ->.
  { unfold FS.read in Hr. unfold FS.exists_. by destruct (FS.lookup f p). }
  by rewrite Hr.
Qed.

Lemma read_line_at_lines_of f p j :
  j < List.length (lines_of f p) ->
  read_line_at f p (S j) = Ok (Str.rstrip_nl <$> (lines_of f p !! j)).
Proof.
  unfold lines_of. destruct (FS.read f p) as [e|c] eqn:E; simpl; [lia|].
  intros _. by apply read_line_at_lines.
Qed.

(** The lines of the file after [WriteLineAt], when those it had all end
    with a line feed. *)
Lemma WriteLineAt_lines p i text s s' :
  Forall ends_line (lines_of (st_fs s) p) ->
  single_line (Str.rstrip_nl text) ->
  WriteLineAt p (S i) text s = (Ok tt, s') ->
  exists c, FS.read (st_fs s') p = inr c /\
    Lines.readlines c
    = <[i := terminated (Str.rstrip_nl text)]> (Lines.pad (lines_of (st_fs s) p) (S i)).
Proof.
  intros Hold Ht Hw. destruct (WriteLineAt_Ok _ _ _ _ _ Hw) as (Hr & _).
  eexists. split; [exact Hr|]. apply readlines_writelines.
  apply Forall_insert; [|by eexists]. unfold Lines.pad. apply Forall_app. split.
  - assert (Forall (fun x => ends_line x -> exists u, x = terminated u /\ single_line u)
              (lines_of (st_fs s) p)) as Hp.
    { unfold lines_of. destruct (FS.read (st_fs s) p); [by constructor|].
      apply readlines_proper. }
    rewrite Forall_forall in *. intros x Hx. by apply Hp, Hold.
  - apply Forall_replicate. by exists "".
Qed.

Lemma pad_length old n : List.length (Lines.pad old n) = Nat.max (List.length old) n.
Proof. unfold Lines.pad. rewrite length_app, length_replicate. lia. Qed.

(** X9: [WriteLineAt] and [ReadLineAt] agree on line numbers.  When the
    lines the file had all end with a line feed (or there was no file) and
    the text, without its trailing line feeds, is one line, then after
    [WriteLineAt path n text] has returned, [ReadLineAt path n] gives the
    text without its trailing line feeds; the other lines the file had
    read as before; the lines between the old end and [n] read as empty,
    and there is no line after [n] that was not there. *)
Theorem X9_line_written_is_read_back p i text s s' :
  Forall ends_line (lines_of (st_fs s) p) ->
  single_line (Str.rstrip_nl text) ->
  WriteLineAt p (S i) text s = (Ok tt, s') ->
  let old := lines_of (st_fs s) p in
  ReadLineAt p (S i) s' = (Ok (Some (Str.rstrip_nl text)), s') /\
  (forall j, j <> i -> j < List.length old ->
     ReadLineAt p (S j) s' = ((ReadLineAt p (S j) s).1, s')) /\
  (forall j, List.length old <= j -> j < i -> ReadLineAt p (S j) s' = (Ok (Some ""), s')) /\
  (forall j, List.length old <= j -> i < j -> ReadLineAt p (S j) s' = (Ok None, s')).
Proof.
  intros Hold Ht Hw old.
  destruct (WriteLineAt_lines p i text s s' Hold Ht Hw) as (c & Hr & Hlines).
  fold old in Hlines.
  assert (forall j, ReadLineAt p (S j) s' =
            (Ok (Str.rstrip_nl <$>
                 (<[i := terminated (Str.rstrip_nl text)]> (Lines.pad old (S i)) !! j)), s'))
    as Hread.
  { intros j. by rewrite ReadLineAt_run, (read_line_at_lines _ _ c j Hr), Hlines. }
  repeat split.
  - rewrite Hread, list_lookup_insert_eq by (rewrite pad_length; lia). simpl.
    by rewrite (rstrip_nl_terminated _ (proj1 Ht)).
  - intros j Hj Hlt. rewrite Hread, list_lookup_insert_ne by done.
    unfold Lines.pad. rewrite lookup_app_l by done.
    by rewrite ReadLineAt_run, read_line_at_lines_of.
  - intros j Hge Hlt. rewrite Hread, list_lookup_insert_ne by lia.
    unfold Lines.pad. rewrite lookup_app_r by done.
    rewrite lookup_replicate_2 by lia. reflexivity.
  - intros j Hge Hlt. rewrite Hread, list_lookup_insert_ne by lia.
    rewrite lookup_ge_None_2; [done|]. rewrite pad_length. lia.
Qed.

Lemma X9_witness :
  let p := ["caches"; "hash_lib.txt"] in
  let s := Sample.start (<[p := NFile (Sample.line "4f2a9c1")]> (<[["caches"] := NDir]> ∅)) in
  let s' := (WriteLineAt p 4 (Sample.line "md5:") s).2 in
  ReadLineAt p 4 s' = (Ok (Some "md5:"), s') /\
  ReadLineAt p 1 s' = (Ok (Some "4f2a9c1"), s') /\
  ReadLineAt p 3 s' = (Ok (Some ""), s') /\
  ReadLineAt p 5 s' = (Ok None, s').
Proof.
  intros p s s'.
  destruct (X9_line_written_is_read_back p 3 (Sample.line "md5:") s s') as (H4 & H1 & H3 & H5).
  - repeat constructor. by exists "4f2a9c1".
  - split; vm_compute; reflexivity.
  - exact (run_eq (WriteLineAt p 4 (Sample.line "md5:") s) (Ok tt)
             ltac:(vm_compute; reflexivity)).
  - split; [exact H4|]. split; [|split].
    + rewrite (H1 0); [reflexivity|lia|]. vm_compute. lia.
    + apply (H3 2); vm_compute; lia.
    + apply (H5 4); vm_compute; lia.
Defined.

Lemma writelines_app A B :
  Lines.writelines (A ++ B) = Lines.writelines A +:+ Lines.writelines B.
Proof.
  induction A as [|x A IH]; [by rewrite str_app_nil|].
  change ((x :: A) ++ B) with (x :: (A ++ B)).
  by rewrite !writelines_cons, IH, str_app_assoc.
Qed.

Lemma readlines_after init X :
  Forall (fun x => exists u, x = terminated u /\ single_line u) init ->
  Lines.readlines (Lines.writelines init +:+ X) = init ++ Lines.readlines X.
Proof.
  induction 1 as [|x L (u & -> & Hu) _ IH]; [by rewrite str_app_nil|].
  by rewrite writelines_cons, str_app_assoc, (readlines_line u _ Hu), IH.
Qed.

(** The lines before a last line without line feed, and that line. *)
Lemma readlines_unterminated c init u :
  Lines.readlines c = init ++ [u] -> ~ ends_line u ->
  Forall (fun x => exists v, x = terminated v /\ single_line v) init /\ single_line u.
Proof.
  unfold Lines.readlines. intros Hc Hu.
  pose proof (cut_no Str.cr _ (universal_no_cr c)) as Hcr.
  destruct (cut_lines (Lines.universal c)) as (init0 & last0 & Hcut & Hinit & Hlast).
  rewrite Hcut in Hc. rewrite Hcut in Hcr. apply Forall_app in Hcr as [Hcr1 Hcr2].
  destruct Hlast as [->|(u0 & -> & Hu0)].
  - exfalso. apply Hu. rewrite app_nil_r in Hc. rewrite Forall_forall in Hinit.
    destruct (Hinit u) as (v & -> & _); [|by exists v]. rewrite Hc. set_solver.
  - apply app_inj_tail in Hc as [-> ->]. split.
    + rewrite Forall_forall in *. intros x Hx. destruct (Hinit x Hx) as (v & -> & Hv).
      exists v. split; [done|]. split; [done|].
      specialize (Hcr1 _ Hx). unfold terminated in Hcr1. rewrite mem_app in Hcr1.
      by apply orb_false_iff in Hcr1 as [? _].
    + split; [done|]. by inversion Hcr2.
Qed.

(** X10: after a last line without a line feed, [WriteLineAt] for the
    next line number glues the text to that line: the file has as many
    lines as before, [ReadLineAt] for the last of them gives the old line
    followed by the text, and for the line number that was written it
    gives [None]. *)
Theorem X10_text_after_unterminated_line_is_glued p text s s' init u :
  lines_of (st_fs s) p = init ++ [u] ->
  ~ ends_line u ->
  single_line (Str.rstrip_nl text) ->
  WriteLineAt p (S (S (List.length init))) text s = (Ok tt, s') ->
  ReadLineAt p (S (List.length init)) s' = (Ok (Some (u +:+ Str.rstrip_nl text)), s') /\
  ReadLineAt p (S (S (List.length init))) s' = (Ok None, s').
Proof.
  intros Hold Hu Ht Hw. destruct (WriteLineAt_Ok _ _ _ _ _ Hw) as (Hr & _).
  fold (lines_of (st_fs s) p) in Hr. rewrite Hold in Hr.
  assert (exists c, Lines.readlines c = init ++ [u]) as (c & Hc).
  { unfold lines_of in Hold. destruct (FS.read (st_fs s) p) as [e|c]; [by destruct init|].
    by exists c. }
  destruct (readlines_unterminated c init u Hc Hu) as [Hinit [Hun Huc]].
  destruct Ht as [Htn Htc].
  assert (<[S (List.length init) := terminated (Str.rstrip_nl text)]>
            (Lines.pad (init ++ [u]) (S (S (List.length init))))
          = init ++ [u; terminated (Str.rstrip_nl text)]) as HL.
  { unfold Lines.pad. rewrite length_app. simpl.
    replace (S (S (List.length init)) - (List.length init + 1)) with 1 by lia. simpl.
    rewrite <- app_assoc. simpl.
    rewrite insert_app_r_alt by lia.
    replace (S (List.length init) - List.length init) with 1 by lia. done. }
  rewrite HL in Hr.
  assert (Lines.readlines
            (Lines.writelines (init ++ [u; terminated (Str.rstrip_nl text)]))
          = init ++ [terminated (u +:+ Str.rstrip_nl text)]) as Hlines.
  { rewrite writelines_app, (readlines_after init _ Hinit). f_equal.
    rewrite writelines_cons. change (Lines.writelines [terminated (Str.rstrip_nl text)])
      with (terminated (Str.rstrip_nl text)).
    unfold terminated at 1. rewrite <- str_app_assoc.
    fold (terminated (u +:+ Str.rstrip_nl text)).
    transitivity (Lines.readlines (terminated (u +:+ Str.rstrip_nl text) +:+ ""));
      [by rewrite str_app_empty_r|].
    rewrite readlines_line; [done|]. split; rewrite mem_app; by apply orb_false_iff. }
  rewrite !ReadLineAt_run, !(read_line_at_lines _ _ _ _ Hr), Hlines. split.
  - rewrite lookup_app_r by done. rewrite Nat.sub_diag. simpl.
    rewrite rstrip_nl_terminated; [done|]. rewrite mem_app. by apply orb_false_iff.
  - rewrite lookup_ge_None_2; [done|]. rewrite length_app. simpl. lia.
Qed.

Lemma X10_witness :
  let p := ["caches"; "hash_lib.txt"] in
  let s := Sample.start (<[p := NFile "4f2a9c1"]> (<[["caches"] := NDir]> ∅)) in
  let s' := (WriteLineAt p 2 "md5:" s).2 in
  ReadLineAt p 1 s' = (Ok (Some "4f2a9c1md5:"), s') /\
  ReadLineAt p 2 s' = (Ok None, s').
Proof.
  intros p s s'.
  apply (X10_text_after_unterminated_line_is_glued p "md5:" s s' [] "4f2a9c1").
  - vm_compute. reflexivity.
  - intros [v Hv]. assert (Str.mem Str.nl "4f2a9c1" = true) as Hm
      by (rewrite Hv; apply mem_nl_terminated). discriminate Hm.
  - split; vm_compute; reflexivity.
  - exact (run_eq (WriteLineAt p 2 "md5:" s) (Ok tt) ltac:(vm_compute; reflexivity)).
Defined.

(** ** Libraries that share a record

    The record of a library is named after the last part of its source
    directory and lies in its install directory (or below the cache
    directory, at the same relative place).  Header-only libraries all
    have the install directory [HEADER_SUBDIR]: two of them whose source
    directories end in the same name have one record. *)

(** After an [InstallLibrary] that ended normally the record holds the
    identities of the library. *)
Lemma InstallLibrary_record_matches cfg env l s s1 :
  git_hash s = None -> build_hash s = None ->
  (forall stdout, git_rev_parse env (source_dir cfg l) = Some stdout ->
                  single_line (Str.strip stdout)) ->
  (forall h, build_identity env l = Some h -> single_line h) ->
  InstallLibrary cfg env l s = (Ok tt, s1) ->
  record_matches cfg env l (st_fs s1).
Proof.
  intros Hg Hb Hsl Hsb Hrun.
  rewrite InstallLibrary_eq in Hrun. unfold bind at 1 in Hrun.
  destruct (before_build cfg env l s) as [[[|]|e|] sb] eqn:Hbefore; try done.
  - injection Hrun as <-. simpl.
    unfold before_build in Hbefore. unfold bind at 1 in Hbefore.
    pose proof (IsHashRelevant_fs cfg env l (hash_file_of cfg l) s) as Hfs.
    pose proof (IsHashRelevant_true cfg env l s Hg Hb) as Htrue.
    destruct (IsHashRelevant cfg env l (hash_file_of cfg l) s) as [[[|]|e|] s'] eqn:E;
      simpl in *; [| |done..].
    + injection Hbefore as <-. rewrite Hfs. by apply Htrue.
    + exfalso. revert Hbefore. unfold bind, path_exists, get_fs, ret, log, emit. simpl.
      destruct (FS.exists_ (st_fs s') (install_dir cfg l)); simpl; [done|].
      by destruct (mkdir_parents (install_dir cfg l) s') as [[[]|e|] s''].
  - unfold bind at 1 in Hrun.
    destruct (BuildAndInstall cfg env l sb) as [[[]|e|] s3] eqn:Hbuild; try done.
    unfold after_build, bind, log, emit in Hrun.
    destruct (WriteHash cfg env l (hash_file_of cfg l) s3) as [[[]|e|] s4] eqn:Hw; try done.
    injection Hrun as <-. simpl.
    eapply WriteHash_matches; [|exact Hsl|exact Hsb|exact Hw].
    pose proof (IsHashRelevant_memo_ok cfg env l s Hg Hb) as Hok.
    eapply memo_ok_transfer; [exact Hok|].
    eapply (always_BuildAndInstall (memo_is _ _)); [|exact Hbuild].
    eapply before_build_memo; [exact Hbefore|]. done.
Qed.

Lemma header_record cfg src1 sub1 paths1 src2 sub2 paths2 :
  Path.name src1 = Path.name src2 ->
  hash_file_of cfg (HeaderLibrary_init cfg src1 sub1 paths1)
  = hash_file_of cfg (HeaderLibrary_init cfg src2 sub2 paths2).
Proof.
  intros Hname. unfold hash_file_of, install_dir, lib_name, HeaderLibrary_init. simpl.
  by rewrite Hname.
Qed.

(** X11: two header-only libraries whose source directories have the same
    last part have the same record, whatever their install subdirectories
    and patterns.  When git gives the same revision in both source
    directories (two directories of one repository, say), then after the
    first has been installed the second is taken to be up to date: its
    [InstallLibrary], on a new object, asks git, logs "up to date" and
    returns, and none of its headers is copied. *)
Theorem X11_header_libraries_share_a_record
    cfg env src1 sub1 paths1 src2 sub2 paths2 s s1 :
  let l1 := HeaderLibrary_init cfg src1 sub1 paths1 in
  let l2 := HeaderLibrary_init cfg src2 sub2 paths2 in
  Path.name src1 = Path.name src2 ->
  git_rev_parse env (source_dir cfg l1) = git_rev_parse env (source_dir cfg l2) ->
  (forall stdout, git_rev_parse env (source_dir cfg l1) = Some stdout ->
                  single_line (Str.strip stdout)) ->
  git_hash s = None -> build_hash s = None ->
  InstallLibrary cfg env l1 s = (Ok tt, s1) ->
  hash_file_of cfg l1 = hash_file_of cfg l2 /\
  exists s2,
    InstallLibrary cfg env l2 (fresh s1) = (Ok tt, s2) /\
    st_fs s2 = st_fs s1 /\
    st_events s2 =
      st_events s1 ++ [GitRevParse (source_dir cfg l2); Log Info (MsgUpToDate (lib_name l2))].
Proof.
  intros l1 l2 Hname Hgit Hsl Hg Hb Hrun.
  pose proof (header_record cfg src1 sub1 paths1 src2 sub2 paths2 Hname) as Hrec.
  fold l1 l2 in Hrec. split; [exact Hrec|].
  destruct (InstallLibrary_record_matches cfg env l1 s s1 Hg Hb Hsl ltac:(done) Hrun)
    as (out & Hout & H1 & _).
  assert (record_matches cfg env l2 (st_fs s1)) as Hrec2.
  { exists out. rewrite <- Hgit, <- Hrec. split; [done|]. split; [done|]. by intros h [=]. }
  destruct (IsHashRelevant_matches cfg env l2 (fresh s1) Hrec2 eq_refl eq_refl)
    as (s' & Hcheck & Hfs & Hev).
  exists (with_events s' [Log Info (MsgUpToDate (lib_name l2))]).
  split; [|split].
  - unfold InstallLibrary. unfold bind. rewrite Hcheck. reflexivity.
  - exact Hfs.
  - simpl. rewrite Hev. simpl. by rewrite <- app_assoc.
Qed.

Lemma X11_witness :
  let l1 := HeaderLibrary_init Sample.config ["a"; "include"] [] ["*.h"] in
  let l2 := HeaderLibrary_init Sample.config ["b"; "include"] [] ["*.h"] in
  let s1 := (InstallLibrary Sample.config Sample.env_ok l1
               (Sample.start Sample.two_headers_fs)).2 in
  let s2 := (InstallLibrary Sample.config Sample.env_ok l2 (fresh s1)).2 in
  (hash_file_of Sample.config l1 = hash_file_of Sample.config l2 /\
   exists s2',
     InstallLibrary Sample.config Sample.env_ok l2 (fresh s1) = (Ok tt, s2') /\
     st_fs s2' = st_fs s1 /\
     st_events s2' =
       st_events s1 ++ [GitRevParse (source_dir Sample.config l2);
                        Log Info (MsgUpToDate (lib_name l2))]) /\
  st_fs s1 !! (Sample.bin ++ ["header-only"; "x.h"]) = Some (NFile "X") /\
  st_fs s2 !! (Sample.bin ++ ["header-only"; "y.h"]) = None.
Proof.
  intros l1 l2 s1 s2. split; [|split; vm_compute; reflexivity].
  refine (X11_header_libraries_share_a_record Sample.config Sample.env_ok
            ["a"; "include"] [] ["*.h"] ["b"; "include"] [] ["*.h"]
            (Sample.start Sample.two_headers_fs) s1 _ _ _ _ _ _).
  - reflexivity.
  - reflexivity.
  - intros stdout [= <-]. vm_compute. done.
  - reflexivity.
  - reflexivity.
  - exact (run_eq (InstallLibrary Sample.config Sample.env_ok l1
                     (Sample.start Sample.two_headers_fs)) _ ltac:(vm_compute; reflexivity)).
Defined.

(** ** The groups of the command line

    Every argument that is the name of a command starts a group; what
    comes before the first is the global group.  No argument is lost, and
    every group of the loop over the commands starts with its command. *)

Lemma groupby_head {K A} `{EqDecision K} (k : K) (a : A) l :
  exists g groups, groupby ((k, a) :: l) = (k, a :: g) :: groups.
Proof.
  simpl. destruct (groupby l) as [|[k' g] groups]; [by eexists _, _|].
  destruct (decide (k = k')); by eexists _, _.
Qed.

(** The groups from a state in which a group has begun: the rest [pre]
    of that group, if any, and the groups of the commands that follow,
    numbered from the count of the state on. *)
Lemma groups_from (c : string) (n : nat) (args : list string) :
  exists pre cmds,
    groupby (keyed (fun arg => groupargs arg COMMAND_NAMES) args
               {| g_cmd := Some c; g_count := n |})
    = match pre with [] => [] | _ => [((n, Some c), pre)] end ++ cmds /\
    args = pre ++ List.concat (cmds.*2) /\
    Forall (fun arg => ~ is_command arg) pre /\
    Forall command_line cmds /\
    cmds.*1.*1 = seq (S n) (List.length cmds).
Proof.
  revert c n. induction args as [|a args IH]; intros c n.
  { exists [], []. by repeat split. }
  cbn [keyed]. unfold groupargs at 1.
  destruct (bool_decide (a ∈ COMMAND_NAMES)) eqn:Ha;
    repeat (progress (cbv beta iota zeta; cbn [g_cmd g_count])).
  - apply bool_decide_eq_true in Ha.
    destruct (IH a (S n)) as (pre & cmds & Hg & Hargs & Hpre & Hcmds & Hcount).
    exists [], (((S n, Some a), a :: pre) :: cmds). cbn [groupby]. rewrite Hg.
    split; [|split; [|split; [|split]]].
    + destruct pre as [|x pre]; simpl.
      * destruct cmds as [|[[m oc] g] cmds]; [done|].
        injection Hcount as Hm _. destruct (decide _) as [[= E _]|]; [lia|done].
      * by rewrite decide_True.
    + simpl. by rewrite Hargs.
    + done.
    + constructor; [|done]. by exists a, pre.
    + rewrite !fmap_cons, Hcount. reflexivity.
  - apply bool_decide_eq_false in Ha.
    destruct (IH c n) as (pre & cmds & Hg & Hargs & Hpre & Hcmds & Hcount).
    exists (a :: pre), cmds. cbn [groupby]. rewrite Hg.
    split; [|split; [|split; [|split]]]; try done.
    + destruct pre as [|x pre]; simpl.
      * destruct cmds as [|[[m oc] g] cmds]; [done|].
        injection Hcount as Hm _. destruct (decide _) as [[= E _]|]; [lia|done].
      * by rewrite decide_True.
    + simpl. by rewrite Hargs.
    + by constructor.
Qed.

(** X12: [main] cuts the command line into the global arguments and the
    groups of the commands so that nothing is lost or reordered: the
    global arguments followed by the groups give the command line back.
    No global argument is the name of a command; every group of the loop
    over the commands starts with the name of a command, the one in its
    key, and holds no other; the groups are numbered 1, 2, 3, ...  So a
    group is never empty and its name is always one of the registered
    commands, and every argument equal to the name of a command starts a
    group of its own, wherever it stands. *)
Theorem X12_command_line_is_cut_at_the_commands (argv : list string) :
  let cut := global_group_args (command_groups argv) in
  cut.1 ++ List.concat (cut.2.*2) = argv /\
  Forall (fun arg => ~ is_command arg) cut.1 /\
  Forall command_line cut.2 /\
  cut.2.*1.*1 = seq 1 (List.length cut.2).
Proof.
  intros cut.
  assert (exists g cmds,
            cut = (g, cmds) /\ g ++ List.concat (cmds.*2) = argv /\
            Forall (fun arg => ~ is_command arg) g /\
            Forall command_line cmds /\
            cmds.*1.*1 = seq 1 (List.length cmds)) as (g & cmds & -> & H); [|exact H].
  subst cut. unfold command_groups.
  destruct argv as [|a args]; [by exists [], []|].
  cbn [keyed]. unfold groupargs at 1.
  destruct (bool_decide (a ∈ COMMAND_NAMES)) eqn:Ha;
    repeat (progress (cbv beta iota zeta; cbn [g_cmd g_count])).
  - apply bool_decide_eq_true in Ha.
    destruct (groups_from a 1 args) as (pre & cmds & Hg & Hargs & Hpre & Hcmds & Hcount).
    assert (groupby (((1, Some a), a) ::
              keyed (fun arg => groupargs arg COMMAND_NAMES) args
                {| g_cmd := Some a; g_count := 1 |})
            = ((1, Some a), a :: pre) :: cmds) as ->.
    { cbn [groupby]. rewrite Hg. destruct pre as [|x pre]; simpl.
      - destruct cmds as [|[[m oc] g] cmds]; [done|].
        injection Hcount as Hm _. destruct (decide _) as [[= E _]|]; [lia|done].
      - by rewrite decide_True. }
    cbn [global_group_args]. rewrite bool_decide_eq_false_2.
    + eexists _, _. split; [reflexivity|]. split; [by simpl; rewrite Hargs|].
      split; [done|]. split; [constructor; [by exists a, pre|done]|].
      rewrite !fmap_cons, Hcount. reflexivity.
    + intros [= ->]. unfold COMMAND_NAMES in Ha.
      repeat (apply elem_of_cons in Ha as [Ha|Ha]; [discriminate Ha|]).
      by apply elem_of_nil in Ha.
  - apply bool_decide_eq_false in Ha.
    destruct (groups_from "global" 0 args) as (pre & cmds & Hg & Hargs & Hpre & Hcmds & Hcount).
    assert (groupby (((0, Some "global"), a) ::
              keyed (fun arg => groupargs arg COMMAND_NAMES) args
                {| g_cmd := Some "global"; g_count := 0 |})
            = ((0, Some "global"), a :: pre) :: cmds) as ->.
    { cbn [groupby]. rewrite Hg. destruct pre as [|x pre]; cbn [Datatypes.app].
      - destruct cmds as [|[[m oc] g] cmds]; [done|].
        injection Hcount as Hm _. destruct (decide _) as [[= E _]|]; [lia|done].
      - by rewrite decide_True. }
    cbn [global_group_args]. rewrite bool_decide_eq_true_2 by done.
    eexists _, _. split; [reflexivity|]. split; [by simpl; rewrite Hargs|].
    split; [by constructor|]. done.
Qed.

(** ** The rules of [add-manual-lib]

    The arguments are cut at every ['rule']: what stands between one
    ['rule'] and the next, or the end, are the arguments of one rule. *)

Lemma rule_indices_from_cons k x l :
  rule_indices_from k (x :: l)
  = (if String.eqb x "rule" then [k] else []) ++ rule_indices_from (S k) l.
Proof.
  unfold rule_indices_from. rewrite imap_cons. cbn [List.filter snd].
  rewrite Nat.add_0_r.
  assert (imap ((fun i x0 => (k + i, x0)) ∘ S) l = imap (fun i x0 => (S k + i, x0)) l) as ->.
  { apply imap_ext. intros i y _. simpl. f_equal. lia. }
  by destruct (String.eqb x "rule").
Qed.

Lemma rule_indices_from_0 l : rule_indices l = rule_indices_from 0 l.
Proof. reflexivity. Qed.

Lemma slice_all {A} (l : list A) a : slice l a (List.length l) = drop a l.
Proof. unfold slice. rewrite take_ge; [done|]. rewrite length_drop. lia. Qed.

Lemma slice_snoc {A} (l : list A) a k x :
  a <= k -> l !! k = Some x -> slice l a (S k) = slice l a k ++ [x].
Proof.
  intros Hak Hk. unfold slice. replace (S k - a) with (S (k - a)) by lia.
  erewrite take_S_r; [done|]. rewrite lookup_drop. by replace (a + (k - a)) with k by lia.
Qed.

Lemma slice_drop {A} (l : list A) a k : a <= k -> slice l a k ++ drop k l = drop a l.
Proof.
  intros Hak. unfold slice. replace (drop k l) with (drop (k - a) (drop a l)).
  - apply take_drop.
  - rewrite drop_drop. f_equal. lia.
Qed.

(** The rules from position [k] on, a rule having begun at [a]. *)
Lemma rules_from (L pre suf : list string) (a : nat) :
  L = pre ++ suf -> a < List.length pre ->
  Forall (fun x => x <> "rule") (slice L (S a) (List.length pre)) ->
  let pieces :=
    (fun ab : nat * nat => slice L (S ab.1) ab.2)
      <$> consecutive (a :: rule_indices_from (List.length pre) suf) (List.length L) in
  List.concat ((fun r => "rule" :: r) <$> pieces) = "rule" :: drop (S a) L /\
  Forall (Forall (fun x => x <> "rule")) pieces.
Proof.
  revert a pre. induction suf as [|x suf IH]; intros a pre HL Ha Hno pieces; subst pieces.
  - rewrite app_nil_r in HL. subst pre. unfold rule_indices_from, consecutive. simpl.
    rewrite slice_all in *. rewrite app_nil_r. split; [done|]. by repeat constructor.
  - rewrite rule_indices_from_cons.
    assert (L = (pre ++ [x]) ++ suf) as HL' by (by rewrite <- app_assoc).
    assert (L !! List.length pre = Some x) as Hx.
    { rewrite HL. by rewrite lookup_app_r, Nat.sub_diag by lia. }
    assert (List.length (pre ++ [x]) = S (List.length pre)) as Hlen
      by (rewrite length_app; simpl; lia).
    destruct (String.eqb x "rule") eqn:Ex.
    + apply String.eqb_eq in Ex as ->.
      destruct (IH (List.length pre) (pre ++ ["rule"]) HL') as [Hc Hf].
      { lia. }
      { rewrite Hlen. unfold slice. rewrite Nat.sub_diag. constructor. }
      rewrite Hlen in Hc, Hf.
      unfold consecutive in *. cbn [Datatypes.app tail zip zip_with fmap list_fmap] in *.
      cbn [List.concat fst snd] in *. split.
      * rewrite Hc. cbn [Datatypes.app]. f_equal.
        rewrite <- (slice_drop L (S a) (List.length pre)) by lia. f_equal.
        symmetry. by apply drop_S.
      * constructor; [exact Hno|exact Hf].
    + apply String.eqb_neq in Ex. cbn [Datatypes.app].
      pose proof (IH a (pre ++ [x]) HL') as IH'. rewrite Hlen in IH'.
      apply IH'; [lia|].
      rewrite (slice_snoc _ _ _ x) by (done || lia). apply Forall_app. by repeat constructor.
Qed.

Lemma rule_args_consecutive l idx :
  rule_args l idx <$> seq 0 (List.length idx)
  = (fun ab : nat * nat => slice l (S ab.1) ab.2) <$> consecutive idx (List.length l).
Proof.
  apply list_eq. intros i. rewrite !list_lookup_fmap. unfold consecutive.
  rewrite lookup_zip_with.
  destruct (decide (i < List.length idx)) as [Hi|Hi].
  - rewrite lookup_seq_lt by done. simpl.
    destruct (lookup_lt_is_Some_2 idx i Hi) as [a Ha]. rewrite Ha. simpl.
    unfold rule_args. rewrite Ha. simpl. replace (a + 1) with (S a) by lia.
    destruct (decide (i + 1 < List.length idx)) as [Hj|Hj].
    + destruct (lookup_lt_is_Some_2 idx (i + 1) Hj) as [b Hb]. rewrite Hb.
      rewrite lookup_app_l by (rewrite length_tl; lia).
      rewrite lookup_tail. replace (S i) with (i + 1) by lia. by rewrite Hb.
    + rewrite (lookup_ge_None_2 idx (i + 1)) by lia.
      rewrite lookup_app_r by (rewrite length_tl; lia).
      rewrite length_tl. replace (i - (List.length idx - 1)) with 0 by lia. done.
  - rewrite lookup_seq_ge by lia. by rewrite (lookup_ge_None_2 idx i) by lia.
Qed.

Lemma parse_rules_error parse_rule rules_args e :
  parse_rules parse_rule rules_args = inl e ->
  (exists r, r ∈ rules_args /\ e = ValueError r) \/ is_Exception e = false.
Proof.
  induction rules_args as [|r rest IH]; [done|]. simpl.
  destruct (parse_rule r) as [e'|[[s d] ex]].
  - destruct (is_Exception e') eqn:E; intros [= <-]; [left|by right].
    exists r. split; [by left|done].
  - destruct (parse_rules parse_rule rest) as [e'|rules]; [|done].
    intros [= ->]. destruct (IH eq_refl) as [(r' & Hr & ->)|H]; [left|by right].
    exists r'. split; [by right|done].
Qed.

(** X13: [add-manual-lib] wants its rules to start with ['rule']: if the
    first of the arguments left for the rules is not ['rule'] (or there
    is none) the library is refused with a [ValueError].  Otherwise the
    arguments are cut at every ['rule']: each rule gets what stands
    between its ['rule'] and the next one or the end, so the rules, each
    with ['rule'] put back in front, give the arguments back, and no rule
    has an argument ['rule']; the rules are parsed in order.  An
    [Exception] of the parser of a rule becomes a [ValueError] that tells
    the arguments of that rule; any other exception (the [SystemExit] of
    argparse) goes through as it is. *)
Theorem X13_rules_are_cut_at_rule parse_rule src install rule_args_list :
  (head rule_args_list <> Some "rule" ->
   Manual_CreateLibrary parse_rule src install rule_args_list = inl (ValueError [])) /\
  (head rule_args_list = Some "rule" ->
   exists rules_args,
     List.concat ((fun r => "rule" :: r) <$> rules_args) = rule_args_list /\
     Forall (Forall (fun x => x <> "rule")) rules_args /\
     Manual_CreateLibrary parse_rule src install rule_args_list =
       match parse_rules parse_rule rules_args with
       | inl e => inl e
       | inr rules =>
           inr {| source_dir_base := Path.parse src;
                  install_dir_base := Path.parse install;
                  kind := ManualLibrary rules |}
       end /\
     forall e, parse_rules parse_rule rules_args = inl e ->
       (exists r, r ∈ rules_args /\ e = ValueError r) \/ is_Exception e = false).
Proof.
  split.
  - intros Hhead. unfold Manual_CreateLibrary.
    rewrite (bool_decide_eq_false_2 _ Hhead). by rewrite orb_true_r.
  - intros Hhead. destruct rule_args_list as [|x l]; [done|]. injection Hhead as ->.
    pose proof (rule_indices_from_cons 0 "rule" l) as Hidx.
    change (rule_indices_from 0 ("rule" :: l)) with (rule_indices ("rule" :: l)) in Hidx.
    cbn [String.eqb] in Hidx. rewrite ?Ascii.eqb_refl in Hidx. cbn [Datatypes.app] in Hidx.
    destruct (rules_from ("rule" :: l) ["rule"] l 0 eq_refl) as [Hc Hf]; [simpl; lia|constructor|].
    cbn [List.length] in Hc, Hf. rewrite <- Hidx in Hc, Hf.
    rewrite <- rule_args_consecutive in Hc, Hf.
    eexists. split; [exact Hc|]. split; [exact Hf|]. split.
    + unfold Manual_CreateLibrary. rewrite bool_decide_eq_false_2 by (by rewrite Hidx).
      by rewrite bool_decide_eq_true_2.
    + intros e. apply parse_rules_error.
Qed.

(** ** What is left of the build directory

    The method ends with [shutil.rmtree(build_dir)]; when it returns
    normally, that call has succeeded. *)

Lemma rmtree_removes q s s' p :
  rmtree q s = (Ok tt, s') -> q `prefix_of` p -> st_fs s' !! p = None.
Proof.
  unfold rmtree, fs_op, bind, emit, get_fs, set_fs, raise. simpl.
  destruct (FS.rmtree (st_fs s) q) as [e|f'] eqn:E; [done|]. intros [= <-] Hp. simpl.
  unfold FS.rmtree in E. repeat case_match; simplify_eq. unfold FS.remove_tree.
  apply map_lookup_filter_None_2. right. intros n _ Hn. by apply Hn.
Qed.

(** The state in which the method ends is the one the final [rmtree]
    leaves; when the method returns normally, so has that call, and the
    lock was held. *)
Lemma CMake_BuildAndInstall_end cfg env l build_dir extra_args build_debug s r s' :
  CMake_BuildAndInstall cfg env l build_dir extra_args build_debug s = (r, s') ->
  exists loc2 s2 r2,
    lock_search cfg env l build_dir
      (st_events s ++ [Log Info (MsgCompiling (lib_name l))]) (loc2, s2) /\
    rmtree (l_build_dir loc2) s2 = (r2, s') /\
    (r = Ok tt -> r2 = Ok tt /\ l_lock loc2 = true).
Proof.
  intros Hrun. unfold CMake_BuildAndInstall in Hrun. unfold bind at 1 in Hrun.
  rewrite log_run in Hrun. unfold with_locals, try_finally, try_except in Hrun.
  set (E := st_events s ++ [Log Info (MsgCompiling (lib_name l))]).
  match type of Hrun with
  | context [cmake_try _ _ _ _ _ _ (?init, ?s0)] =>
      pose proof (returns_cmake_try cfg env l build_dir extra_args build_debug (init, s0))
        as Hret;
      destruct (cmake_try cfg env l build_dir extra_args build_debug (init, s0))
        as [r1 [loc1 s1]] eqn:ET;
      apply (cmake_try_search cfg env l build_dir E) in ET as [Hs1 Hok1];
        [|reflexivity
         |repeat split; cbn [fst snd l_n l_lock l_build_dir];
          [intros; lia|done|apply (only_refl _ s0)]]
  end.
  cbn [fst] in Hret.
  destruct r1 as [[]|e|]; [| |done].
  - cbv [bind get_locals lift] in Hrun. cbn [fst snd] in Hrun.
    exists loc1, s1. destruct (rmtree (l_build_dir loc1) s1) as [r2 s2] eqn:ER.
    exists r2. split; [done|].
    destruct r2 as [[]|e|]; inversion Hrun; subst; (split; [done|]); try done.
    intros _. split; [done|]. by apply Hok1.
  - assert (lock_search cfg env l build_dir E
              (loc1, with_events s1 [Log Error (MsgStageFailed (l_stage loc1))])) as Hs2.
    { destruct Hs1 as (? & ? & ? & Hon). repeat split; try done. cbn [fst snd] in *.
      eapply (noexec_log _ _ _ _ _ s1); [exact Hon|reflexivity]. }
    destruct (is_Exception e);
      cbv [bind get_locals lift raise] in Hrun; cbn [fst snd] in Hrun;
      rewrite ?log_run in Hrun; cbn [fst snd] in Hrun.
    + eexists loc1, _. destruct (rmtree (l_build_dir loc1) _) as [r2 s2] eqn:ER.
      exists r2. split; [exact Hs2|].
      destruct r2 as [[]|e'|]; inversion Hrun; subst; by split.
    + exists loc1, s1. destruct (rmtree (l_build_dir loc1) s1) as [r2 s2] eqn:ER.
      exists r2. split; [done|].
      destruct r2 as [[]|e'|]; inversion Hrun; subst; by split.
Qed.

(** X14: when a CMake build returns normally, nothing is left of its
    build directory: the directory it has used, the first of [build],
    [build-1], ... whose lock nobody else held, is gone with all that was
    in it, the lock file too. *)
Theorem X14_successful_build_leaves_no_build_dir
    cfg env l build_dir extra_args build_debug s s' :
  CMake_BuildAndInstall cfg env l build_dir extra_args build_debug s = (Ok tt, s') ->
  exists k,
    (forall j, j < k ->
       Path.join_str (candidate cfg l build_dir j) ".lock" ∈ locked_elsewhere env) /\
    (Path.join_str (candidate cfg l build_dir k) ".lock" ∉ locked_elsewhere env) /\
    (forall p, candidate cfg l build_dir k `prefix_of` p -> st_fs s' !! p = None).
Proof.
  intros Hrun.
  destruct (CMake_BuildAndInstall_end _ _ _ _ _ _ _ _ _ Hrun)
    as (loc2 & s2 & r2 & (Hd & Hbefore & Hfree & _) & Hrm & Hok).
  destruct (Hok eq_refl) as [-> Hlock]. cbn [fst snd] in *.
  exists (l_n loc2). split; [done|]. rewrite <- Hd. split; [by apply Hfree|].
  intros p Hp. by eapply rmtree_removes.
Qed.

Lemma X14_witness :
  let run := CMake_BuildAndInstall Sample.config Sample.env_ok (Sample.cmake_lib [] true)
               ["build"] [] true (Sample.start Sample.installed_fs) in
  exists k,
    (forall j, j < k ->
       Path.join_str (candidate Sample.config (Sample.cmake_lib [] true) ["build"] j) ".lock"
         ∈ locked_elsewhere Sample.env_ok) /\
    (Path.join_str (candidate Sample.config (Sample.cmake_lib [] true) ["build"] k) ".lock"
       ∉ locked_elsewhere Sample.env_ok) /\
    (forall p, candidate Sample.config (Sample.cmake_lib [] true) ["build"] k `prefix_of` p ->
               st_fs run.2 !! p = None).
Proof.
  intros run.
  apply (X14_successful_build_leaves_no_build_dir Sample.config Sample.env_ok
           (Sample.cmake_lib [] true) ["build"] [] true (Sample.start Sample.installed_fs)).
  exact (run_eq run (Ok tt) ltac:(vm_compute; reflexivity)).
Defined.

(** ** Libraries without sources

    A library whose source directory is missing is passed over with a
    warning; it does not count as a failure. *)

Lemma skipped_libraries cfg env libs s :
  git_hash s = None -> build_hash s = None ->
  Forall (fun l => FS.exists_ (st_fs s) (source_dir cfg l) = false) libs ->
  for_each libs (process_library cfg env) s
  = (Ok tt, with_events s
              ((fun l => Log Warning (MsgSourceNotFound (source_dir cfg l))) <$> libs)).
Proof.
  intros Hg Hb Hall. revert s Hg Hb Hall.
  induction libs as [|l libs IH]; intros s Hg Hb Hall.
  - simpl. unfold ret. f_equal. destruct s. unfold with_events. simpl. by rewrite app_nil_r.
  - inversion Hall as [|? ? Hl Hrest]; subst. cbn [for_each]. unfold bind at 1.
    unfold process_library. unfold bind at 1. rewrite fresh_object_run.
    unfold bind at 1. unfold path_exists, bind at 1, get_fs, ret.
    change (st_fs (fresh s)) with (st_fs s). rewrite Hl. cbv beta iota. unfold negb.
    rewrite log_run.
    assert (fresh s = s) as -> by (destruct s; simpl in *; by subst).
    rewrite IH; [|done..]. f_equal. unfold with_events. simpl. by rewrite <- app_assoc.
Qed.

Lemma skipped_libraries_fresh cfg env l libs s :
  Forall (fun l => FS.exists_ (st_fs s) (source_dir cfg l) = false) (l :: libs) ->
  for_each (l :: libs) (process_library cfg env) s
  = (Ok tt, with_events (fresh s)
              ((fun l => Log Warning (MsgSourceNotFound (source_dir cfg l))) <$> l :: libs)).
Proof.
  intros Hall. inversion Hall as [|? ? Hl Hrest]; subst.
  cbn [for_each]. unfold bind at 1.
  unfold process_library at 1. unfold bind at 1. rewrite fresh_object_run.
  unfold bind at 1. unfold path_exists, bind at 1, get_fs, ret.
  change (st_fs (fresh s)) with (st_fs s). rewrite Hl. cbv beta iota. unfold negb.
  rewrite log_run. cbv beta iota. rewrite skipped_libraries; [|done..].
  f_equal. unfold with_events. simpl. by rewrite <- app_assoc.
Qed.

(** X15: when none of the source directories of the libraries exists,
    [main] logs a warning for each library, in order, touches nothing in
    the file system, asks git nothing, and ends normally with "All
    libraries installed successfully": passing over a library is not a
    failure, and the closing message does not tell that nothing was
    installed. *)
Theorem X15_libraries_without_sources_are_passed_over cfg env libs s :
  libs <> [] ->
  Forall (fun l => FS.exists_ (st_fs s) (source_dir cfg l) = false) libs ->
  main_libraries cfg env libs s
  = (Ok tt, with_events (fresh s)
              (((fun l => Log Warning (MsgSourceNotFound (source_dir cfg l))) <$> libs)
               ++ [Log Success MsgAllInstalled])).
Proof.
  intros Hne Hall. destruct libs as [|l libs]; [done|].
  unfold main_libraries. unfold bind at 1. rewrite skipped_libraries_fresh by done.
  rewrite log_run. f_equal. unfold with_events. simpl. by rewrite <- !app_assoc.
Qed.

Lemma X15_witness :
  main_libraries Sample.config Sample.env_ok [Sample.headers ""; Sample.steam_dlls]
    (Sample.start ∅)
  = (Ok tt,
     with_events (fresh (Sample.start ∅))
       [Log Warning (MsgSourceNotFound (Sample.src ++ ["lib"]));
        Log Warning (MsgSourceNotFound (Sample.src ++ ["SteamworksSDK"]));
        Log Success MsgAllInstalled]).
Proof.
  apply (X15_libraries_without_sources_are_passed_over Sample.config Sample.env_ok
           [Sample.headers ""; Sample.steam_dlls] (Sample.start ∅)).
  - discriminate.
  - repeat constructor.
Defined.

(** ** A rule that names a file

    When the part of the pattern before the first wildcard is a file,
    the rule copies that file and nothing else. *)

Lemma apply_rule_file cfg l pattern dst_subdir exclude_pattern c s :
  let glob_root := Path.join (source_dir cfg l) (_SplitPattern pattern).1 in
  let target :=
    Path.join_str (Path.join_str (install_dir cfg l) dst_subdir) (Path.name glob_root) in
  FS.lookup (st_fs s) glob_root = Some (NFile c) ->
  apply_rule cfg l (pattern, dst_subdir, exclude_pattern) s
  = ((if negb (String.eqb exclude_pattern "")
      then log (MsgExcludeNotNeeded exclude_pattern) Warning else ret tt) ;;;
     mkdir_parents_exist_ok (Path.parent target) ;;;
     copy2 glob_root target)%prog s.
Proof.
  intros glob_root target Hfile. unfold apply_rule. subst glob_root target.
  destruct (_SplitPattern pattern) as [fixed sub]. simpl in *.
  unfold bind at 1. unfold get_fs. unfold FS.exists_, FS.is_file. by rewrite Hfile.
Qed.

(** Copying the file [src], with the directories above [target] made
    first: where the file is afterwards. *)
Lemma copy_file_lands src target c s s' :
  FS.lookup (st_fs s) src = Some (NFile c) ->
  (mkdir_parents_exist_ok (Path.parent target) ;;; copy2 src target)%prog s = (Ok tt, s') ->
  st_fs s' !! (if FS.is_dir (st_fs s) target then target ++ [Path.name src] else target)
  = Some (NFile c).
Proof.
  intros Hfile.
  unfold mkdir_parents_exist_ok, copy2, fs_op, bind, emit, get_fs, set_fs. simpl.
  destruct (FS.makedirs (st_fs s) (Path.parent target)) as [e|f1] eqn:E1; [discriminate|].
  simpl.
  assert (FS.is_dir f1 target = FS.is_dir (st_fs s) target) as Hnd1.
  { unfold FS.is_dir. by rewrite (makedirs_parent_lookup _ _ _ E1). }
  unfold FS.copy2. rewrite Hnd1.
  assert (FS.read f1 src = inr c) as ->.
  { unfold FS.read. rewrite (lookup_keeps (st_fs s) f1 src (NFile c)); [done| |exact Hfile].
    intros m Hm. eapply makedirs_keeps; eauto. }
  set (dst := if FS.is_dir (st_fs s) target then target ++ [Path.name src] else target).
  unfold FS.write.
  destruct (FS.lookup f1 dst) as [[|c0]|] eqn:L.
  - discriminate.
  - simpl. intros [= <-]. simpl. apply lookup_insert_eq.
  - destruct (FS.parent_error f1 dst); [discriminate|].
    simpl. intros [= <-]. simpl. apply lookup_insert_eq.
Qed.

(** X16: a rule whose pattern, up to its first wildcard, names a file
    copies that file to [install_dir / dst_subdir / name], [name] being
    the name of the file; if that destination is a directory already, the
    file goes into it, under its name once more.  An exclude pattern of
    such a rule changes nothing but for a warning: the outcome and the
    file system are the same as without it. *)
Theorem X16_rule_that_names_a_file cfg l pattern dst_subdir exclude_pattern c s :
  let glob_root := Path.join (source_dir cfg l) (_SplitPattern pattern).1 in
  let target :=
    Path.join_str (Path.join_str (install_dir cfg l) dst_subdir) (Path.name glob_root) in
  let run := apply_rule cfg l (pattern, dst_subdir, exclude_pattern) s in
  let plain := apply_rule cfg l (pattern, dst_subdir, "") s in
  FS.lookup (st_fs s) glob_root = Some (NFile c) ->
  run.1 = plain.1 /\ st_fs run.2 = st_fs plain.2 /\
  (run.1 = Ok tt ->
   st_fs run.2 !! (if FS.is_dir (st_fs s) target then target ++ [Path.name glob_root]
                   else target)
   = Some (NFile c)).
Proof.
  intros glob_root target run plain Hfile. subst run plain.
  rewrite !(apply_rule_file cfg l pattern dst_subdir _ c s Hfile).
  fold glob_root. fold target.
  set (copy := (mkdir_parents_exist_ok (Path.parent target) ;;; copy2 glob_root target)%prog).
  assert (forall s0, st_fs s0 = st_fs s ->
            (copy s0).1 = (copy s).1 /\ st_fs (copy s0).2 = st_fs (copy s).2) as Hsame.
  { intros s0 Hs0. subst copy.
    unfold mkdir_parents_exist_ok, copy2, fs_op, bind, emit, get_fs, set_fs, raise. simpl.
    rewrite Hs0. destruct (FS.makedirs (st_fs s) (Path.parent target)); simpl; [done|].
    by destruct (FS.copy2 _ _ _). }
  assert (forall m : M unit, (forall s0, exists s1, m s0 = (Ok tt, s1) /\ st_fs s1 = st_fs s0) ->
            ((m ;;; copy)%prog s).1 = (copy s).1 /\
            st_fs ((m ;;; copy)%prog s).2 = st_fs (copy s).2) as Hpre.
  { intros m Hm. unfold bind. destruct (Hm s) as (s1 & -> & Hs1). by apply Hsame. }
  assert (forall s0, exists s1, ret tt s0 = (Ok tt, s1) /\ st_fs s1 = st_fs s0) as Hret
    by (intros s0; by exists s0).
  assert (forall msg ty s0, exists s1, log msg ty s0 = (Ok tt, s1) /\ st_fs s1 = st_fs s0)
    as Hlog by (intros msg ty s0; by eexists).
  cbn [String.eqb negb].
  destruct (Hpre (ret tt) Hret) as [Hr1 Hf1].
  destruct (String.eqb exclude_pattern "") eqn:Ex; cbn [negb].
  - split; [done|]. split; [done|]. intros Hok. rewrite Hf1.
    rewrite Hr1 in Hok. apply (copy_file_lands glob_root target c s); [done|].
    by apply run_eq.
  - destruct (Hpre (log (MsgExcludeNotNeeded exclude_pattern) Warning) (Hlog _ _))
      as [Hr2 Hf2].
    split; [by rewrite Hr1, Hr2|]. split; [by rewrite Hf1, Hf2|]. intros Hok. rewrite Hf2.
    rewrite Hr2 in Hok. apply (copy_file_lands glob_root target c s); [done|].
    by apply run_eq.
Qed.

Lemma X16_witness :
  let l := Sample.steam_dlls in
  let run :=
    apply_rule Sample.config l ("redistributable_bin/steam_api.dll", "bin", "*.lib")
      (Sample.start Sample.steam_fs) in
  let plain :=
    apply_rule Sample.config l ("redistributable_bin/steam_api.dll", "bin", "")
      (Sample.start Sample.steam_fs) in
  run.1 = plain.1 /\ st_fs run.2 = st_fs plain.2 /\
  (run.1 = Ok tt ->
   st_fs run.2 !! (Sample.bin ++ ["SteamworksSDK"; "bin"; "steam_api.dll"])
   = Some (NFile "dll32")).
Proof.
  intros l run plain.
  exact (X16_rule_that_names_a_file Sample.config l "redistributable_bin/steam_api.dll"
           "bin" "*.lib" "dll32" (Sample.start Sample.steam_fs) eq_refl).
Defined.

(** ** Where a rule finds what it copies

    [glob] is given the base of the rule and the pattern as one string.
    When the base has no wildcard character of its own, what is found is
    at or below the base. *)

Lemma split_pieces_no_sep sep (s x : string) : x ∈ Str.split sep s -> Str.mem sep x = false.
Proof.
  revert x. induction s as [|a s IH]; intros x; simpl.
  - by intros ->%list_elem_of_singleton.
  - destruct (Ascii.eqb a sep) eqn:E.
    + intros [->|Hx]%elem_of_cons; [done|]. by apply IH.
    + destruct (Str.split sep s) as [|y ys] eqn:S.
      * intros ->%list_elem_of_singleton. simpl. by rewrite E.
      * intros [->|Hx]%elem_of_cons.
        -- simpl. rewrite E. apply IH. by left.
        -- apply IH. by right.
Qed.

(** A part of a path that has a wildcard character is not the root, not
    empty, and has no slash. *)
Lemma wildcard_part pattern part :
  part ∈ Path.parse pattern -> has_wildcard part = true ->
  exists c t, part = String c t /\ c <> "/"%char.
Proof.
  intros Hin Hw. unfold Path.parse in Hin.
  assert (part ∈ List.filter Path.keep_part (Str.split "/" pattern)) as Hp.
  { destruct (Path.root_of pattern) as [r|] eqn:R; [|done].
    apply elem_of_cons in Hin as [->|]; [|done]. exfalso.
    unfold Path.root_of in R. repeat case_match; simplify_eq; done. }
  apply list_elem_of_In, filter_In in Hp as [Hp _]. apply list_elem_of_In in Hp.
  apply split_pieces_no_sep in Hp. destruct part as [|c t]; [done|].
  exists c, t. split; [done|]. intros ->. simpl in Hp. done.
Qed.

Lemma join_head_root part rest c t :
  part = String c t -> c <> "/"%char -> Path.root_of (Str.join "/" (part :: rest)) = None.
Proof.
  intros -> Hc. assert (exists u, Str.join "/" (String c t :: rest) = String c u) as [u ->].
  { destruct rest; simpl; eauto. }
  unfold Path.root_of. destruct c as [[] [] [] [] [] [] [] []]; try done.
Qed.

Lemma literal_prefix_app seen a b :
  Forall (fun part => has_wildcard part = false) a ->
  Glob.literal_prefix seen (a ++ b) = Glob.literal_prefix (seen ++ a) b.
Proof.
  intros Ha. revert seen. induction Ha as [|x a Hx _ IH]; intros seen; simpl.
  - by rewrite app_nil_r.
  - unfold Glob.has_magic. rewrite Hx, IH. by rewrite <- app_assoc.
Qed.

Lemma literal_prefix_keeps seen b : seen `prefix_of` (Glob.literal_prefix seen b).1.
Proof.
  revert seen. induction b as [|x b IH]; intros seen; simpl; [done|].
  destruct (Glob.has_magic x); [done|]. etrans; [|apply IH]. by apply prefix_app_r.
Qed.

Lemma expand_below f dirs segs q :
  q ∈ Glob.expand f dirs segs -> exists d, d ∈ dirs /\ d `prefix_of` q.
Proof.
  revert dirs. induction segs as [|seg rest IH]; intros dirs; simpl.
  - intros Hq. by exists q.
  - intros Hq. apply IH in Hq as (d' & Hd' & Hpre).
    apply list_elem_of_In, in_flat_map in Hd' as (d & Hd & Hstep).
    apply list_elem_of_In in Hd, Hstep. exists d. split; [done|].
    etrans; [|exact Hpre]. clear Hpre.
    destruct (String.eqb seg "**").
    + unfold Glob.glob2 in Hstep. destruct (FS.is_dir f d); [|by apply elem_of_nil in Hstep].
      apply elem_of_cons in Hstep as [->|Hstep]; [done|].
      apply list_elem_of_omap in Hstep as (e & _ & He).
      case_match; simplify_eq. by apply prefix_app_r.
    + destruct (Glob.has_magic seg).
      * unfold Glob.glob1 in Hstep.
        destruct (FS.is_dir f d); [|by apply elem_of_nil in Hstep].
        apply list_elem_of_omap in Hstep as (name & _ & He).
        case_match; simplify_eq. by apply prefix_app_r.
      * unfold Glob.glob0 in Hstep.
        destruct (FS.exists_ f (d ++ [seg])); [|by apply elem_of_nil in Hstep].
        apply list_elem_of_singleton in Hstep as ->. by apply prefix_app_r.
Qed.

Lemma glob_below f base rest q :
  Forall (fun part => has_wildcard part = false) base ->
  q ∈ Glob.glob f (base ++ rest) -> base `prefix_of` q.
Proof.
  intros Hbase. unfold Glob.glob. destruct (existsb Glob.has_magic (base ++ rest)).
  - rewrite (literal_prefix_app [] base rest Hbase). simpl.
    pose proof (literal_prefix_keeps base rest) as Hlit.
    destruct (Glob.literal_prefix base rest) as [lit segs]. simpl in Hlit.
    assert (q ∈ Glob.expand f [lit] segs -> base `prefix_of` q) as Hfound.
    { intros (d & ->%list_elem_of_singleton & Hd)%expand_below. by etrans. }
    intros Hq. apply Hfound. destruct (base ++ rest) as [|seg [|]]; try done.
    destruct (String.eqb seg "**"); [|done].
    destruct (Glob.expand f [lit] segs); [done|]. by right.
  - destruct (FS.exists_ f (base ++ rest)); [|by intros ?%elem_of_nil].
    intros ->%list_elem_of_singleton. by apply prefix_app_r.
Qed.

Lemma relative_to_app other rel : Path.relative_to (other ++ rel) other = Some rel.
Proof.
  induction other as [|o other IH]; simpl; [by destruct rel|]. by rewrite String.eqb_refl.
Qed.

(** X17: when no part of the source directory of the library has a
    wildcard character, everything a rule copies is at or below the base
    of the rule, the source directory joined with the part of the pattern
    before its first wildcard: the path relative to the base that the
    copy needs always exists, and the warning for a failed
    [relative_to] is never given for it. *)
Theorem X17_rules_copy_from_below_their_base cfg l f pattern exclude_pattern q :
  let glob_root := Path.join (source_dir cfg l) (_SplitPattern pattern).1 in
  Forall (fun part => has_wildcard part = false) (source_dir cfg l) ->
  q ∈ to_copy cfg l f pattern exclude_pattern ->
  exists rel, q = glob_root ++ rel /\ Path.relative_to q glob_root = Some rel.
Proof.
  intros glob_root Hsrc Hq.
  assert (glob_root `prefix_of` q) as [rel ->];
    [|exists rel; split; [done|apply relative_to_app]].
  subst glob_root. unfold to_copy in Hq. unfold _SplitPattern in *.
  destruct (split_parts_spec [] (Path.parse pattern))
    as (pre & post & Hparse & Hfix & Hall & Hpost & Hsub).
  destruct (split_parts [] (Path.parse pattern)) as [fixed sub]. simpl in *. subst fixed sub.
  apply list_elem_of_difference in Hq as [Hq _]. rewrite elem_of_remove_dups in Hq.
  assert (Forall (fun part => has_wildcard part = false) (Path.join (source_dir cfg l) pre))
    as Hbase by (by apply join_no_wildcard).
  assert (exists rest, Path.join_str (Path.join (source_dir cfg l) pre) (Str.join "/" post)
                       = Path.join (source_dir cfg l) pre ++ rest) as [rest Hjoin].
  { unfold Path.join_str. destruct post as [|part post'].
    - exists []. simpl. by rewrite app_nil_r.
    - destruct (wildcard_part pattern part) as (c & t & Hpart & Hc); [|done|].
      { rewrite Hparse. set_solver. }
      eexists. apply join_relative, parse_relative. by eapply join_head_root. }
  rewrite Hjoin in Hq. exact (glob_below f _ rest q Hbase Hq).
Qed.

Lemma X17_witness :
  let glob_root := Sample.src ++ ["SteamworksSDK"; "redistributable_bin"] in
  exists rel,
    Sample.src ++ ["SteamworksSDK"; "redistributable_bin"; "win64"; "steam_api64.dll"]
    = glob_root ++ rel /\
    Path.relative_to
      (Sample.src ++ ["SteamworksSDK"; "redistributable_bin"; "win64"; "steam_api64.dll"])
      glob_root = Some rel.
Proof.
  apply (X17_rules_copy_from_below_their_base Sample.config Sample.steam_dlls Sample.steam_fs
           "redistributable_bin/**/*.dll" "").
  - repeat constructor.
  - refine (bool_decide_unpack _ _). vm_compute. exact I.
Defined.

(** ** Rules without a base

    A rule whose base does not exist is passed over with a warning; the
    method goes on and returns normally. *)

Lemma apply_rule_missing cfg l pattern dst_subdir exclude_pattern s :
  let glob_root := Path.join (source_dir cfg l) (_SplitPattern pattern).1 in
  FS.exists_ (st_fs s) glob_root = false ->
  apply_rule cfg l (pattern, dst_subdir, exclude_pattern) s
  = (Ok tt, with_events s [Log Warning (MsgPatternBaseNotFound glob_root)]).
Proof.
  intros glob_root Hmiss. unfold apply_rule. subst glob_root.
  destruct (_SplitPattern pattern) as [fixed sub]. simpl in *.
  unfold bind at 1. unfold get_fs. by rewrite Hmiss.
Qed.

(** X18: when the base of every rule of a manual library is missing (the
    source directory joined with the part of the pattern before its first
    wildcard does not exist), [BuildAndInstall] copies nothing and
    changes nothing: it logs one warning per rule, in order, and returns
    normally; a missing base is not a failure. *)
Theorem X18_rules_without_base_are_passed_over cfg l rules s :
  Forall (fun rule : string * string * string =>
            FS.exists_ (st_fs s)
              (Path.join (source_dir cfg l) (_SplitPattern rule.1.1).1) = false) rules ->
  Manual_BuildAndInstall cfg l rules s
  = (Ok tt,
     with_events s
       ((fun rule : string * string * string =>
           Log Warning (MsgPatternBaseNotFound
                          (Path.join (source_dir cfg l) (_SplitPattern rule.1.1).1)))
        <$> rules)).
Proof.
  unfold Manual_BuildAndInstall. revert s.
  induction rules as [|[[pattern dst] ex] rules IH]; intros s Hall.
  - simpl. unfold ret. f_equal. destruct s. unfold with_events. simpl. by rewrite app_nil_r.
  - inversion Hall as [|? ? Hrule Hrest]; subst. cbn [for_each]. unfold bind at 1.
    rewrite (apply_rule_missing cfg l pattern dst ex s Hrule).
    rewrite (IH (with_events s _)) by done.
    f_equal. unfold with_events. simpl. by rewrite <- app_assoc.
Qed.

Lemma X18_witness :
  Manual_BuildAndInstall Sample.config Sample.steam_dlls
    [("redistributable/**/*.dll", "bin", ""); ("private/steam", "include", "*.h")]
    (Sample.start Sample.steam_fs)
  = (Ok tt,
     with_events (Sample.start Sample.steam_fs)
       [Log Warning (MsgPatternBaseNotFound (Sample.src ++ ["SteamworksSDK"; "redistributable"]));
        Log Warning (MsgPatternBaseNotFound (Sample.src ++ ["SteamworksSDK"; "private"; "steam"]))]).
Proof.
  apply (X18_rules_without_base_are_passed_over Sample.config Sample.steam_dlls
           [("redistributable/**/*.dll", "bin", ""); ("private/steam", "include", "*.h")]
           (Sample.start Sample.steam_fs)).
  repeat constructor.
Defined.

(** * The record after a failed build *)

(** ** What the file operations of a build do to one entry *)

Lemma disused_trans o a b : disused o a -> disused a b -> disused o b.
Proof. intros Ha [->|Hb]; [done|by right]. Qed.

Lemma copies_clear_of_snoc p T e : copies_clear_of p (T ++ [e]) -> copies_clear_of p T.
Proof.
  intros H src dst Hin. apply (H src dst).
  destruct Hin as [Hin|Hin]; [left|right]; apply elem_of_app; by left.
Qed.

Lemma makedirs_disused f q f' p : FS.makedirs f q = inr f' -> disused (f !! p) (f' !! p).
Proof.
  unfold FS.makedirs. intros H.
  destruct (makedirs_from_lookup _ _ _ _ p H) as [Hk|[_ Hk]]; [by left|].
  right. right. by left.
Qed.

Lemma mkdir_parents_disused f q f' p :
  FS.mkdir_parents f q = inr f' -> disused (f !! p) (f' !! p).
Proof.
  unfold FS.mkdir_parents. destruct (FS.exists_ f q); [done|]. apply makedirs_disused.
Qed.

Lemma rmtree_disused f q f' p : FS.rmtree f q = inr f' -> disused (f !! p) (f' !! p).
Proof.
  unfold FS.rmtree. destruct (FS.lookup f q) as [[|c]|]; try done.
  intros [= <-]. unfold FS.remove_tree.
  destruct (filter _ f !! p) as [n|] eqn:L; [|right; by left].
  apply map_lookup_filter_Some in L as [L _]. by left.
Qed.

Lemma unlink_disused f q f' p : FS.unlink f q = inr f' -> disused (f !! p) (f' !! p).
Proof.
  unfold FS.unlink. destruct (FS.lookup f q) as [[|c]|]; try done.
  intros [= <-]. destruct (decide (q = p)) as [->|Hne].
  - right. left. apply lookup_delete_eq.
  - left. by apply lookup_delete_ne.
Qed.

Lemma write_inserts f q c f' : FS.write f q c = inr f' -> f' = <[q := NFile c]> f.
Proof.
  unfold FS.write. destruct (FS.lookup f q) as [[|c0]|]; try done.
  - by intros [= <-].
  - destruct (FS.parent_error f q); [done|]. by intros [= <-].
Qed.

Lemma write_empty_disused f q f' p :
  FS.write f q "" = inr f' -> disused (f !! p) (f' !! p).
Proof.
  intros H. apply write_inserts in H as ->. destruct (decide (q = p)) as [->|Hne].
  - right. right. right. apply lookup_insert_eq.
  - left. by apply lookup_insert_ne.
Qed.

Lemma copy2_elsewhere f src dst f' (p : path) :
  ~ dst `prefix_of` p -> FS.copy2 f src dst = inr f' -> f' !! p = f !! p.
Proof.
  intros Hp. unfold FS.copy2. destruct (FS.read f src) as [e|c]; [done|].
  intros H. apply write_inserts in H as ->. apply lookup_insert_ne.
  intros Heq. apply Hp. rewrite <- Heq.
  destruct (FS.is_dir f dst); [by apply prefix_app_r|done].
Qed.

Lemma copy_entries_disused src dst (p : path) entries acc o :
  ~ dst `prefix_of` p ->
  disused o (acc.2 !! p) ->
  disused o ((foldl (FS.copy_entry src dst) acc entries).2 !! p).
Proof.
  intros Hp. revert acc. induction entries as [|e entries IH]; intros [failed f] H; [done|].
  simpl. apply IH. unfold FS.copy_entry. destruct e as [rel [|c]]; simpl.
  - destruct (FS.makedirs f (dst ++ rel)) as [err|f1] eqn:E; [done|]. simpl.
    eapply disused_trans; [exact H|by eapply makedirs_disused].
  - destruct (FS.copy2 f (src ++ rel) (dst ++ rel)) as [err|f1] eqn:E; [done|]. simpl.
    rewrite (copy2_elsewhere _ _ _ _ p ltac:(by intros Hq; apply Hp; etrans;
                                                 [apply prefix_app_r|exact Hq]) E).
    exact H.
Qed.

Lemma copytree_disused f src dst (p : path) :
  ~ dst `prefix_of` p ->
  disused (f !! p)
          (match FS.copytree f src dst with inl (_, f') => f' | inr f' => f' end !! p).
Proof.
  intros Hp. unfold FS.copytree.
  destruct (FS.lookup f src) as [[|c]|]; try by left.
  destruct (FS.makedirs f dst) as [e|f1] eqn:E; [by left|].
  pose proof (copy_entries_disused src dst p (merge_sort FS.shallower (FS.below f src))
                (false, f1) (f !! p) Hp (makedirs_disused _ _ _ p E)) as H.
  destruct (foldl _ _ _) as [[|] f2]; exact H.
Qed.

#[global] Instance disused_since_emit p o E : EmitStable (disused_since p o E).
Proof.
  intros e s r s' (T & HT & H) [= <- <-]. exists (T ++ [e]). simpl. split.
  - by rewrite HT, app_assoc.
  - intros Hc. apply H. by eapply copies_clear_of_snoc.
Qed.

#[global] Instance disused_since_memo p o E : MemoStable (disused_since p o E).
Proof. split; intros h s r s' HI [= <- <-]; exact HI. Qed.

Lemma disused_since_fs_op p o E op :
  (forall f f', op f = inr f' -> disused (f !! p) (f' !! p)) ->
  always (disused_since p o E) (fs_op op).
Proof.
  intros Hop s r s' (T & HT & H). unfold fs_op, bind, get_fs, set_fs, raise.
  destruct (op (st_fs s)) as [e|f'] eqn:Eo; intros [= <- <-]; [by exists T|].
  exists T. split; [done|]. intros Hc. simpl.
  eapply disused_trans; [by apply H|by apply Hop].
Qed.

Create HintDb disused.

Ltac disused_auto := repeat always_step; eauto with always disused typeclass_instances.

Section Disused.

Variable p : path.
Variable o : option node.
Variable E : list event.

Local Abbreviation K := (disused_since p o E).

Lemma disused_mkdir_parents_exist_ok q : always K (mkdir_parents_exist_ok q).
Proof.
  unfold mkdir_parents_exist_ok. disused_auto. apply disused_since_fs_op.
  intros f f'. apply makedirs_disused.
Qed.

Lemma disused_mkdir_parents q : always K (mkdir_parents q).
Proof.
  unfold mkdir_parents. disused_auto. apply disused_since_fs_op.
  intros f f'. apply mkdir_parents_disused.
Qed.

Lemma disused_rmtree q : always K (rmtree q).
Proof.
  unfold rmtree. disused_auto. apply disused_since_fs_op. intros f f'. apply rmtree_disused.
Qed.

Lemma disused_unlink q : always K (unlink q).
Proof.
  unfold unlink. disused_auto. apply disused_since_fs_op. intros f f'. apply unlink_disused.
Qed.

Lemma disused_write_empty q : always K (write_file q "").
Proof.
  unfold write_file. disused_auto. apply disused_since_fs_op.
  intros f f'. apply write_empty_disused.
Qed.

(** A copy is an event first: it counts among the copies the invariant
    speaks of. *)
Lemma disused_copy2 src dst : always K (copy2 src dst).
Proof.
  intros s r s' (T & HT & H). unfold copy2, fs_op, bind, emit, get_fs, set_fs, raise. simpl.
  destruct (FS.copy2 (st_fs s) src dst) as [e|f'] eqn:Ec; intros [= <- <-];
    exists (T ++ [Copy2 src dst]); simpl; (split; [by rewrite HT, app_assoc|]); intros Hc.
  - apply H. by eapply copies_clear_of_snoc.
  - destruct (Hc src dst) as [_ Hdst]; [left; apply elem_of_app; right; by left|].
    rewrite (copy2_elsewhere _ _ _ _ p Hdst Ec). apply H. by eapply copies_clear_of_snoc.
Qed.

Lemma disused_copytree src dst : always K (copytree src dst).
Proof.
  intros s r s' (T & HT & H). unfold copytree, bind, emit, get_fs, set_fs, raise. simpl.
  assert (copies_clear_of p (T ++ [CopyTree src dst]) ->
          disused o (match FS.copytree (st_fs s) src dst with
                     | inl (_, f') => f' | inr f' => f' end !! p)) as Hafter.
  { intros Hc. destruct (Hc src dst) as [_ Hdst]; [right; apply elem_of_app; right; by left|].
    eapply disused_trans; [apply H; by eapply copies_clear_of_snoc|].
    by apply copytree_disused. }
  destruct (FS.copytree (st_fs s) src dst) as [[e f']|f']; intros [= <- <-];
    exists (T ++ [CopyTree src dst]); simpl; (split; [by rewrite HT, app_assoc|done]).
Qed.

Hint Resolve disused_mkdir_parents_exist_ok disused_mkdir_parents disused_rmtree
  disused_unlink disused_write_empty disused_copy2 disused_copytree : disused.

Variable cfg : Config.
Variable env : Env.

(** The subprocesses leave the entry alone. *)
Hypothesis processes_keep :
  forall cmd cwd f, (run_process env cmd cwd f).2 !! p = f !! p.

Lemma disused_subprocess_run cmd cwd : always K (subprocess_run env cmd cwd).
Proof.
  intros s r s' (T & HT & H) Hrun.
  destruct (subprocess_run_cases env cmd cwd s) as (ok & s1 & Heq & Hev & Hfs).
  rewrite Heq in Hrun. injection Hrun as _ <-.
  exists (T ++ [Exec cmd cwd ok]). split; [by rewrite Hev, HT, app_assoc|].
  intros Hc. rewrite Hfs, processes_keep. apply H. by eapply copies_clear_of_snoc.
Qed.

Lemma disused_AcquireLock lock_file : always K (_AcquireLock env lock_file).
Proof. unfold _AcquireLock. disused_auto. Qed.

Lemma disused_purge_item d name : always K (purge_item d name).
Proof. unfold purge_item. disused_auto. Qed.

Hint Resolve disused_subprocess_run disused_AcquireLock disused_purge_item : disused.

Lemma disused_lock_loop l build_dir fuel :
  always (lifted K) (lock_loop cfg env l build_dir fuel).
Proof.
  induction fuel as [|fuel IH]; simpl.
  - intros s r s' HI [= <- <-]. exact HI.
  - disused_auto.
Qed.

Lemma disused_build_config l configs isMulti config :
  always (lifted K) (build_config cfg env l configs isMulti config).
Proof. unfold build_config. disused_auto. Qed.

Hint Resolve disused_lock_loop disused_build_config : disused.

Lemma disused_cmake_try l build_dir extra_args build_debug :
  always (lifted K) (cmake_try cfg env l build_dir extra_args build_debug).
Proof. unfold cmake_try. disused_auto. Qed.

Hint Resolve disused_cmake_try : disused.


Lemma disused_copy_match l glob_root dst_subdir full_path :
  always K (copy_match cfg l glob_root dst_subdir full_path).
Proof. unfold copy_match. disused_auto. Qed.

Hint Resolve disused_copy_match : disused.

Lemma disused_apply_rule l rule : always K (apply_rule cfg l rule).
Proof. unfold apply_rule. disused_auto. Qed.

Hint Resolve disused_apply_rule : disused.



End Disused.

(** ** The next check *)








(** ** C7: when the record is written *)



